(** * Latent-space alignment utilities ([utils/rotate.py])

    A shallow embedding of the three stages of [utils/rotate.py]:

    - [extract_latent_coordinates]: per-chain posterior means of the
      coordinate columns of a draws table, reshaped into matrices;
    - [align_latent_spaces]: Procrustes alignment of every chain onto a
      reference chain, jointly over persons and items;
    - [create_aligned_draws_dataframe]: a copy of the draws table whose
      coordinate columns are overwritten, chain by chain.

    and of the stage of [run_stan_model] ([analysis/run_ls_models.py]) that
    calls the three in turn on the draws of a fit.

    Conventions of the embedding.

    - [float64] cells are idealised as real numbers ([R]); rounding is not
      modelled.
    - Chain identifiers are integers ([Z]), as the annotations
      [dict[int, np.ndarray]] and [ref_chain_id: int] say.
    - A Python [dict] is an association list in insertion order.
    - Python exceptions are values of [exception]; a computation that may
      raise returns a [result].
    - A pandas [DataFrame] that is mutated in place lives in a [heap] and is
      handled through a reference. *)

From Stdlib Require Import Reals Lra Lia Ascii String.
From Stdlib Require Import Decimal DecimalNat DecimalString.
From stdpp Require Import base option list strings.

Local Open Scope R_scope.

(** ** Exceptions and the error monad *)

Inductive key : Type :=
| KStr (s : string)
| KInt (z : Z).

Inductive exception : Type :=
| KeyError (k : key)
| IndexError
| ValueError (msg : string).

Inductive result (A : Type) : Type :=
| Ok (a : A)
| Raise (e : exception).
Arguments Ok {A} a.
Arguments Raise {A} e.

Definition result_bind {A B} (f : A → result B) (m : result A) : result B :=
  match m with
  | Ok a => f a
  | Raise e => Raise e
  end.

#[global] Instance result_ret : MRet result := λ A a, Ok a.
#[global] Instance result_mbind : MBind result := λ A B f m, result_bind f m.

(** [for x in xs: s = body(x, s)], stopping at the first exception. *)
Fixpoint for_each {A S} (xs : list A) (body : A → S → result S) (s : S)
  : result S :=
  match xs with
  | [] => Ok s
  | x :: xs' =>
      match body x s with
      | Ok s' => for_each xs' body s'
      | Raise e => Raise e
      end
  end.

(** [for i in range(n)] *)
Definition for_range {S} (n : nat) (body : nat → S → result S) (s : S)
  : result S :=
  for_each (seq 0 n) body s.

(** ** Column labels: [f"{prefix}[{i + 1},{d + 1}]"] *)

(** [str(n)] for a non-negative integer. *)
Definition str (n : nat) : string :=
  NilEmpty.string_of_uint (Nat.to_uint n).

Definition param_name (prefix : string) (i d : nat) : string :=
  String.append prefix
    (String.append "["
       (String.append (str (i + 1))
          (String.append "," (String.append (str (d + 1)) "]")))).

(** ** numpy arrays of dimension two *)

Record ndarray : Type := mk_ndarray {
  ncols : nat;
  rows : list (list R)
}.

Definition nrows (a : ndarray) : nat := length (rows a).

(** [a.shape] *)
Definition shape (a : ndarray) : nat * nat := (nrows a, ncols a).

(** Every row has [ncols] entries. *)
Definition ndarray_wf (a : ndarray) : Prop :=
  Forall (λ r, length r = ncols a) (rows a).

(** [np.zeros((n, D))] *)
Definition np_zeros (n D : nat) : ndarray :=
  mk_ndarray D (replicate n (replicate D 0)).

(** [a[i, d]] *)
Definition ndarray_get (a : ndarray) (i d : nat) : result R :=
  if decide (d < ncols a)%nat then
    match rows a !! i with
    | Some r =>
        match r !! d with
        | Some v => Ok v
        | None => Raise IndexError
        end
    | None => Raise IndexError
    end
  else Raise IndexError.

(** [a[i, d] = v] for indices in range (the only use in the source). *)
Definition ndarray_set (a : ndarray) (i d : nat) (v : R) : ndarray :=
  mk_ndarray (ncols a) (alter (λ r, <[d := v]> r) i (rows a)).

(** [np.vstack([a, b])] *)
Definition np_vstack (a b : ndarray) : result ndarray :=
  if decide (ncols a = ncols b)
  then Ok (mk_ndarray (ncols a) (rows a ++ rows b))
  else Raise (ValueError "all the input array dimensions except for the concatenation axis must match exactly").

(** [a[:n, :]] and [a[n:, :]] *)
Definition rows_upto (n : nat) (a : ndarray) : ndarray :=
  mk_ndarray (ncols a) (take n (rows a)).
Definition rows_from (n : nat) (a : ndarray) : ndarray :=
  mk_ndarray (ncols a) (drop n (rows a)).

(** ** Python dictionaries keyed by chain identifier *)

Abbreviation dict V := (list (Z * V)) (only parsing).

Fixpoint dict_lookup {V} (d : dict V) (k : Z) : option V :=
  match d with
  | [] => None
  | (k', v) :: d' => if decide (k' = k) then Some v else dict_lookup d' k
  end.

(** [d[k]] *)
Definition dict_get {V} (d : dict V) (k : Z) : result V :=
  match dict_lookup d k with
  | Some v => Ok v
  | None => Raise (KeyError (KInt k))
  end.

(** [d[k] = v]: an existing key keeps its position, a new one is appended. *)
Fixpoint dict_set {V} (d : dict V) (k : Z) (v : V) : dict V :=
  match d with
  | [] => [(k, v)]
  | (k', v') :: d' =>
      if decide (k' = k) then (k, v) :: d' else (k', v') :: dict_set d' k v
  end.

(** [d.keys()] *)
Definition dict_keys {V} (d : dict V) : list Z := d.*1.

(** ** Draws tables *)

(** A draws table has the integer column [chain__] and float columns, each
    a label with one value per row. *)
Record DataFrame : Type := mk_DataFrame {
  chain__ : list Z;
  params : list (string * list R)
}.

(** [len(df)] *)
Definition df_len (df : DataFrame) : nat := length (chain__ df).

(** [df.columns] *)
Definition df_columns (df : DataFrame) : list string :=
  "chain__"%string :: (params df).*1.

(** Columns are as long as the table, and labels are not repeated. *)
Definition df_wf (df : DataFrame) : Prop :=
  Forall (λ c, length c.2 = df_len df) (params df) ∧ NoDup (df_columns df).

(** A float column by label. *)
Fixpoint series_lookup {V} (cols : list (string * V)) (name : string)
  : option V :=
  match cols with
  | [] => None
  | (n, v) :: cols' =>
      if decide (n = name) then Some v else series_lookup cols' name
  end.

(** [s[name]] on a labelled series such as the result of [df.mean()]. *)
Definition series_get {V} (s : list (string * V)) (name : string) : result V :=
  match series_lookup s name with
  | Some v => Ok v
  | None => Raise (KeyError (KStr name))
  end.

(** [s.unique()]: distinct values in order of first appearance. *)
Fixpoint unique (xs : list Z) : list Z :=
  match xs with
  | [] => []
  | x :: xs' => x :: filter (λ y, y ≠ x) (unique xs')
  end.

(** [df["chain__"] == chain_id] *)
Definition chain_mask (df : DataFrame) (chain_id : Z) : list bool :=
  (λ c, bool_decide (c = chain_id)) <$> chain__ df.

(** Boolean indexing of one column. *)
Fixpoint select {A} (mask : list bool) (xs : list A) : list A :=
  match mask, xs with
  | b :: mask', x :: xs' =>
      if b then x :: select mask' xs' else select mask' xs'
  | _, _ => []
  end.

(** [df[mask]] *)
Definition df_select (df : DataFrame) (mask : list bool) : DataFrame :=
  mk_DataFrame (select mask (chain__ df))
               ((λ c, (c.1, select mask c.2)) <$> params df).

Definition sum (xs : list R) : R := foldr Rplus 0 xs.

(** Arithmetic mean of a column. *)
Definition mean (xs : list R) : R := sum xs / INR (length xs).

(** [df.drop(columns="chain__").mean()] *)
Definition df_mean (df : DataFrame) : list (string * R) :=
  (λ c, (c.1, mean c.2)) <$> params df.

(** ** Stage 1: extraction *)

Definition extract_latent_coordinates
    (df_draws : DataFrame) (n_entities D : nat) (prefix : string)
  : result (dict ndarray) :=
  for_each (unique (chain__ df_draws)) (λ chain_id chain_means,
    let chain_df := df_select df_draws (chain_mask df_draws chain_id) in
    let mean_params := df_mean chain_df in
    matrix ← for_range n_entities (λ i matrix,
      for_range D (λ d matrix,
        v ← series_get mean_params (param_name prefix i d);
        Ok (ndarray_set matrix i d v)) matrix) (np_zeros n_entities D);
    Ok (dict_set chain_means chain_id matrix)) [].

(** ** Programs with a state that survives exceptions *)

(** The state is what the program writes to: standard output for the
    aligner, the object store for the rewriter. *)
Definition prog (St A : Type) : Type := St → result A * St.

Definition prog_ret {St A} (a : A) : prog St A := λ s, (Ok a, s).

Definition prog_bind {St A B} (m : prog St A) (f : A → prog St B)
  : prog St B :=
  λ s, match m s with
       | (Ok a, s') => f a s'
       | (Raise e, s') => (Raise e, s')
       end.

(** A pure computation that may raise. *)
Definition lift {St A} (r : result A) : prog St A := λ s, (r, s).

Declare Scope prog_scope.
Delimit Scope prog_scope with prog.
Notation "x <- m ;; k" := (prog_bind m (λ x, k))
  (at level 100, m at next level, right associativity) : prog_scope.
Notation "m ;; k" := (prog_bind m (λ _, k))
  (at level 100, right associativity) : prog_scope.

Fixpoint for_each_st {St A S} (xs : list A) (body : A → S → prog St S)
    (s : S) : prog St S :=
  match xs with
  | [] => prog_ret s
  | x :: xs' => prog_bind (body x s) (for_each_st xs' body)
  end.

Definition for_range_st {St S} (n : nat) (body : nat → S → prog St S)
    (s : S) : prog St S :=
  for_each_st (seq 0 n) body s.

(** ** Stage 2: alignment *)

(** A line written by [print]: the chain, the reference and the disparity. *)
Record event : Type := Aligning {
  ev_chain : Z;
  ev_ref : Z;
  ev_disparity : R
}.

Definition print (e : event) : prog (list event) () :=
  λ out, (Ok (), out ++ [e]).

Section align.

(** [scipy.spatial.procrustes], a library routine: it returns the
    standardized first matrix, the fitted second matrix and the
    disparity, or raises. *)
Variable procrustes : ndarray → ndarray → result (ndarray * ndarray * R).

(** The body of the loop over [person_coords.keys()]. *)
Definition align_chain
    (person_coords item_coords : dict ndarray) (ref_chain_id : Z)
    (reference_matrix : ndarray) (n_persons : nat)
    (chain_id : Z) (aligned : dict ndarray * dict ndarray)
  : prog (list event) (dict ndarray * dict ndarray) :=
  if decide (chain_id = ref_chain_id) then prog_ret aligned
  else
    (* Combine current chain coordinates *)
    (person_cur <- lift (dict_get person_coords chain_id);;
     item_cur <- lift (dict_get item_coords chain_id);;
     current_matrix <- lift (np_vstack person_cur item_cur);;
     (* Perform Procrustes alignment *)
     fit <- lift (procrustes reference_matrix current_matrix);;
     let aligned_matrix := fit.1.2 in
     let disparity := fit.2 in
     print (Aligning chain_id ref_chain_id disparity);;
     (* Split back into person and item parts *)
     prog_ret
       (dict_set aligned.1 chain_id (rows_upto n_persons aligned_matrix),
        dict_set aligned.2 chain_id (rows_from n_persons aligned_matrix)))%prog.

Definition align_latent_spaces
    (person_coords item_coords : dict ndarray) (ref_chain_id : Z)
  : prog (list event) (dict ndarray * dict ndarray) :=
  (* Create reference matrix *)
  (person_ref <- lift (dict_get person_coords ref_chain_id);;
   item_ref <- lift (dict_get item_coords ref_chain_id);;
   reference_matrix <- lift (np_vstack person_ref item_ref);;
   let aligned_person_coords := [(ref_chain_id, person_ref)] in
   let aligned_item_coords := [(ref_chain_id, item_ref)] in
   let n_persons := nrows person_ref in
   for_each_st (dict_keys person_coords)
     (align_chain person_coords item_coords ref_chain_id
                  reference_matrix n_persons)
     (aligned_person_coords, aligned_item_coords))%prog.

End align.

(** ** The library routine [scipy.spatial.procrustes] *)

Definition vadd (u v : list R) : list R := zip_with Rplus u v.
Definition vsub (u v : list R) : list R := zip_with Rminus u v.
Definition vscale (c : R) (v : list R) : list R := (λ x, x * c) <$> v.
Definition vdiv (v : list R) (c : R) : list R := (λ x, x / c) <$> v.
Definition dotprod (u v : list R) : R := sum (zip_with Rmult u v).

(** Sum of the rows of a matrix with [D] columns. *)
Definition vsum (D : nat) (rs : list (list R)) : list R :=
  foldr vadd (replicate D 0) rs.

(** [np.mean(a, 0)]: the centroid. *)
Definition np_mean0 (a : ndarray) : list R :=
  vdiv (vsum (ncols a) (rows a)) (INR (nrows a)).

(** [a - v] for a row [v], broadcast over the rows. *)
Definition sub_row (a : ndarray) (v : list R) : ndarray :=
  mk_ndarray (ncols a) ((λ r, vsub r v) <$> rows a).

(** [np.sum(np.square(a))] *)
Definition sum_square (a : ndarray) : R :=
  sum ((λ r, dotprod r r) <$> rows a).

(** [np.linalg.norm(a)]: the Frobenius norm. *)
Definition np_norm (a : ndarray) : R := sqrt (sum_square a).

(** [a / c] and [a * c] for a scalar [c]. *)
Definition div_scalar (a : ndarray) (c : R) : ndarray :=
  mk_ndarray (ncols a) ((λ r, vdiv r c) <$> rows a).
Definition mul_scalar (a : ndarray) (c : R) : ndarray :=
  mk_ndarray (ncols a) (vscale c <$> rows a).

(** [np.dot(a, b)] *)
Fixpoint lincomb (D : nat) (cs : list R) (vs : list (list R)) : list R :=
  match cs, vs with
  | c :: cs', v :: vs' => vadd (vscale c v) (lincomb D cs' vs')
  | _, _ => replicate D 0
  end.

Definition np_dot (a b : ndarray) : result ndarray :=
  if decide (ncols a = nrows b)
  then Ok (mk_ndarray (ncols b) ((λ r, lincomb (ncols b) r (rows b)) <$> rows a))
  else Raise (ValueError "shapes not aligned").

(** [np.dot(a, b.T)] *)
Definition np_dot_T (a b : ndarray) : result ndarray :=
  if decide (ncols a = ncols b)
  then Ok (mk_ndarray (nrows b) ((λ r, dotprod r <$> rows b) <$> rows a))
  else Raise (ValueError "shapes not aligned").

(** [a - b] for arrays of one shape. *)
Definition np_sub (a b : ndarray) : result ndarray :=
  if decide (shape a = shape b)
  then Ok (mk_ndarray (ncols a) (zip_with vsub (rows a) (rows b)))
  else Raise (ValueError "operands could not be broadcast together").

#[global] Instance R_eq_dec : EqDecision R := Req_dec_T.

(** Translation of the centroid to the origin, then scaling to unit norm. *)
Definition center (a : ndarray) : ndarray := sub_row a (np_mean0 a).
Definition standardize (a : ndarray) : ndarray :=
  div_scalar (center a) (np_norm (center a)).

Section scipy.

(** [scipy.linalg.orthogonal_procrustes]: the numerical kernel (a
    singular value decomposition) that returns the orthogonal matrix and
    the scale. *)
Variable orthogonal_procrustes : ndarray → ndarray → ndarray * R.

(** Modelled from the spec: [scipy.spatial.procrustes] is imported from
    SciPy and is not under src/. Both configurations are translated to
    their centroid and scaled to unit norm, the second is then rotated
    and scaled onto the first, and the disparity is the sum of squared
    differences that remains. *)
Definition scipy_procrustes (data1 data2 : ndarray)
  : result (ndarray * ndarray * R) :=
  if decide (shape data1 ≠ shape data2) then
    Raise (ValueError "Input matrices must be of same shape")
  else if decide ((nrows data1 * ncols data1)%nat = 0%nat) then
    Raise (ValueError "Input matrices must be >0 rows and >0 cols")
  else
    let mtx1 := center data1 in
    let mtx2 := center data2 in
    let norm1 := np_norm mtx1 in
    let norm2 := np_norm mtx2 in
    if decide (norm1 = 0 ∨ norm2 = 0) then
      Raise (ValueError "Input matrices must contain >1 unique points")
    else
      let mtx1 := div_scalar mtx1 norm1 in
      let mtx2 := div_scalar mtx2 norm2 in
      let '(R, s) := orthogonal_procrustes mtx1 mtx2 in
      rotated ← np_dot_T mtx2 R;
      let mtx2 := mul_scalar rotated s in
      diff ← np_sub mtx1 mtx2;
      let disparity := sum_square diff in
      Ok (mtx1, mtx2, disparity).

End scipy.

(** ** Stage 3: rewriting the draws *)

(** The object store: a reference is an index into the list of tables. *)
Abbreviation ref := nat (only parsing).
Abbreviation heap := (list DataFrame) (only parsing).

Definition empty_frame : DataFrame := mk_DataFrame [] [].

(** The table a reference designates. *)
Definition deref (h : heap) (r : ref) : DataFrame :=
  default empty_frame (h !! r).

(** [df.copy()]: a fresh table with the same cells. *)
Definition df_copy (r : ref) : prog heap ref :=
  λ h, (Ok (length h), h ++ [deref h r]).

(** [df["chain__"] == chain_id] on a stored table. *)
Definition df_chain_eq (r : ref) (chain_id : Z) : prog heap (list bool) :=
  λ h, (Ok (chain_mask (deref h r) chain_id), h).

(** [name in df.columns] on a stored table. *)
Definition df_has_column (r : ref) (name : string) : prog heap bool :=
  λ h, (Ok (bool_decide (name ∈ df_columns (deref h r))), h).

(** One column after [column[mask] = v]. *)
Fixpoint assign_where (mask : list bool) (v : R) (xs : list R) : list R :=
  match mask, xs with
  | b :: mask', x :: xs' => (if b then v else x) :: assign_where mask' v xs'
  | _, _ => xs
  end.

(** The table after [df.loc[mask, name] = v], for a float column [name]
    of the table (the source guards the assignment by
    [name in df.columns]). *)
Definition loc_assign (df : DataFrame) (mask : list bool) (name : string)
    (v : R) : DataFrame :=
  mk_DataFrame (chain__ df)
    ((λ c, if decide (c.1 = name) then (c.1, assign_where mask v c.2) else c)
       <$> params df).

(** [df.loc[mask, name] = v], in place. *)
Definition df_loc_set (r : ref) (mask : list bool) (name : string) (v : R)
  : prog heap () :=
  λ h, (Ok (), <[r := loc_assign (deref h r) mask name v]> h).

(** The loop shared by the two coordinate families. *)
Definition replace_coordinates (aligned_draws : ref) (prefix : string)
    (aligned_coords : dict ndarray) (D : nat) : prog heap () :=
  for_each_st aligned_coords (λ item _,
    let chain_id := item.1 in
    let coords := item.2 in
    (chain_mask <- df_chain_eq aligned_draws chain_id;;
     let n := nrows coords in
     for_range_st n (λ i _,
       for_range_st D (λ d _,
         let name := param_name prefix i d in
         present <- df_has_column aligned_draws name;;
         if present then
           v <- lift (ndarray_get coords i d);;
           df_loc_set aligned_draws chain_mask name v
         else prog_ret ()) ()) ())%prog) ().

Definition create_aligned_draws_dataframe
    (original_draws : ref)
    (aligned_person_coords aligned_item_coords : dict ndarray) (D : nat)
  : prog heap ref :=
  (aligned_draws <- df_copy original_draws;;
   (* Replace person coordinates *)
   replace_coordinates aligned_draws "xi" aligned_person_coords D;;
   (* Replace item coordinates *)
   replace_coordinates aligned_draws "zt_centered" aligned_item_coords D;;
   prog_ret aligned_draws)%prog.

(** ** The caller: the alignment stage of [run_stan_model]
    ([analysis/run_ls_models.py]) *)

(** [sub in s] for strings. *)
Fixpoint str_in (sub s : string) : bool :=
  String.prefix sub s ||
  match s with
  | EmptyString => false
  | String _ s' => str_in sub s'
  end.

(** [[var for var in columns if sub in var]] *)
Definition vars_with (sub : string) (columns : list string) : list string :=
  filter (λ var, str_in sub var = true) columns.

(** [df[["chain__"] + labels]]: the chain column and the float columns
    [labels], in that order. *)
Definition df_chain_and (df : DataFrame) (labels : list string)
  : result DataFrame :=
  cols ← for_each labels (λ label cols,
            col ← series_get (params df) label;
            Ok (cols ++ [(label, col)])) [];
  Ok (mk_DataFrame (chain__ df) cols).

(** The two things that the stage writes to: standard output and the
    object store. *)
Definition on_stdout {A} (m : prog (list event) A)
  : prog (list event * heap) A :=
  λ st, ((m st.1).1, ((m st.1).2, st.2)).
Definition on_heap {A} (m : prog heap A) : prog (list event * heap) A :=
  λ st, ((m st.2).1, (st.1, (m st.2).2)).

Section caller.
Variable procrustes : ndarray → ndarray → result (ndarray * ndarray * R).

(** From [df_fit = fit.draws_pd()] to [df_fit_aligned]: sampling and the
    parquet files before and after are input and output of the process and
    are not part of the embedding. [stan_data] holds the integer entries of
    the dictionary. *)
Definition run_stan_model_alignment (df_fit : ref)
    (stan_data : list (string * nat)) : prog (list event * heap) ref :=
  (df <- on_heap (λ h, (Ok (deref h df_fit), h));;
   let person_vars := vars_with "xi[" (df_columns df) in
   let item_vars := vars_with "zt_centered[" (df_columns df) in
   person_draws <- lift (df_chain_and df person_vars);;
   item_draws <- lift (df_chain_and df item_vars);;
   n_persons <- lift (series_get stan_data "n_persons");;
   D <- lift (series_get stan_data "D");;
   person_chain_coords <-
     lift (extract_latent_coordinates person_draws n_persons D "xi");;
   n_items <- lift (series_get stan_data "n_items");;
   D <- lift (series_get stan_data "D");;
   item_chain_coords <-
     lift (extract_latent_coordinates item_draws n_items D "zt_centered");;
   aligned <- on_stdout (align_latent_spaces procrustes
                           person_chain_coords item_chain_coords 1);;
   on_heap (create_aligned_draws_dataframe df_fit aligned.1 aligned.2 2))%prog.

End caller.

(** ** Definitions used by the statements and proofs *)

Definition np_eye (D : nat) : ndarray :=
  mk_ndarray D ((λ i, (λ j, if decide (i = j) then 1 else 0) <$> seq 0 D) <$> seq 0 D).

Definition square_person : ndarray := mk_ndarray 2 [[0; 0]; [1; 0]].
Definition square_item : ndarray := mk_ndarray 2 [[0; 1]; [1; 1]].
Definition other_item : ndarray := mk_ndarray 2 [[5; 5]; [6; 7]].

(** The matrix that the two nested loops build from the values [val]. *)
Definition filled (n D : nat) (val : nat → nat → R) : ndarray :=
  foldl (λ m i, mk_ndarray (ncols m)
                  (alter (λ r, foldl (λ r d, <[d := val i d]> r) r (seq 0 D)) i
                         (rows m)))
        (np_zeros n D) (seq 0 n).

(** The values of a column in the rows of chain [c]. *)
Definition chain_values (df : DataFrame) (c : Z) (column : list R) : list R :=
  (filter (λ p, p.1 = c) (zip (chain__ df) column)).*2.

Fixpoint has_char (c : ascii) (s : string) : bool :=
  match s with
  | EmptyString => false
  | String c' s' => bool_decide (c' = c) || has_char c s'
  end.

(** The mean that the extractor stores for chain [c] at [(i, d)]. *)
Definition chain_mean (df : DataFrame) (prefix : string) (c : Z) (i d : nat) : R :=
  mean (chain_values df c
          (default [] (series_lookup (params df) (param_name prefix i d)))).

(** One cell of a table. *)
Definition cell (df : DataFrame) (name : string) (row : nat) : option R :=
  match series_lookup (params df) name with
  | Some col => col !! row
  | None => None
  end.

(** Same chain column, same labels in the same order, same column lengths. *)
Definition same_schema (df0 df : DataFrame) : Prop :=
  chain__ df = chain__ df0 ∧
  Forall2 (λ c0 c, c.1 = c0.1 ∧ length c.2 = length c0.2) (params df0) (params df).

(** A program keeps an invariant of the state, whether it returns or raises. *)
Definition preserves {St A} (I : St → Prop) (m : prog St A) : Prop :=
  ∀ st, I st → I (m st).2.

(** Total correctness: from [P] the program returns, in a state with [Q]. *)
Definition triple {St A} (P : St → Prop) (m : prog St A) (Q : A → St → Prop)
  : Prop :=
  ∀ st, P st → ∃ a st', m st = (Ok a, st') ∧ Q a st'.

(** The value that the rewriter assigns to the rows of chain [c] in column
    [name], for one coordinate family. *)
Definition target (prefix : string) (aligned_coords : dict ndarray) (D : nat)
    (c : Z) (name : string) (v : R) : Prop :=
  ∃ coords i d,
    (c, coords) ∈ aligned_coords ∧ (i < nrows coords)%nat ∧ (d < D)%nat ∧
    name = param_name prefix i d ∧ ndarray_get coords i d = Ok v.

(** Every cell of [df] is the cell of [df0] or an assigned value. *)
Definition rewritten (T : Z → string → R → Prop) (df0 df : DataFrame) : Prop :=
  same_schema df0 df ∧
  ∀ name row x,
    cell df name row = Some x →
    cell df0 name row = Some x ∨ ∃ c, chain__ df0 !! row = Some c ∧ T c name x.

(** The store is [h0] followed by one table, which satisfies [φ]. *)
Definition at_top (h0 : heap) (φ : DataFrame → Prop) (h : heap) : Prop :=
  ∃ df, h = h0 ++ [df] ∧ φ df.

(** The rows of chain [c] hold an assigned value in column [name], wherever
    the column has a cell. *)
Definition assigned (T : Z → string → R → Prop) (df0 df : DataFrame)
    (c : Z) (name : string) : Prop :=
  ∀ row x0,
    chain__ df0 !! row = Some c → cell df0 name row = Some x0 →
    ∃ v, T c name v ∧ cell df name row = Some v.

(** The assignments in [E] have been made. *)
Definition assigned_all (T : Z → string → R → Prop) (df0 : DataFrame)
    (E : Z → string → Prop) (df : DataFrame) : Prop :=
  same_schema df0 df ∧ ∀ c name, E c name → assigned T df0 df c name.

(** Column [j] of a list of rows. *)
Definition col (rs : list (list R)) (j : nat) : list R :=
  (λ r, nth j r 0) <$> rs.

(** The second configuration after rotation by [Rm] and scaling by [s]:
    [np.dot(m2, Rm.T) * s]. *)
Definition fitted (m2 Rm : ndarray) (s : R) : ndarray :=
  mk_ndarray (nrows Rm) (vscale s <$> ((λ r, dotprod r <$> rows Rm) <$> rows m2)).

(** [np.sum(np.square(m1 - m2))] for arrays of one shape. *)
Definition residual (m1 m2 : ndarray) : R :=
  sum_square (mk_ndarray (ncols m1) (zip_with vsub (rows m1) (rows m2))).

(** A [D] by [D] matrix whose rows are orthonormal: a rotation, possibly
    composed with a reflection. *)
Definition orthogonal (D : nat) (Q : ndarray) : Prop :=
  shape Q = (D, D) ∧ ndarray_wf Q ∧
  ∀ k l, (k < D)%nat → (l < D)%nat →
    dotprod (nth k (rows Q) []) (nth l (rows Q) [])
    = if decide (k = l) then 1 else 0.

(** What [scipy.linalg.orthogonal_procrustes] guarantees on the two
    standardized configurations: a square matrix and a scale that leave
    the least sum of squared differences among all orthogonal matrices and
    scales. *)
Definition solver_optimal (solver : ndarray → ndarray → ndarray * R)
    (m1 m2 : ndarray) : Prop :=
  shape (solver m1 m2).1 = (ncols m1, ncols m1) ∧
  ∀ Q s, orthogonal (ncols m1) Q →
    residual m1 (fitted m2 (solver m1 m2).1 (solver m1 m2).2)
    <= residual m1 (fitted m2 Q s).

(** The configuration [A] times [Q]. *)
Definition rotated (Q A : ndarray) : ndarray :=
  mk_ndarray (ncols A) ((λ r, lincomb (ncols A) r (rows Q)) <$> rows A).

Definition square_stack : ndarray := mk_ndarray 2 [[0; 0]; [1; 0]; [0; 1]; [1; 1]].
Definition quarter_turn : ndarray := mk_ndarray 2 [[0; 1]; [-1; 0]].
Definition turned_person : ndarray := mk_ndarray 2 [[0; 0]; [0; 1]].
Definition turned_item : ndarray := mk_ndarray 2 [[-1; 0]; [-1; 1]].
Definition turned_stack : ndarray :=
  mk_ndarray 2 [[0; 0]; [0; 1]; [-1; 0]; [-1; 1]].
Definition turn_solver (a b : ndarray) : ndarray * R := (quarter_turn, 1).


Definition turned_persons : list (Z * ndarray) :=
  [(1%Z, square_person); (2%Z, turned_person)].
Definition turned_items : list (Z * ndarray) :=
  [(1%Z, square_item); (2%Z, turned_item)].

Definition sample_draws : DataFrame :=
  mk_DataFrame [1%Z; 1%Z; 2%Z]
    [("xi[1,1]"%string, [1; 3; 5]);
     ("zt_centered[1,1]"%string, [2; 2; 7]);
     ("lp__"%string, [9; 8; 7])].
Definition sample_person : list (Z * ndarray) := [(2%Z, mk_ndarray 1 [[10]])].
Definition sample_item : list (Z * ndarray) := [(2%Z, mk_ndarray 1 [[20]])].
Definition sample_rewritten : DataFrame :=
  mk_DataFrame [1%Z; 1%Z; 2%Z]
    [("xi[1,1]"%string, [1; 3; 10]);
     ("zt_centered[1,1]"%string, [2; 2; 20]);
     ("lp__"%string, [9; 8; 7])].

(** ** Definitions used by the additional properties *)

(** What the loop body computes for chain [chain_id] before it prints: the
    Procrustes fit of the chain's stacked matrix onto the reference. *)
Definition chain_fit (procrustes : ndarray → ndarray → result (ndarray * ndarray * R))
    (person_coords item_coords : dict ndarray) (reference_matrix : ndarray)
    (chain_id : Z) : result (ndarray * ndarray * R) :=
  person_cur ← dict_get person_coords chain_id;
  item_cur ← dict_get item_coords chain_id;
  current_matrix ← np_vstack person_cur item_cur;
  procrustes reference_matrix current_matrix.

(** The chains that the loop aligns: the keys other than the reference. *)
Definition other_chains (person_coords : dict ndarray) (ref_chain_id : Z) : list Z :=
  filter (λ c, c ≠ ref_chain_id) (dict_keys person_coords).



(** The value that the rewriter assigns, for either coordinate family. *)
Definition rewrite_target (aligned_person_coords aligned_item_coords : dict ndarray)
    (D : nat) (c : Z) (name : string) (v : R) : Prop :=
  target "xi" aligned_person_coords D c name v ∨
  target "zt_centered" aligned_item_coords D c name v.

(** The cells that the rewriter assigns: chain [c], column [name]. *)
Definition rewrite_site (aligned_person_coords aligned_item_coords : dict ndarray)
    (D : nat) (c : Z) (name : string) : Prop :=
  (∃ coords i d, (c, coords) ∈ aligned_person_coords ∧ (i < nrows coords)%nat ∧
                 (d < D)%nat ∧ name = param_name "xi" i d) ∨
  (∃ coords i d, (c, coords) ∈ aligned_item_coords ∧ (i < nrows coords)%nat ∧
                 (d < D)%nat ∧ name = param_name "zt_centered" i d).

(** Every matrix of the map has [D] columns or more. *)
Definition covers (D : nat) (aligned_coords : dict ndarray) : Prop :=
  ∀ c coords, (c, coords) ∈ aligned_coords →
    ndarray_wf coords ∧ (D ≤ ncols coords)%nat.


(** The matrix of one chain: the body of the loop over the chains, before
    the matrix is stored. *)
Definition chain_matrix (chain_df : DataFrame) (n_entities D : nat)
    (prefix : string) : result ndarray :=
  let mean_params := df_mean chain_df in
  for_range n_entities (λ i matrix,
    for_range D (λ d matrix,
      v ← series_get mean_params (param_name prefix i d);
      Ok (ndarray_set matrix i d v)) matrix) (np_zeros n_entities D).

Definition short_persons : list (Z * ndarray) :=
  [(1%Z, square_person); (2%Z, mk_ndarray 2 [[0; 0]])].
Definition narrow_person : list (Z * ndarray) := [(2%Z, mk_ndarray 0 [[]])].
Definition two_person : list (Z * ndarray) :=
  [(1%Z, mk_ndarray 1 [[30]]); (2%Z, mk_ndarray 1 [[10]])].
Definition two_person_swapped : list (Z * ndarray) :=
  [(2%Z, mk_ndarray 1 [[10]]); (1%Z, mk_ndarray 1 [[30]])].
Definition draws_of_chain (c : Z) : DataFrame :=
  mk_DataFrame [c; c]
    [("xi[1,1]"%string, [1; 3]);
     ("xi[1,2]"%string, [2; 4]);
     ("zt_centered[1,1]"%string, [5; 7]);
     ("zt_centered[1,2]"%string, [6; 8]);
     ("lp__"%string, [0; 0])].
Definition chain_one_aligned : DataFrame :=
  mk_DataFrame [1%Z; 1%Z]
    [("xi[1,1]"%string, [mean [1; 3]; mean [1; 3]]);
     ("xi[1,2]"%string, [mean [2; 4]; mean [2; 4]]);
     ("zt_centered[1,1]"%string, [mean [5; 7]; mean [5; 7]]);
     ("zt_centered[1,2]"%string, [mean [6; 8]; mean [6; 8]]);
     ("lp__"%string, [0; 0])].
Definition lnrt_stan_data : list (string * nat) :=
  [("N"%string, 2%nat); ("n_items"%string, 1%nat);
   ("n_persons"%string, 1%nat); ("D"%string, 2%nat)].

(** Chain 3 has no row in the sample table, and no person matrix among the
    two chains of the quarter turn. *)
Definition absent_person : list (Z * ndarray) :=
  (3%Z, mk_ndarray 1 [[7]]) :: sample_person.
Definition absent_item : list (Z * ndarray) :=
  (3%Z, mk_ndarray 1 [[8]]) :: sample_item.
Definition more_items : list (Z * ndarray) :=
  [(1%Z, square_item); (2%Z, turned_item); (3%Z, other_item)].

(** The rows of chain 2 of the sample table. *)
Definition chain_two_draws : DataFrame :=
  mk_DataFrame [2%Z]
    [("xi[1,1]"%string, [5]);
     ("zt_centered[1,1]"%string, [7]);
     ("lp__"%string, [7])].

(** * Properties *)

(** ** Dictionaries *)

Lemma dict_lookup_set_eq {V} (d : dict V) k v :
  dict_lookup (dict_set d k v) k = Some v.
Proof.
  induction d as [|[k' v'] d IH]; simpl.
  - by rewrite decide_True.
  - destruct (decide (k' = k)) as [->|Hne]; simpl.
    + by rewrite decide_True.
    + by rewrite decide_False.
Qed.

Lemma dict_lookup_set_ne {V} (d : dict V) k k' v :
  k ≠ k' → dict_lookup (dict_set d k v) k' = dict_lookup d k'.
Proof.
  intros Hne. induction d as [|[k0 v0] d IH]; simpl.
  - by rewrite decide_False.
  - destruct (decide (k0 = k)) as [->|Hne0]; simpl.
    + by rewrite !decide_False.
    + by rewrite IH.
Qed.

Lemma dict_lookup_is_Some {V} (d : dict V) k :
  is_Some (dict_lookup d k) ↔ k ∈ dict_keys d.
Proof.
  unfold dict_keys. induction d as [|[k' v'] d IH]; simpl.
  - split; [by intros [? ?] | by intros ?%elem_of_nil].
  - destruct (decide (k' = k)) as [->|Hne].
    + split; [intros _; left | eauto].
    + rewrite IH. split; [by right | by intros [?|?]%elem_of_cons].
Qed.

Lemma dict_lookup_None {V} (d : dict V) k :
  dict_lookup d k = None ↔ k ∉ dict_keys d.
Proof.
  rewrite <- dict_lookup_is_Some, eq_None_not_Some. done.
Qed.

Lemma dict_keys_set {V} (d : dict V) k v k' :
  k' ∈ dict_keys (dict_set d k v) ↔ k' = k ∨ k' ∈ dict_keys d.
Proof.
  rewrite <- !dict_lookup_is_Some.
  destruct (decide (k = k')) as [->|Hne].
  - rewrite dict_lookup_set_eq. split; eauto.
  - rewrite dict_lookup_set_ne by done. split; [eauto | intros [?|?]; congruence].
Qed.

(** ** Loops *)

Lemma for_each_st_inv {St A S} (P : S → Prop) (xs : list A)
    (body : A → S → prog St S) s st s' st' :
  P s →
  (∀ x t st1 t' st1', x ∈ xs → P t → body x t st1 = (Ok t', st1') → P t') →
  for_each_st xs body s st = (Ok s', st') → P s'.
Proof.
  revert s st. induction xs as [|x xs IH]; intros s st Hs Hbody; simpl.
  - unfold prog_ret. by intros [= <- <-].
  - unfold prog_bind. destruct (body x s st) as [[t|e] st1] eqn:Hx; [|done].
    apply IH.
    + eapply Hbody; [left | done | done].
    + intros y t0 st2 t' st2' Hy. apply Hbody. by right.
Qed.

Lemma for_each_st_raises {St A S} (xs : list A)
    (body : A → S → prog St S) x s st :
  x ∈ xs →
  (∀ t st1, ∃ e st1', body x t st1 = (Raise e, st1')) →
  ∃ e st', for_each_st xs body s st = (Raise e, st').
Proof.
  intros Hin Hx. revert s st.
  induction xs as [|y xs IH]; intros s st; [by apply elem_of_nil in Hin|].
  simpl. unfold prog_bind.
  apply elem_of_cons in Hin as [<-|Hin].
  - destruct (Hx s st) as (e & st1 & ->). eauto.
  - destruct (body y s st) as [[t|e] st1]; [by apply IH | eauto].
Qed.

Lemma for_each_st_ext {St A S} (xs : list A)
    (body1 body2 : A → S → prog St S) s st :
  (∀ x t st1, x ∈ xs → body1 x t st1 = body2 x t st1) →
  for_each_st xs body1 s st = for_each_st xs body2 s st.
Proof.
  revert s st. induction xs as [|x xs IH]; intros s st Hext; [done|].
  simpl. unfold prog_bind. rewrite Hext by left.
  destruct (body2 x s st) as [[t|e] st1]; [|done].
  apply IH. intros y t0 st2 Hy. apply Hext. by right.
Qed.

(** ** The aligner *)

Section align_facts.
Variable procrustes : ndarray → ndarray → result (ndarray * ndarray * R).

(** C8. When the reference chain is not a key of both the person map and
    the item map, [align_latent_spaces] raises the [KeyError] of the
    reference chain identifier (the source has no exception class of its
    own for this), returns no maps and prints nothing. *)
Theorem align_reference_chain_not_found person_coords item_coords ref_chain_id out :
  ref_chain_id ∉ dict_keys person_coords ∨ ref_chain_id ∉ dict_keys item_coords →
  align_latent_spaces procrustes person_coords item_coords ref_chain_id out
  = (Raise (KeyError (KInt ref_chain_id)), out).
Proof.
  intros H.
  unfold align_latent_spaces, prog_bind, lift, dict_get.
  destruct (dict_lookup person_coords ref_chain_id) as [p|] eqn:Hp; [|done].
  destruct H as [H|H].
  - apply dict_lookup_None in H. congruence.
  - apply dict_lookup_None in H. by rewrite H.
Qed.

(** C3. Whenever [align_latent_spaces] returns, the entries of the reference
    chain in the two output maps are the input matrices of the reference
    chain themselves: no translation, rotation, reflection or scaling. *)
Theorem align_reference_identity person_coords item_coords ref_chain_id
    out aligned_person aligned_item out' person_ref item_ref :
  dict_lookup person_coords ref_chain_id = Some person_ref →
  dict_lookup item_coords ref_chain_id = Some item_ref →
  align_latent_spaces procrustes person_coords item_coords ref_chain_id out
    = (Ok (aligned_person, aligned_item), out') →
  dict_lookup aligned_person ref_chain_id = Some person_ref ∧
  dict_lookup aligned_item ref_chain_id = Some item_ref.
Proof.
  intros Hp Hi. unfold align_latent_spaces, prog_bind, lift, dict_get.
  rewrite Hp, Hi.
  destruct (np_vstack person_ref item_ref) as [reference_matrix|e]; [|done].
  intros Hloop.
  eapply (for_each_st_inv
            (λ a, dict_lookup a.1 ref_chain_id = Some person_ref ∧
                  dict_lookup a.2 ref_chain_id = Some item_ref)) in Hloop.
  - done.
  - simpl. by rewrite !decide_True.
  - intros chain_id [ap ai] st1 [ap' ai'] st1' _ [Hap Hai]. simpl in *.
    unfold align_chain, prog_bind, lift, dict_get.
    destruct (decide (chain_id = ref_chain_id)) as [->|Hne].
    { unfold prog_ret. by intros [= <- <- <-]. }
    destruct (dict_lookup person_coords chain_id); [|done].
    destruct (dict_lookup item_coords chain_id); [|done].
    destruct (np_vstack _ _); [|done].
    destruct (procrustes _ _) as [fit|]; [|done].
    unfold print, prog_ret. intros [= <- <- <-].
    by rewrite !dict_lookup_set_ne.
Qed.
End align_facts.

Section align_chains.
Variable procrustes : ndarray → ndarray → result (ndarray * ndarray * R).


Lemma align_item_chains_ignored person_coords item_coords item_coords'
    ref_chain_id out :
  (∀ c, c ∈ dict_keys person_coords →
        dict_lookup item_coords' c = dict_lookup item_coords c) →
  dict_lookup item_coords' ref_chain_id = dict_lookup item_coords ref_chain_id →
  align_latent_spaces procrustes person_coords item_coords' ref_chain_id out
  = align_latent_spaces procrustes person_coords item_coords ref_chain_id out.
Proof.
  intros Hagree Href. unfold align_latent_spaces, prog_bind, lift, dict_get.
  destruct (dict_lookup person_coords ref_chain_id) as [pr|]; [|done].
  rewrite Href.
  destruct (dict_lookup item_coords ref_chain_id) as [ir|]; [|done].
  destruct (np_vstack pr ir) as [reference_matrix|e]; [|done].
  apply for_each_st_ext. intros c t st1 Hc.
  unfold align_chain, prog_bind, lift, dict_get. by rewrite Hagree.
Qed.

Lemma shape_rows_upto n a :
  shape (rows_upto n a) = (n `min` nrows a, ncols a)%nat.
Proof. unfold shape, rows_upto, nrows. simpl. by rewrite length_take. Qed.

Lemma shape_rows_from n a :
  shape (rows_from n a) = (nrows a - n, ncols a)%nat.
Proof. unfold shape, rows_from, nrows. simpl. by rewrite length_drop. Qed.

Lemma np_vstack_Ok a b m :
  np_vstack a b = Ok m →
  ncols a = ncols b ∧ ncols m = ncols a ∧ rows m = rows a ++ rows b.
Proof. unfold np_vstack. case_decide; [|done]. by intros [= <-]. Qed.

Lemma split_stack a b m :
  np_vstack a b = Ok m →
  rows_upto (nrows a) m = a ∧ rows (rows_from (nrows a) m) = rows b ∧
  ncols (rows_from (nrows a) m) = ncols b.
Proof.
  intros (Hab & Hm & Hr)%np_vstack_Ok. unfold rows_upto, rows_from, nrows. simpl.
  rewrite Hr, take_app_length, drop_app_length, Hm. destruct a. simpl in *. done.
Qed.



End align_chains.


(** ** Loops in the error monad *)

Lemma for_each_foldl {A S} (xs : list A) (body : A → S → result S)
    (f : S → A → S) s :
  (∀ x t, x ∈ xs → body x t = Ok (f t x)) →
  for_each xs body s = Ok (foldl f s xs).
Proof.
  revert s. induction xs as [|x xs IH]; intros s Hbody; [done|].
  simpl. rewrite Hbody by left. apply IH. intros y t Hy. apply Hbody. by right.
Qed.

Lemma for_each_raises {A S} (P : exception → Prop) (xs : list A)
    (body : A → S → result S) s :
  (∀ x t e, x ∈ xs → body x t = Raise e → P e) →
  (∃ x, x ∈ xs ∧ ∀ t, ∃ e, body x t = Raise e) →
  ∃ e, for_each xs body s = Raise e ∧ P e.
Proof.
  intros HP (x & Hx & Hraise). revert s.
  induction xs as [|y xs IH]; intros s; [by apply elem_of_nil in Hx|].
  simpl. destruct (body y s) as [t|e] eqn:Hy.
  - apply elem_of_cons in Hx as [->|Hx].
    + destruct (Hraise s) as [e He]. congruence.
    + apply IH; [|done]. intros z t' e Hz. apply HP. by right.
  - exists e. split; [done|]. eapply HP; [left|done].
Qed.

(** ** Building the matrix of means *)

Lemma foldl_insert_lookup (val : nat → R) (ds : list nat) (r : list R) j :
  foldl (λ r d, <[d := val d]> r) r ds !! j
  = if decide (j ∈ ds ∧ (j < length r)%nat) then Some (val j) else r !! j.
Proof.
  revert r. induction ds as [|d ds IH]; intros r; cbn [foldl].
  - case_decide as H; [|done]. destruct H as [?%elem_of_nil _]. done.
  - rewrite IH, length_insert.
    destruct (decide (j = d)) as [->|Hne].
    + destruct (decide (d < length r)%nat).
      * rewrite list_lookup_insert_eq by done.
        repeat case_decide; try done; exfalso; rewrite elem_of_cons in *; tauto.
      * rewrite list_insert_ge by lia.
        repeat case_decide; try done; exfalso; tauto.
    + rewrite list_lookup_insert_ne by done.
      repeat case_decide; try done; exfalso; rewrite elem_of_cons in *; tauto.
Qed.

Lemma foldl_insert_length (val : nat → R) (ds : list nat) (r : list R) :
  length (foldl (λ r d, <[d := val d]> r) r ds) = length r.
Proof.
  revert r. induction ds as [|d ds IH]; intros r; simpl; [done|].
  by rewrite IH, length_insert.
Qed.

Lemma foldl_ndarray_set_row (val : nat → R) (ds : list nat) (m : ndarray) i :
  foldl (λ m d, ndarray_set m i d (val d)) m ds
  = mk_ndarray (ncols m)
      (alter (λ r, foldl (λ r d, <[d := val d]> r) r ds) i (rows m)).
Proof.
  revert m. induction ds as [|d ds IH]; intros m; simpl.
  - destruct m as [c rs]. simpl. f_equal.
    symmetry. apply list_alter_id. done.
  - rewrite IH. unfold ndarray_set. simpl. f_equal.
    by rewrite list_alter_alter_eq.
Qed.

Lemma foldl_alter_lookup {A} (g : nat → A → A) (ks : list nat) (rs : list A) i :
  NoDup ks →
  foldl (λ rs i, alter (g i) i rs) rs ks !! i
  = if decide (i ∈ ks) then g i <$> rs !! i else rs !! i.
Proof.
  intros Hnd. revert rs. induction Hnd as [|k ks Hk Hnd IH]; intros rs; simpl.
  - done.
  - rewrite IH. destruct (decide (i ∈ ks)) as [Hi|Hi].
    + rewrite decide_True by by right.
      rewrite list_lookup_alter_ne; [done|]. intros ->. done.
    + destruct (decide (i = k)) as [->|Hne].
      * rewrite decide_True by by left. by rewrite list_lookup_alter_eq.
      * rewrite decide_False by by intros [?|?]%elem_of_cons.
        by rewrite list_lookup_alter_ne.
Qed.

Lemma foldl_alter_length {A} (g : nat → A → A) (ks : list nat) (rs : list A) :
  length (foldl (λ rs i, alter (g i) i rs) rs ks) = length rs.
Proof.
  revert rs. induction ks as [|k ks IH]; intros rs; simpl; [done|].
  by rewrite IH, length_alter.
Qed.

Lemma foldl_ndarray_rows (g : nat → list R → list R) (ks : list nat) m :
  foldl (λ m i, mk_ndarray (ncols m) (alter (g i) i (rows m))) m ks
  = mk_ndarray (ncols m) (foldl (λ rs i, alter (g i) i rs) (rows m) ks).
Proof.
  revert m. induction ks as [|k ks IH]; intros m; simpl; [by destruct m|].
  by rewrite IH.
Qed.

Lemma filled_shape n D val : shape (filled n D val) = (n, D).
Proof.
  unfold filled. rewrite foldl_ndarray_rows. unfold shape, nrows. simpl.
  by rewrite foldl_alter_length, length_replicate.
Qed.

Lemma filled_get n D val i d :
  (i < n)%nat → (d < D)%nat → ndarray_get (filled n D val) i d = Ok (val i d).
Proof.
  intros Hi Hd. unfold filled. rewrite foldl_ndarray_rows.
  unfold ndarray_get. simpl. rewrite decide_True by done.
  rewrite foldl_alter_lookup by apply NoDup_seq.
  rewrite decide_True by (apply elem_of_seq; lia).
  rewrite lookup_replicate_2 by done. simpl.
  rewrite foldl_insert_lookup, length_replicate.
  rewrite decide_True; [done|]. split; [apply elem_of_seq; lia|done].
Qed.

Lemma filled_wf n D val : ndarray_wf (filled n D val).
Proof.
  unfold filled, ndarray_wf. rewrite foldl_ndarray_rows. simpl.
  apply Forall_lookup. intros i r Hr.
  destruct (decide (i < n)%nat) as [Hi|Hi].
  - rewrite foldl_alter_lookup in Hr by apply NoDup_seq.
    rewrite decide_True in Hr by (apply elem_of_seq; lia).
    rewrite lookup_replicate_2 in Hr by done. simpl in Hr.
    injection Hr as <-. by rewrite foldl_insert_length, length_replicate.
  - apply lookup_lt_Some in Hr.
    rewrite foldl_alter_length, length_replicate in Hr. lia.
Qed.

Lemma fill_matrix_Ok (mean_params : list (string * R)) prefix n D val :
  (∀ i d, (i < n)%nat → (d < D)%nat →
          series_lookup mean_params (param_name prefix i d) = Some (val i d)) →
  for_range n (λ i matrix,
    for_range D (λ d matrix,
      v ← series_get mean_params (param_name prefix i d);
      Ok (ndarray_set matrix i d v)) matrix) (np_zeros n D)
  = Ok (filled n D val).
Proof.
  intros Hval. unfold for_range, filled.
  apply for_each_foldl. intros i m Hi%elem_of_seq.
  rewrite <- foldl_ndarray_set_row.
  apply for_each_foldl. intros d m' Hd%elem_of_seq.
  unfold series_get. rewrite Hval by lia. done.
Qed.

(** ** Strings *)

Lemma has_char_append c s t :
  has_char c (String.append s t) = has_char c s || has_char c t.
Proof. induction s as [|a s IH]; simpl; [done|]. by rewrite IH, orb_assoc. Qed.

Lemma param_name_has_bracket prefix i d :
  has_char "[" (param_name prefix i d) = true.
Proof.
  unfold param_name. rewrite has_char_append. simpl. apply orb_true_r.
Qed.

Lemma param_name_not_chain prefix i d : param_name prefix i d ≠ "chain__"%string.
Proof.
  intros H. pose proof (param_name_has_bracket prefix i d) as Hb.
  rewrite H in Hb. done.
Qed.

Lemma param_name_column df prefix i d :
  param_name prefix i d ∈ df_columns df ↔ param_name prefix i d ∈ (params df).*1.
Proof.
  unfold df_columns. rewrite elem_of_cons.
  pose proof (param_name_not_chain prefix i d). tauto.
Qed.

(** ** Labelled series *)

Lemma series_lookup_is_Some {V} (cols : list (string * V)) name :
  is_Some (series_lookup cols name) ↔ name ∈ cols.*1.
Proof.
  induction cols as [|[n v] cols IH]; simpl.
  - split; [by intros [? ?] | by intros ?%elem_of_nil].
  - destruct (decide (n = name)) as [->|Hne].
    + split; [intros _; left | eauto].
    + rewrite IH. split; [by right | by intros [?|?]%elem_of_cons].
Qed.

Lemma series_lookup_fmap {V W} (f : V → W) (cols : list (string * V)) name :
  series_lookup ((λ c, (c.1, f c.2)) <$> cols) name = f <$> series_lookup cols name.
Proof.
  induction cols as [|[n v] cols IH]; simpl; [done|].
  by destruct (decide (n = name)).
Qed.

Lemma series_lookup_chain_mean df mask name :
  series_lookup (df_mean (df_select df mask)) name
  = (λ xs, mean (select mask xs)) <$> series_lookup (params df) name.
Proof.
  unfold df_mean, df_select. simpl. rewrite !series_lookup_fmap.
  by destruct (series_lookup (params df) name).
Qed.

(** ** Chains of a table *)

Lemma elem_of_unique xs x : x ∈ unique xs ↔ x ∈ xs.
Proof.
  induction xs as [|y xs IH]; simpl; [done|].
  rewrite !elem_of_cons, list_elem_of_filter, IH.
  destruct (decide (x = y)); (intuition congruence).
Qed.

Lemma NoDup_unique xs : NoDup (unique xs).
Proof.
  induction xs as [|y xs IH]; simpl; [constructor|].
  constructor.
  - rewrite list_elem_of_filter. (intuition congruence).
  - by apply NoDup_filter.
Qed.

Lemma select_chain_mask df c xs :
  select (chain_mask df c) xs = chain_values df c xs.
Proof.
  unfold chain_mask, chain_values. generalize (chain__ df) as cs.
  intros cs. revert xs. induction cs as [|c' cs IH]; intros [|x xs]; simpl; try done.
  rewrite filter_cons. simpl. rewrite IH.
  destruct (decide (c' = c)) as [->|Hne].
  - by rewrite bool_decide_eq_true_2.
  - by rewrite bool_decide_eq_false_2.
Qed.





(** ** The dictionary of chain means *)

Lemma foldl_dict_set_lookup {V} (g : Z → V) (ks : list Z) (m : dict V) c :
  dict_lookup (foldl (λ m c, dict_set m c (g c)) m ks) c
  = if decide (c ∈ ks) then Some (g c) else dict_lookup m c.
Proof.
  revert m. induction ks as [|k ks IH]; intros m; cbn [foldl].
  - case_decide as H; [by apply elem_of_nil in H|done].
  - rewrite IH. destruct (decide (c = k)) as [->|Hne].
    + rewrite dict_lookup_set_eq.
      repeat case_decide; try done; exfalso; rewrite elem_of_cons in *; tauto.
    + rewrite dict_lookup_set_ne by done.
      repeat case_decide; try done; exfalso; rewrite elem_of_cons in *; tauto.
Qed.

Lemma dict_keys_set_fresh {V} (m : dict V) k v :
  k ∉ dict_keys m → dict_keys (dict_set m k v) = dict_keys m ++ [k].
Proof.
  unfold dict_keys. induction m as [|[k' v'] m IH]; [done|].
  intros Hk. cbn [dict_set].
  rewrite decide_False by (intros ->; apply Hk; left).
  rewrite !fmap_cons, IH; [done|]. intros ?. apply Hk. by right.
Qed.

Lemma foldl_dict_set_keys {V} (g : Z → V) (ks : list Z) (m : dict V) :
  NoDup (dict_keys m ++ ks) →
  dict_keys (foldl (λ m c, dict_set m c (g c)) m ks) = dict_keys m ++ ks.
Proof.
  revert m. induction ks as [|k ks IH]; intros m Hnd; cbn [foldl].
  - by rewrite app_nil_r.
  - rewrite IH.
    + rewrite dict_keys_set_fresh, <- app_assoc; [done|].
      apply NoDup_app in Hnd as (_ & Hd & _). intros Hk. apply (Hd _ Hk). left.
    + rewrite dict_keys_set_fresh, <- app_assoc; [done|].
      apply NoDup_app in Hnd as (_ & Hd & _). intros Hk. apply (Hd _ Hk). left.
Qed.

Lemma extract_Ok df n D prefix :
  (∀ i d, (i < n)%nat → (d < D)%nat → param_name prefix i d ∈ df_columns df) →
  extract_latent_coordinates df n D prefix
  = Ok (foldl (λ means c, dict_set means c (filled n D (chain_mean df prefix c)))
              [] (unique (chain__ df))).
Proof.
  intros Hcols. unfold extract_latent_coordinates.
  apply for_each_foldl. intros c means _.
  erewrite fill_matrix_Ok; [done|].
  intros i d Hi Hd. rewrite series_lookup_chain_mean.
  specialize (Hcols i d Hi Hd).
  apply param_name_column, series_lookup_is_Some in Hcols as [xs Hxs].
  unfold chain_mean. rewrite Hxs. simpl. by rewrite select_chain_mask.
Qed.


Lemma for_each_Raise_inv {A S} (xs : list A) (body : A → S → result S) s e :
  for_each xs body s = Raise e → ∃ x t, x ∈ xs ∧ body x t = Raise e.
Proof.
  revert s. induction xs as [|x xs IH]; intros s; simpl; [done|].
  destruct (body x s) as [t|e'] eqn:Hx.
  - intros (y & t' & Hy & Hraise)%IH. exists y, t'. split; [by right|done].
  - intros [= ->]. exists x, s. split; [left|done].
Qed.

Lemma for_each_raises_some {A S} (xs : list A) (body : A → S → result S) x s :
  x ∈ xs → (∀ t, ∃ e, body x t = Raise e) → ∃ e, for_each xs body s = Raise e.
Proof.
  intros Hx Hraise.
  destruct (for_each_raises (λ _, True) xs body s) as (e & He & _); eauto.
Qed.

Lemma unique_nonempty xs : xs ≠ [] → ∃ c, c ∈ unique xs.
Proof. destruct xs as [|x xs]; [done|]. intros _. exists x. simpl. left. Qed.

(** C7, as the code has it. For a draws table with at least one row, if
    some required column [prefix[i+1,d+1]] is absent then
    [extract_latent_coordinates] raises the [KeyError] of a required absent
    column and returns no map. The lookup happens inside the loop over the
    chains, so a table without rows is not checked
    ([extract_empty_table_accepted]). *)
Theorem extract_missing_parameter df n D prefix :
  df_len df ≠ 0%nat →
  (∃ i d, (i < n)%nat ∧ (d < D)%nat ∧ param_name prefix i d ∉ df_columns df) →
  ∃ i d, (i < n)%nat ∧ (d < D)%nat ∧
    (param_name prefix i d ∉ df_columns df) ∧
    extract_latent_coordinates df n D prefix
    = Raise (KeyError (KStr (param_name prefix i d))).
Proof.
  intros Hrows (i0 & d0 & Hi0 & Hd0 & Habsent).
  assert (∀ c, series_lookup (df_mean (df_select df (chain_mask df c)))
                 (param_name prefix i0 d0) = None) as Hnone.
  { intros c. rewrite series_lookup_chain_mean.
    rewrite param_name_column, <- series_lookup_is_Some in Habsent.
    destruct (series_lookup (params df) _); [|done]. exfalso. eauto. }
  destruct (unique_nonempty (chain__ df)) as [c0 Hc0].
  { unfold df_len in Hrows. by destruct (chain__ df). }
  assert (∃ e, extract_latent_coordinates df n D prefix = Raise e) as [e He].
  { unfold extract_latent_coordinates.
    eapply for_each_raises_some; [exact Hc0|]. intros means.
    assert (∃ e, for_range n (λ i matrix,
      for_range D (λ d matrix,
        v ← series_get (df_mean (df_select df (chain_mask df c0)))
                       (param_name prefix i d);
        Ok (ndarray_set matrix i d v)) matrix) (np_zeros n D) = Raise e)
      as [e He].
    { eapply for_each_raises_some.
      - apply elem_of_seq. split; [lia|exact Hi0].
      - intros m. eapply for_each_raises_some.
        + apply elem_of_seq. split; [lia|exact Hd0].
        + intros m'. unfold series_get. rewrite Hnone. simpl. eauto. }
    rewrite He. simpl. eauto. }
  rewrite He. unfold extract_latent_coordinates in He.
  pose proof He as Hwhich.
  apply for_each_Raise_inv in Hwhich as (c & means & _ & Hwhich).
  simpl in Hwhich.
  destruct (for_range n _ _) as [m|e'] eqn:Hfill; [done|].
  simpl in Hwhich. injection Hwhich as ->.
  apply for_each_Raise_inv in Hfill as (i & m & Hi%elem_of_seq & Hfill).
  apply for_each_Raise_inv in Hfill as (d & m' & Hd%elem_of_seq & Hfill).
  unfold series_get in Hfill.
  destruct (series_lookup _ _) eqn:Hlook; [done|].
  simpl in Hfill. injection Hfill as <-.
  exists i, d. split_and!; [lia|lia| |done].
  rewrite param_name_column, <- series_lookup_is_Some.
  rewrite series_lookup_chain_mean in Hlook.
  destruct (series_lookup (params df) _); [done|]. by intros [? ?].
Qed.

(** C7, counterexample. The table without rows and without the column
    [xi[1,1]] is accepted: the result is the empty map, not an error. *)
Lemma extract_empty_table_accepted :
  (param_name "xi" 0 0 ∉ df_columns (mk_DataFrame [] [])) ∧
  extract_latent_coordinates (mk_DataFrame [] []) 1 1 "xi" = Ok [].
Proof.
  split; [|reflexivity].
  intros [?|?%elem_of_nil]%elem_of_cons; done.
Qed.

(** ** Program logic *)

Lemma preserves_ret {St A} (I : St → Prop) (a : A) : preserves I (prog_ret a).
Proof. by intros st. Qed.

Lemma preserves_lift {St A} (I : St → Prop) (r : result A) : preserves I (lift r).
Proof. by intros st. Qed.

Lemma preserves_bind {St A B} (I : St → Prop) (m : prog St A) (f : A → prog St B) :
  preserves I m → (∀ a, preserves I (f a)) → preserves I (prog_bind m f).
Proof.
  intros Hm Hf st Hst. unfold prog_bind. specialize (Hm st Hst).
  destruct (m st) as [[a|e] st1]; [by apply Hf|done].
Qed.

Lemma preserves_for_each {St A S} (I : St → Prop) (xs : list A)
    (body : A → S → prog St S) s :
  (∀ x t, x ∈ xs → preserves I (body x t)) → preserves I (for_each_st xs body s).
Proof.
  revert s. induction xs as [|x xs IH]; intros s Hbody; simpl.
  - apply preserves_ret.
  - apply preserves_bind; [apply Hbody; left|].
    intros t. apply IH. intros y t' Hy. apply Hbody. by right.
Qed.

Lemma triple_ret {St A} (P : St → Prop) (Q : A → St → Prop) a :
  (∀ st, P st → Q a st) → triple P (prog_ret a) Q.
Proof. intros H st Hst. exists a, st. eauto. Qed.

Lemma triple_bind {St A B} (P : St → Prop) (R : A → St → Prop)
    (Q : B → St → Prop) (m : prog St A) (f : A → prog St B) :
  triple P m R → (∀ a, triple (R a) (f a) Q) → triple P (prog_bind m f) Q.
Proof.
  intros Hm Hf st Hst. unfold prog_bind.
  destruct (Hm st Hst) as (a & st1 & -> & HR). by apply Hf.
Qed.

Lemma triple_weaken {St A} (P P' : St → Prop) (Q Q' : A → St → Prop) m :
  triple P' m Q' → (∀ st, P st → P' st) → (∀ a st, Q' a st → Q a st) →
  triple P m Q.
Proof.
  intros Hm HP HQ st Hst. destruct (Hm st (HP st Hst)) as (a & st' & ? & ?).
  eauto.
Qed.

(** A loop establishes [I xs] when each iteration extends the prefix. *)
Lemma triple_for_each {St A S} (I : list A → S → St → Prop) (xs : list A)
    (body : A → S → prog St S) s :
  (∀ pre x post t, xs = pre ++ x :: post →
     triple (I pre t) (body x t) (I (pre ++ [x]))) →
  triple (I [] s) (for_each_st xs body s) (I xs).
Proof.
  intros Hbody.
  cut (∀ post pre s, xs = pre ++ post →
         triple (I pre s) (for_each_st post body s) (I xs)).
  { intros H. by apply (H xs []). }
  induction post as [|x post IH]; intros pre s' Hxs; simpl.
  - apply triple_ret. intros st. by rewrite Hxs, app_nil_r.
  - eapply triple_bind; [by eapply Hbody|].
    intros t. apply IH. by rewrite <- app_assoc.
Qed.

(** ** Assignments to a column *)

Lemma assign_where_length mask v xs : length (assign_where mask v xs) = length xs.
Proof.
  revert xs. induction mask as [|b mask IH]; intros [|x xs]; simpl; try done.
  by rewrite IH.
Qed.

Lemma assign_where_lookup mask v xs row :
  assign_where mask v xs !! row
  = (λ x, if decide (mask !! row = Some true) then v else x) <$> xs !! row.
Proof.
  revert xs row. induction mask as [|b mask IH]; intros xs row.
  - replace (assign_where [] v xs) with xs by by destruct xs.
    destruct (xs !! row); [|done]. cbn. by case_decide.
  - destruct xs as [|x xs]; [done|]. destruct row as [|row].
    + cbn. destruct b; by case_decide.
    + cbn. by rewrite IH.
Qed.

Lemma chain_mask_lookup df c row :
  chain_mask df c !! row = Some true ↔ chain__ df !! row = Some c.
Proof.
  unfold chain_mask. rewrite list_lookup_fmap.
  destruct (chain__ df !! row) as [c'|]; simpl; [|done].
  split.
  - intros [= H%bool_decide_eq_true]. by subst.
  - intros [= ->]. by rewrite bool_decide_eq_true_2.
Qed.

Lemma series_lookup_fmap_label {V} (g : string * V → string * V)
    (cols : list (string * V)) name :
  (∀ c, (g c).1 = c.1) →
  series_lookup (g <$> cols) name
  = (λ v, (g (name, v)).2) <$> series_lookup cols name.
Proof.
  intros Hg. induction cols as [|[n col] cols IH]; [done|].
  rewrite fmap_cons. specialize (Hg (n, col)).
  destruct (g (n, col)) as [n' col'] eqn:Hgc. simpl in Hg. subst n'.
  cbn [series_lookup]. destruct (decide (n = name)) as [->|Hne]; [|done].
  cbn. by rewrite Hgc.
Qed.

Lemma series_lookup_loc_assign df mask name v name' :
  series_lookup (params (loc_assign df mask name v)) name'
  = (λ col, if decide (name' = name) then assign_where mask v col else col)
      <$> series_lookup (params df) name'.
Proof.
  unfold loc_assign. cbn [params].
  rewrite series_lookup_fmap_label by (intros c; by case_decide).
  destruct (series_lookup (params df) name'); [|done].
  cbn. f_equal. by case_decide.
Qed.

Lemma cell_loc_assign df mask name v name' row :
  cell (loc_assign df mask name v) name' row
  = (λ x, if decide (name' = name ∧ mask !! row = Some true) then v else x)
      <$> cell df name' row.
Proof.
  unfold cell. rewrite series_lookup_loc_assign.
  destruct (series_lookup (params df) name') as [col|]; simpl; [|done].
  destruct (decide (name' = name)) as [->|Hne].
  - rewrite assign_where_lookup. destruct (col !! row); simpl; [|done].
    f_equal. repeat case_decide; try done; exfalso; tauto.
  - destruct (col !! row); simpl; [|done].
    f_equal. rewrite decide_False; [done|tauto].
Qed.

Lemma same_schema_refl df : same_schema df df.
Proof. split; [done|]. by apply Forall_Forall2_diag, Forall_forall. Qed.

Lemma same_schema_loc_assign df0 df mask name v :
  same_schema df0 df → same_schema df0 (loc_assign df mask name v).
Proof.
  intros [Hc Hp]. split; [done|]. unfold loc_assign. simpl.
  induction Hp as [|c0 c cols0 cols [Hl Hn] _ IH]; simpl; constructor; [|done].
  destruct (decide (c.1 = name)); simpl; [|done].
  by rewrite assign_where_length.
Qed.

Lemma same_schema_columns df0 df :
  same_schema df0 df → df_columns df = df_columns df0 ∧ df_len df = df_len df0.
Proof.
  intros [Hc Hp]. unfold df_columns, df_len. rewrite Hc. split; [|done]. f_equal.
  induction Hp as [|c0 c cols0 cols [Hl Hn] _ IH]; [done|].
  rewrite !fmap_cons. by rewrite Hl, IH.
Qed.

Lemma same_schema_cell df0 df name row :
  same_schema df0 df → is_Some (cell df name row) ↔ is_Some (cell df0 name row).
Proof.
  intros [_ Hp]. unfold cell.
  induction Hp as [|[n0 col0] [n col] cols0 cols [Hl Hn] _ IH]; simpl in *; [done|].
  subst n. destruct (decide (n0 = name)); [|done].
  rewrite !lookup_lt_is_Some. by rewrite Hn.
Qed.

Lemma same_schema_column_eq df0 df name :
  same_schema df0 df →
  (∀ row, cell df name row = cell df0 name row) →
  series_lookup (params df) name = series_lookup (params df0) name.
Proof.
  intros [_ Hp]. unfold cell.
  induction Hp as [|[n0 col0] [n col] cols0 cols [Hl Hn] _ IH]; simpl in *; [done|].
  subst n. destruct (decide (n0 = name)); [|done].
  intros Hcell. f_equal. by apply list_eq.
Qed.

Lemma preserves_bind_val {St A B} (I : St → Prop) (R : A → Prop)
    (m : prog St A) (f : A → prog St B) :
  (∀ st, I st → I (m st).2 ∧ ∀ a, (m st).1 = Ok a → R a) →
  (∀ a, R a → preserves I (f a)) → preserves I (prog_bind m f).
Proof.
  intros Hm Hf st Hst. unfold prog_bind. destruct (Hm st Hst) as [HI HR].
  destruct (m st) as [[a|e] st1]; [|done]. simpl in *. apply Hf; eauto.
Qed.

(** ** The store *)

Lemma deref_top h0 df : deref (h0 ++ [df]) (length h0) = df.
Proof. unfold deref. by rewrite list_lookup_middle. Qed.

Lemma insert_top h0 (df df' : DataFrame) :
  <[length h0 := df']> (h0 ++ [df]) = h0 ++ [df'].
Proof. by rewrite insert_app_r_alt, Nat.sub_diag by lia. Qed.

Lemma chain_mask_schema df0 df c :
  same_schema df0 df → chain_mask df c = chain_mask df0 c.
Proof. intros [Hc _]. unfold chain_mask. by rewrite Hc. Qed.

Lemma rewritten_loc_assign T df0 df c name v :
  rewritten T df0 df → T c name v →
  rewritten T df0 (loc_assign df (chain_mask df0 c) name v).
Proof.
  intros [Hs Hcells] HT. split; [by apply same_schema_loc_assign|].
  intros name' row x. rewrite cell_loc_assign.
  destruct (cell df name' row) as [y|] eqn:Hy; [|done]. simpl.
  case_decide as Hw.
  - destruct Hw as [-> Hmask%chain_mask_lookup]. intros [= <-]. eauto.
  - intros [= <-]. eauto.
Qed.

Lemma replace_coordinates_rewritten T h0 df0 prefix aligned_coords D :
  (∀ c name v, target prefix aligned_coords D c name v → T c name v) →
  preserves (at_top h0 (rewritten T df0))
            (replace_coordinates (length h0) prefix aligned_coords D).
Proof.
  intros HT. unfold replace_coordinates.
  apply preserves_for_each. intros [c coords] [] Hin. simpl.
  apply (preserves_bind_val _ (λ mask, mask = chain_mask df0 c)).
  { intros st (df & -> & Hdf). split; [by exists df|].
    unfold df_chain_eq. simpl. intros mask [= <-].
    rewrite deref_top. apply chain_mask_schema, Hdf. }
  intros mask ->. unfold for_range_st.
  apply preserves_for_each. intros i [] Hi%elem_of_seq.
  apply preserves_for_each. intros d [] Hd%elem_of_seq.
  apply (preserves_bind_val _ (λ _, True)).
  { intros st Hst. done. }
  intros [] _; [|apply preserves_ret].
  apply (preserves_bind_val _ (λ v, ndarray_get coords i d = Ok v)).
  { intros st Hst. unfold lift. simpl. done. }
  intros v Hv st (df & -> & Hdf). unfold df_loc_set. simpl.
  rewrite deref_top, insert_top. eexists. split; [done|].
  apply rewritten_loc_assign; [done|]. apply HT.
  exists coords, i, d. split_and!; try done; lia.
Qed.

Lemma rewrite_rewritten h original_draws df0 aligned_person aligned_item D
    res h' :
  h !! original_draws = Some df0 →
  create_aligned_draws_dataframe original_draws aligned_person aligned_item D h
    = (res, h') →
  ∃ df,
    h' = h ++ [df] ∧
    rewritten (λ c name v, target "xi" aligned_person D c name v ∨
                           target "zt_centered" aligned_item D c name v) df0 df ∧
    ∀ r, res = Ok r → r = length h.
Proof.
  intros Hh. set (T := λ c name v, _ ∨ _).
  unfold create_aligned_draws_dataframe, prog_bind, df_copy, deref.
  rewrite Hh. simpl.
  assert (at_top h (rewritten T df0) (h ++ [df0])) as H0.
  { exists df0. split; [done|]. split; [apply same_schema_refl|eauto]. }
  pose proof (replace_coordinates_rewritten T h df0 "xi" aligned_person D) as H1.
  pose proof (replace_coordinates_rewritten T h df0 "zt_centered" aligned_item D) as H2.
  specialize (H1 ltac:(by left) _ H0).
  destruct (replace_coordinates (length h) "xi" aligned_person D (h ++ [df0]))
    as [[[]|e] h1]; simpl in H1.
  - specialize (H2 ltac:(by right) _ H1).
    destruct (replace_coordinates (length h) "zt_centered" aligned_item D h1)
      as [[[]|e] h2]; simpl in H2.
    + intros [= <- <-]. destruct H2 as (df & -> & Hdf). exists df.
      split_and!; try done. by intros r [= <-].
    + intros [= <- <-]. destruct H2 as (df & -> & Hdf). exists df.
      split_and!; done.
  - intros [= <- <-]. destruct H1 as (df & -> & Hdf). exists df.
    split_and!; done.
Qed.

(** C5. Whatever [create_aligned_draws_dataframe] does (return or raise),
    the store it leaves is the store it found followed by one new table: the
    caller's table and every other table are unchanged. When it returns, the
    result is the reference of the new table, different from the input
    reference. The new table has the row count, the column labels and the
    chain column of the input, and every column whose label is neither
    [xi[i,d]] nor [zt_centered[i,d]] is equal to the input column. *)
Theorem rewrite_copy_on_write h original_draws df0 aligned_person aligned_item D
    res h' :
  h !! original_draws = Some df0 →
  create_aligned_draws_dataframe original_draws aligned_person aligned_item D h
    = (res, h') →
  ∃ df,
    h' = h ++ [df] ∧
    h' !! original_draws = Some df0 ∧
    (∀ r, res = Ok r → r = length h ∧ r ≠ original_draws ∧ h' !! r = Some df) ∧
    df_len df = df_len df0 ∧
    df_columns df = df_columns df0 ∧
    chain__ df = chain__ df0 ∧
    ∀ name,
      (∀ i d, name ≠ param_name "xi" i d) →
      (∀ i d, name ≠ param_name "zt_centered" i d) →
      series_lookup (params df) name = series_lookup (params df0) name.
Proof.
  intros Hh Hrun.
  destruct (rewrite_rewritten _ _ _ _ _ _ _ _ Hh Hrun) as (df & -> & [Hs Hcells] & Hr).
  pose proof (lookup_lt_Some _ _ _ Hh) as Hlt.
  exists df. split_and!; try done.
  - by rewrite lookup_app_l.
  - intros r ->%Hr. split_and!; [done|lia|]. by rewrite list_lookup_middle.
  - by apply same_schema_columns.
  - by apply same_schema_columns.
  - apply Hs.
  - intros name Hxi Hzt. apply same_schema_column_eq; [done|].
    intros row. destruct (cell df name row) as [x|] eqn:Hx.
    + apply Hcells in Hx as [Hx|(c & _ & [Ht|Ht])]; [done| |].
      * destruct Ht as (coords & i & d & _ & _ & _ & -> & _). by destruct (Hxi i d).
      * destruct Ht as (coords & i & d & _ & _ & _ & -> & _). by destruct (Hzt i d).
    + symmetry. apply eq_None_not_Some. rewrite <- (same_schema_cell df0 df) by done.
      rewrite Hx. by intros [? ?].
Qed.

(** C10. A row whose chain is a key of neither aligned map has, in the
    returned table, the cells of the input table in every column, the
    coordinate columns included. *)
Theorem rewrite_other_chains_untouched h original_draws df0
    aligned_person aligned_item D r h' row c :
  h !! original_draws = Some df0 →
  create_aligned_draws_dataframe original_draws aligned_person aligned_item D h
    = (Ok r, h') →
  chain__ df0 !! row = Some c →
  c ∉ dict_keys aligned_person → c ∉ dict_keys aligned_item →
  ∃ df, h' !! r = Some df ∧
        chain__ df !! row = Some c ∧
        ∀ name, cell df name row = cell df0 name row.
Proof.
  intros Hh Hrun Hrow Hp Hi.
  destruct (rewrite_rewritten _ _ _ _ _ _ _ _ Hh Hrun) as (df & -> & [Hs Hcells] & Hr).
  rewrite (Hr r eq_refl). exists df. split_and!.
  - by rewrite list_lookup_middle.
  - destruct Hs as [-> _]. done.
  - intros name. destruct (cell df name row) as [x|] eqn:Hx.
    + apply Hcells in Hx as [Hx|(c' & Hc' & Ht)]; [done|].
      assert (c' = c) as -> by congruence. exfalso.
      destruct Ht as [Ht|Ht]; destruct Ht as (coords & _ & _ & Hin & _).
      * apply Hp. unfold dict_keys. apply list_elem_of_fmap. by exists (c, coords).
      * apply Hi. unfold dict_keys. apply list_elem_of_fmap. by exists (c, coords).
    + symmetry. apply eq_None_not_Some. rewrite <- (same_schema_cell df0 df) by done.
      rewrite Hx. by intros [? ?].
Qed.

(** ** Column labels determine their indices *)

Lemma append_inj_r (p s t : string) :
  String.append p s = String.append p t → s = t.
Proof. induction p as [|a p IH]; simpl; [done|]. intros [= H]. by apply IH. Qed.

Lemma append_sep_inj (c : ascii) (s s' t t' : string) :
  has_char c s = false → has_char c s' = false →
  String.append s (String c t) = String.append s' (String c t') →
  s = s' ∧ t = t'.
Proof.
  revert s'. induction s as [|a s IH]; intros [|a' s']; simpl.
  - intros _ _ [= ->]. done.
  - intros _ [Ha _]%orb_false_elim [= <- _].
    by rewrite bool_decide_eq_true_2 in Ha.
  - intros [Ha _]%orb_false_elim _ [= -> _].
    by rewrite bool_decide_eq_true_2 in Ha.
  - intros [_ Hs]%orb_false_elim [_ Hs']%orb_false_elim [= -> Heq].
    destruct (IH s' Hs Hs' Heq) as [-> ->]. done.
Qed.

Lemma string_of_uint_digits (c : ascii) (u : uint) :
  c ≠ "0"%char → c ≠ "1"%char → c ≠ "2"%char → c ≠ "3"%char → c ≠ "4"%char →
  c ≠ "5"%char → c ≠ "6"%char → c ≠ "7"%char → c ≠ "8"%char → c ≠ "9"%char →
  has_char c (NilEmpty.string_of_uint u) = false.
Proof.
  intros. induction u; simpl; [done|..];
    rewrite bool_decide_eq_false_2 by (intros ?; congruence); done.
Qed.

Lemma str_no_comma n : has_char "," (str n) = false.
Proof. apply string_of_uint_digits; done. Qed.

Lemma str_no_bracket n : has_char "]" (str n) = false.
Proof. apply string_of_uint_digits; done. Qed.

Lemma str_inj n n' : str n = str n' → n = n'.
Proof.
  unfold str. intros H. apply Unsigned.to_uint_inj.
  apply (f_equal NilEmpty.uint_of_string) in H.
  rewrite !NilEmpty.usu in H. by injection H.
Qed.

Lemma param_name_inj prefix i d i' d' :
  param_name prefix i d = param_name prefix i' d' → i = i' ∧ d = d'.
Proof.
  unfold param_name. intros H%append_inj_r. simpl in H. injection H as H.
  apply append_sep_inj in H as [Hi H]; [|apply str_no_comma..].
  change "]"%string with (String "]" EmptyString) in H.
  apply append_sep_inj in H as [Hd _]; [|apply str_no_bracket..].
  apply str_inj in Hi, Hd. lia.
Qed.

Lemma param_name_families i d i' d' :
  param_name "xi" i d ≠ param_name "zt_centered" i' d'.
Proof. unfold param_name. simpl. discriminate. Qed.

(** ** Entries of a dictionary *)

Lemma dict_lookup_elem_of {V} (d : dict V) k v :
  dict_lookup d k = Some v → (k, v) ∈ d.
Proof.
  induction d as [|[k' v'] d IH]; simpl; [done|].
  destruct (decide (k' = k)) as [->|Hne].
  - intros [= ->]. left.
  - intros H. right. by apply IH.
Qed.

Lemma dict_elem_of_lookup {V} (d : dict V) k v :
  NoDup (dict_keys d) → (k, v) ∈ d → dict_lookup d k = Some v.
Proof.
  unfold dict_keys. induction d as [|[k' v'] d IH]; simpl.
  - by intros _ ?%elem_of_nil.
  - intros [Hk Hnd]%NoDup_cons [[= -> ->]|Hin]%elem_of_cons.
    + by rewrite decide_True.
    + rewrite decide_False; [by apply IH|].
      intros ->. apply Hk. apply list_elem_of_fmap. by exists (k, v).
Qed.

Section replace.
Variables (T : Z → string → R → Prop) (h0 : heap) (df0 : DataFrame).
Variables (prefix : string) (aligned_coords : dict ndarray) (D : nat).
Hypothesis HT :
    ∀ c name v, target prefix aligned_coords D c name v → T c name v.
Hypothesis Hidx :
    ∀ c coords i d,
      (c, coords) ∈ aligned_coords → (i < nrows coords)%nat → (d < D)%nat →
      param_name prefix i d ∈ df_columns df0 →
      ∃ v, ndarray_get coords i d = Ok v.

Lemma assigned_all_loc_assign E df c name v :
  assigned_all T df0 E df → T c name v →
  assigned_all T df0 (λ c' name', E c' name' ∨ (c' = c ∧ name' = name))
               (loc_assign df (chain_mask df0 c) name v).
Proof.
  intros [Hs HE] Hv. split; [by apply same_schema_loc_assign|].
  intros c' name' Hin row x0 Hrow Hx0. rewrite cell_loc_assign.
  destruct (decide (name' = name ∧ chain_mask df0 c !! row = Some true))
    as [[-> Hmask%chain_mask_lookup]|Hn].
  - assert (c' = c) as -> by congruence.
    destruct (proj2 (same_schema_cell df0 df name row Hs)) as [y Hy]; [eauto|].
    rewrite Hy. simpl. eauto.
  - destruct Hin as [Hin|[-> ->]].
    + destruct (HE c' name' Hin row x0 Hrow Hx0) as (w & Hw & ->). simpl. eauto.
    + exfalso. apply Hn. split; [done|]. by apply chain_mask_lookup.
Qed.

Lemma assigned_absent df c name :
  name ∉ df_columns df0 → assigned T df0 df c name.
Proof.
  intros Hname row x0 _. unfold cell.
  destruct (series_lookup (params df0) name) eqn:Hl; [|done].
  exfalso. apply Hname. right. apply series_lookup_is_Some. eauto.
Qed.

Lemma assigned_all_mono E E' df :
  (∀ c name, E' c name → E c name ∨ name ∉ df_columns df0) →
  assigned_all T df0 E df → assigned_all T df0 E' df.
Proof.
  intros Hsub [Hs HE]. split; [done|]. intros c name [?|?]%Hsub; [by apply HE|].
  by apply assigned_absent.
Qed.

Lemma replace_coordinates_assigns E :
  triple (at_top h0 (assigned_all T df0 E))
    (replace_coordinates (length h0) prefix aligned_coords D)
    (λ _, at_top h0 (assigned_all T df0 (λ c name,
       E c name ∨
       ∃ coords i d, (c, coords) ∈ aligned_coords ∧ (i < nrows coords)%nat ∧
                     (d < D)%nat ∧ name = param_name prefix i d))).
Proof.
  unfold replace_coordinates.
  eapply triple_weaken;
    [apply (triple_for_each (λ pre _, at_top h0 (assigned_all T df0 (λ c name,
       E c name ∨
       ∃ coords i d, (c, coords) ∈ pre ∧ (i < nrows coords)%nat ∧
                     (d < D)%nat ∧ name = param_name prefix i d))))| |].
  2:{ intros st (df & -> & Hdf). exists df. split; [done|].
      eapply assigned_all_mono; [|exact Hdf].
      intros c name [?|(? & ? & ? & []%elem_of_nil & _)]. by left. }
  2:{ by intros [] st. }
  intros pre [c coords] post [] Hxs. simpl.
  assert ((c, coords) ∈ aligned_coords) as Hin.
  { rewrite Hxs. apply elem_of_app. right. left. }
  set (E1 := λ c' name, E c' name ∨
       ∃ coords' i d, (c', coords') ∈ pre ∧ (i < nrows coords')%nat ∧
                      (d < D)%nat ∧ name = param_name prefix i d).
  eapply (triple_bind _ (λ mask st, mask = chain_mask df0 c ∧
                                     at_top h0 (assigned_all T df0 E1) st)).
  { intros st (df & -> & Hdf). eexists _, _. split; [done|].
    rewrite deref_top. split; [apply chain_mask_schema, Hdf|by exists df]. }
  intros mask. unfold for_range_st.
  eapply triple_weaken;
    [apply (triple_for_each (λ pre_i _ st, mask = chain_mask df0 c ∧
       at_top h0 (assigned_all T df0 (λ c' name,
         E1 c' name ∨
         (c' = c ∧ ∃ i d, i ∈ pre_i ∧ (d < D)%nat ∧
                          name = param_name prefix i d))) st))| |].
  2:{ intros st (-> & df & -> & Hdf). split; [done|]. exists df. split; [done|].
      eapply assigned_all_mono; [|exact Hdf].
      intros c' name [?|(_ & ? & ? & []%elem_of_nil & _)]. by left. }
  2:{ intros [] st (-> & df & -> & Hdf). exists df. split; [done|].
      eapply assigned_all_mono; [|exact Hdf].
      intros c' name [?|(coords' & i & d & Hc & Hi & Hd & ->)].
      - left. left. by left.
      - apply elem_of_app in Hc as [Hc|Hc].
        + left. left. right. by exists coords', i, d.
        + apply list_elem_of_singleton in Hc as [= -> ->].
          left. right. split; [done|]. exists i, d.
          split_and!; try done. apply elem_of_seq. lia. }
  intros pre_i i post_i [] Hseq.
  assert (i < nrows coords)%nat as Hi.
  { assert (i ∈ seq 0 (nrows coords)) as ?%elem_of_seq; [|lia].
    rewrite Hseq. apply elem_of_app. right. left. }
  set (E2 := λ c' name, E1 c' name ∨
         (c' = c ∧ ∃ i d, i ∈ pre_i ∧ (d < D)%nat ∧
                          name = param_name prefix i d)).
  eapply triple_weaken;
    [apply (triple_for_each (λ pre_d _ st, mask = chain_mask df0 c ∧
       at_top h0 (assigned_all T df0 (λ c' name,
         E2 c' name ∨
         (c' = c ∧ ∃ d, d ∈ pre_d ∧ name = param_name prefix i d))) st))| |].
  2:{ intros st (-> & df & -> & Hdf). split; [done|]. exists df. split; [done|].
      eapply assigned_all_mono; [|exact Hdf].
      intros c' name [?|(_ & ? & []%elem_of_nil & _)]. by left. }
  2:{ intros [] st (-> & df & -> & Hdf). split; [done|]. exists df. split; [done|].
      eapply assigned_all_mono; [|exact Hdf].
      intros c' name [?|(-> & i' & d & Hi' & Hd & ->)]; [by left; left; left|].
      apply elem_of_app in Hi' as [Hi'|Hi'%list_elem_of_singleton].
      - left. left. right. split; [done|]. by exists i', d.
      - subst i'. left. right. split; [done|]. exists d. split; [|done].
        apply elem_of_seq. lia. }
  intros pre_d d post_d [] Hseqd.
  assert (d < D)%nat as Hd.
  { assert (d ∈ seq 0 D) as ?%elem_of_seq; [|lia].
    rewrite Hseqd. apply elem_of_app. right. left. }
  set (E3 := λ c' name, E2 c' name ∨
         (c' = c ∧ ∃ d, d ∈ pre_d ∧ name = param_name prefix i d)).
  intros st (-> & df & -> & Hdf).
  unfold prog_bind, df_has_column. rewrite deref_top.
  rewrite (proj1 (same_schema_columns df0 df (proj1 Hdf))).
  case_bool_decide as Hpresent.
  - destruct (Hidx c coords i d Hin Hi Hd Hpresent) as [v Hv].
    unfold lift. rewrite Hv. unfold df_loc_set.
    rewrite deref_top, insert_top. eexists _, _. split; [reflexivity|].
    split; [done|]. eexists. split; [reflexivity|].
    eapply assigned_all_mono;
      [|apply (assigned_all_loc_assign E3 df c (param_name prefix i d) v); [done|]].
    + intros c' name [?|(-> & d' & Hd' & ->)]; [by left; left; left|].
      apply elem_of_app in Hd' as [Hd'|Hd'%list_elem_of_singleton].
      * left. left. right. split; [done|]. by exists d'.
      * subst d'. left. by right.
    + apply HT. by exists coords, i, d.
  - unfold prog_ret. eexists _, _. split; [reflexivity|].
    split; [done|]. exists df. split; [done|].
    eapply assigned_all_mono; [|exact Hdf].
    intros c' name [?|(-> & d' & Hd' & ->)]; [by left; left|].
    apply elem_of_app in Hd' as [Hd'|Hd'%list_elem_of_singleton].
    + left. right. split; [done|]. by exists d'.
    + subst d'. by right.
Qed.

End replace.

Lemma target_xi_inv aligned_person aligned_item D c coords i d v :
  NoDup (dict_keys aligned_person) →
  dict_lookup aligned_person c = Some coords →
  target "xi" aligned_person D c (param_name "xi" i d) v ∨
  target "zt_centered" aligned_item D c (param_name "xi" i d) v →
  ndarray_get coords i d = Ok v.
Proof.
  intros Hnd Hc [Ht|Ht]; destruct Ht as (coords' & i' & d' & Hin & _ & _ & Hname & Hv).
  - apply param_name_inj in Hname as [-> ->].
    apply (dict_elem_of_lookup _ _ _ Hnd) in Hin. congruence.
  - by apply param_name_families in Hname.
Qed.

Lemma target_zt_inv aligned_person aligned_item D c coords i d v :
  NoDup (dict_keys aligned_item) →
  dict_lookup aligned_item c = Some coords →
  target "xi" aligned_person D c (param_name "zt_centered" i d) v ∨
  target "zt_centered" aligned_item D c (param_name "zt_centered" i d) v →
  ndarray_get coords i d = Ok v.
Proof.
  intros Hnd Hc [Ht|Ht]; destruct Ht as (coords' & i' & d' & Hin & _ & _ & Hname & Hv).
  - symmetry in Hname. by apply param_name_families in Hname.
  - apply param_name_inj in Hname as [-> ->].
    apply (dict_elem_of_lookup _ _ _ Hnd) in Hin. congruence.
Qed.

(** C4. Let the aligned maps have distinct keys and let every coordinate
    column that is present in the table have an entry in the matrix of each
    chain (nothing is asked for absent columns). Then
    [create_aligned_draws_dataframe] returns, the new table has the column
    labels of the input, and for every chain [c] of an aligned map, every
    [i] below the row count of its matrix and [d < D], every row of chain
    [c] holds [coords[i, d]] in the column [prefix[i+1,d+1]] when the table
    has that column, whatever the cell was before. Absent columns are
    skipped: they raise nothing and are not created. *)
Theorem rewrite_overwrites h original_draws df0 aligned_person aligned_item D :
  h !! original_draws = Some df0 →
  NoDup (dict_keys aligned_person) → NoDup (dict_keys aligned_item) →
  (∀ c coords i d,
     dict_lookup aligned_person c = Some coords →
     (i < nrows coords)%nat → (d < D)%nat →
     param_name "xi" i d ∈ df_columns df0 →
     ∃ v, ndarray_get coords i d = Ok v) →
  (∀ c coords i d,
     dict_lookup aligned_item c = Some coords →
     (i < nrows coords)%nat → (d < D)%nat →
     param_name "zt_centered" i d ∈ df_columns df0 →
     ∃ v, ndarray_get coords i d = Ok v) →
  ∃ df,
    create_aligned_draws_dataframe original_draws aligned_person aligned_item D h
      = (Ok (length h), h ++ [df]) ∧
    df_columns df = df_columns df0 ∧
    (∀ c coords i d row x0,
       dict_lookup aligned_person c = Some coords →
       (i < nrows coords)%nat → (d < D)%nat →
       chain__ df0 !! row = Some c →
       cell df0 (param_name "xi" i d) row = Some x0 →
       ∃ v, ndarray_get coords i d = Ok v ∧
            cell df (param_name "xi" i d) row = Some v) ∧
    (∀ c coords i d row x0,
       dict_lookup aligned_item c = Some coords →
       (i < nrows coords)%nat → (d < D)%nat →
       chain__ df0 !! row = Some c →
       cell df0 (param_name "zt_centered" i d) row = Some x0 →
       ∃ v, ndarray_get coords i d = Ok v ∧
            cell df (param_name "zt_centered" i d) row = Some v).
Proof.
  intros Hh Hndp Hndi Hidxp Hidxi.
  set (T := λ c name v, target "xi" aligned_person D c name v ∨
                        target "zt_centered" aligned_item D c name v).
  unfold create_aligned_draws_dataframe, prog_bind, df_copy, deref.
  rewrite Hh. simpl.
  assert (∀ c name v, target "xi" aligned_person D c name v → T c name v)
    as HT1 by (intros c name v ?; by left).
  assert (∀ c name v, target "zt_centered" aligned_item D c name v → T c name v)
    as HT2 by (intros c name v ?; by right).
  assert (∀ c coords i d,
     (c, coords) ∈ aligned_person → (i < nrows coords)%nat → (d < D)%nat →
     param_name "xi" i d ∈ df_columns df0 →
     ∃ v, ndarray_get coords i d = Ok v) as Hidx1.
  { intros c coords i d Hin ? ? ?. apply (Hidxp c coords i d); try done.
    by apply dict_elem_of_lookup. }
  assert (∀ c coords i d,
     (c, coords) ∈ aligned_item → (i < nrows coords)%nat → (d < D)%nat →
     param_name "zt_centered" i d ∈ df_columns df0 →
     ∃ v, ndarray_get coords i d = Ok v) as Hidx2.
  { intros c coords i d Hin ? ? ?. apply (Hidxi c coords i d); try done.
    by apply dict_elem_of_lookup. }
  destruct (replace_coordinates_assigns T h df0 "xi" aligned_person D HT1 Hidx1
              (λ _ _, False) (h ++ [df0])) as ([] & h1 & -> & H1).
  { exists df0. split; [done|]. split; [apply same_schema_refl|done]. }
  destruct (replace_coordinates_assigns T h df0 "zt_centered" aligned_item D
              HT2 Hidx2 _ h1 H1) as ([] & h2 & -> & H2).
  destruct H2 as (df & -> & Hs & Hall). exists df.
  split_and!; [done|by apply same_schema_columns|..].
  - intros c coords i d row x0 Hc Hi Hd Hrow Hx0.
    destruct (Hall c (param_name "xi" i d)) with (row := row) (x0 := x0)
      as (v & Hv & Hcell); [|done|done|].
    { left. right. exists coords, i, d. split_and!; try done.
      by apply dict_lookup_elem_of. }
    exists v. split; [|done]. exact (target_xi_inv _ _ _ _ _ _ _ _ Hndp Hc Hv).
  - intros c coords i d row x0 Hc Hi Hd Hrow Hx0.
    destruct (Hall c (param_name "zt_centered" i d)) with (row := row) (x0 := x0)
      as (v & Hv & Hcell); [|done|done|].
    { right. exists coords, i, d. split_and!; try done.
      by apply dict_lookup_elem_of. }
    exists v. split; [|done]. exact (target_zt_inv _ _ _ _ _ _ _ _ Hndi Hc Hv).
Qed.

(** ** Sums *)

Lemma sum_cons x xs : sum (x :: xs) = x + sum xs.
Proof. done. Qed.

Lemma sum_fmap_mult {A} (f : A → R) (c : R) (xs : list A) :
  sum ((λ x, f x * c) <$> xs) = sum (f <$> xs) * c.
Proof.
  induction xs as [|x xs IH]; [cbn; lra|].
  rewrite !fmap_cons, !sum_cons, IH. lra.
Qed.


Lemma sum_fmap_const {A} (c : R) (xs : list A) :
  sum ((λ _, c) <$> xs) = INR (length xs) * c.
Proof.
  induction xs as [|x xs IH]; [cbn; lra|].
  rewrite fmap_cons, sum_cons, IH.
  change (length (x :: xs)) with (S (length xs)). rewrite S_INR. lra.
Qed.

Lemma sum_fmap_ext {A} (f g : A → R) (xs : list A) :
  (∀ x, x ∈ xs → f x = g x) → sum (f <$> xs) = sum (g <$> xs).
Proof.
  intros H. f_equal. apply list_fmap_ext. intros i x Hx. apply H.
  by eapply list_elem_of_lookup_2.
Qed.

Lemma sum_nonneg xs : Forall (λ x, 0 <= x) xs → 0 <= sum xs.
Proof. induction 1 as [|x xs Hx _ IH]; [cbn; lra|]. rewrite sum_cons. lra. Qed.

Lemma sum_nonneg_zero xs :
  Forall (λ x, 0 <= x) xs → sum xs <= 0 → Forall (λ x, x = 0) xs.
Proof.
  induction 1 as [|x xs Hx Hxs IH]; [constructor|].
  rewrite sum_cons. intros Hle. pose proof (sum_nonneg xs Hxs).
  constructor; [lra|]. apply IH. lra.
Qed.

(** ** Vectors *)

Lemma vec_eq (u v : list R) :
  length u = length v → (∀ j, nth j u 0 = nth j v 0) → u = v.
Proof.
  revert v. induction u as [|x u IH]; intros [|y v] Hlen Hnth; try done.
  f_equal; [apply (Hnth 0%nat)|].
  apply IH; [by injection Hlen|]. intros j. apply (Hnth (S j)).
Qed.

Lemma nth_zip_with (f : R → R → R) j u v :
  length u = length v → f 0 0 = 0 →
  nth j (zip_with f u v) 0 = f (nth j u 0) (nth j v 0).
Proof.
  intros Hlen Hf. revert v j Hlen.
  induction u as [|x u IH]; intros [|y v] j Hlen; try done.
  - by destruct j.
  - destruct j as [|j]; [done|]. cbn. apply IH. by injection Hlen.
Qed.

Lemma nth_vadd j u v :
  length u = length v → nth j (vadd u v) 0 = nth j u 0 + nth j v 0.
Proof. intros. apply nth_zip_with; [done|lra]. Qed.

Lemma nth_vsub j u v :
  length u = length v → nth j (vsub u v) 0 = nth j u 0 - nth j v 0.
Proof. intros. apply nth_zip_with; [done|lra]. Qed.

Lemma nth_fmap0 (f : R → R) j u : f 0 = 0 → nth j (f <$> u) 0 = f (nth j u 0).
Proof.
  intros Hf. revert j. induction u as [|x u IH]; intros [|j]; cbn; try done.
Qed.

Lemma nth_vscale j c u : nth j (vscale c u) 0 = nth j u 0 * c.
Proof. unfold vscale. rewrite nth_fmap0; [done|lra]. Qed.

Lemma nth_vdiv j u c : nth j (vdiv u c) 0 = nth j u 0 / c.
Proof. unfold vdiv. rewrite nth_fmap0; [done|]. unfold Rdiv. lra. Qed.

Lemma nth_zeros j D : nth j (replicate D 0) 0 = 0.
Proof. revert j. induction D as [|D IH]; intros [|j]; cbn; try done. Qed.

Lemma length_vadd u v : length u = length v → length (vadd u v) = length u.
Proof. intros H. unfold vadd. rewrite length_zip_with. lia. Qed.

Lemma length_vsub u v : length u = length v → length (vsub u v) = length u.
Proof. intros H. unfold vsub. rewrite length_zip_with. lia. Qed.

Lemma length_vscale c u : length (vscale c u) = length u.
Proof. apply length_fmap. Qed.

Lemma length_vdiv u c : length (vdiv u c) = length u.
Proof. apply length_fmap. Qed.

(** ** Dot products *)

Lemma dotprod_nil_r u : dotprod u [] = 0.
Proof. by destruct u. Qed.

Lemma dotprod_cons x u y v : dotprod (x :: u) (y :: v) = x * y + dotprod u v.
Proof. done. Qed.

Lemma dotprod_comm u v : dotprod u v = dotprod v u.
Proof.
  revert v. induction u as [|x u IH]; intros [|y v]; try done.
  rewrite !dotprod_cons, IH. lra.
Qed.

Lemma dotprod_vadd_l u v w :
  length u = length v → dotprod (vadd u v) w = dotprod u w + dotprod v w.
Proof.
  revert v w. induction u as [|x u IH]; intros [|y v] w Hlen; try done.
  - cbn. lra.
  - destruct w as [|z w]; [rewrite !dotprod_nil_r; lra|].
    change (vadd (x :: u) (y :: v)) with ((x + y) :: vadd u v).
    rewrite !dotprod_cons, IH by by injection Hlen. lra.
Qed.

Lemma dotprod_vsub_l u v w :
  length u = length v → dotprod (vsub u v) w = dotprod u w - dotprod v w.
Proof.
  revert v w. induction u as [|x u IH]; intros [|y v] w Hlen; try done.
  - cbn. lra.
  - destruct w as [|z w]; [rewrite !dotprod_nil_r; lra|].
    change (vsub (x :: u) (y :: v)) with ((x - y) :: vsub u v).
    rewrite !dotprod_cons, IH by by injection Hlen. lra.
Qed.

Lemma dotprod_vscale_l c u w : dotprod (vscale c u) w = dotprod u w * c.
Proof.
  revert w. induction u as [|x u IH]; intros [|z w]; try (cbn; lra).
  change (vscale c (x :: u)) with ((x * c) :: vscale c u).
  rewrite !dotprod_cons, IH. lra.
Qed.

Lemma dotprod_vdiv_l u c w : dotprod (vdiv u c) w = dotprod u w / c.
Proof.
  revert w. induction u as [|x u IH]; intros [|z w]; try (cbn; lra).
  change (vdiv (x :: u) c) with ((x / c) :: vdiv u c).
  rewrite !dotprod_cons, IH. lra.
Qed.

Lemma dotprod_zeros_l D w : dotprod (replicate D 0) w = 0.
Proof.
  revert w. induction D as [|D IH]; intros [|z w]; try done.
  change (replicate (S D) 0) with (0 :: replicate D 0).
  rewrite dotprod_cons, IH. lra.
Qed.

Lemma dotprod_nonneg u : 0 <= dotprod u u.
Proof.
  induction u as [|x u IH]; [cbn; lra|]. rewrite dotprod_cons. nra.
Qed.

Lemma dotprod_self_zero u : dotprod u u <= 0 → Forall (λ x, x = 0) u.
Proof.
  induction u as [|x u IH]; [constructor|]. rewrite dotprod_cons.
  pose proof (dotprod_nonneg u). intros Hle.
  constructor; [nra|]. apply IH. nra.
Qed.

(** ** Sums of rows *)

Section rows.
Variable D : nat.
Implicit Types rs qs : list (list R).

Lemma vsum_cons r rs : vsum D (r :: rs) = vadd r (vsum D rs).
Proof. done. Qed.

Lemma length_vsum rs :
  Forall (λ r, length r = D) rs → length (vsum D rs) = D.
Proof.
  induction 1 as [|r rs Hr _ IH]; [apply length_replicate|].
  rewrite vsum_cons, length_vadd; congruence.
Qed.

Lemma nth_vsum j rs :
  Forall (λ r, length r = D) rs → nth j (vsum D rs) 0 = sum (col rs j).
Proof.
  induction 1 as [|r rs Hr Hrs IH]; [apply nth_zeros|].
  rewrite vsum_cons, nth_vadd, IH; [done|]. by rewrite length_vsum.
Qed.

Lemma dotprod_vsum_l rs w :
  Forall (λ r, length r = D) rs →
  dotprod (vsum D rs) w = sum ((λ r, dotprod r w) <$> rs).
Proof.
  induction 1 as [|r rs Hr Hrs IH]; [apply dotprod_zeros_l|].
  rewrite vsum_cons, dotprod_vadd_l, IH; [done|]. by rewrite length_vsum.
Qed.

Lemma lincomb_cons c x q qs :
  lincomb D (c :: x) (q :: qs) = vadd (vscale c q) (lincomb D x qs).
Proof. done. Qed.

Lemma length_lincomb x qs :
  Forall (λ q, length q = D) qs → length (lincomb D x qs) = D.
Proof.
  intros Hqs. revert x. induction Hqs as [|q qs Hq _ IH]; intros [|c x];
    try apply length_replicate.
  rewrite lincomb_cons, length_vadd; rewrite length_vscale; [done|]. by rewrite IH.
Qed.

Lemma dotprod_lincomb x qs y :
  Forall (λ q, length q = D) qs →
  dotprod (lincomb D x qs) y = dotprod x ((λ q, dotprod q y) <$> qs).
Proof.
  intros Hqs. revert x. induction Hqs as [|q qs Hq Hqs IH]; intros x.
  { replace (lincomb D x []) with (replicate D 0) by by destruct x.
    by rewrite dotprod_zeros_l, fmap_nil, dotprod_nil_r. }
  destruct x as [|c x]; [apply dotprod_zeros_l|].
  rewrite lincomb_cons, dotprod_vadd_l, dotprod_vscale_l, IH.
  - rewrite fmap_cons, dotprod_cons. lra.
  - by rewrite length_vscale, length_lincomb.
Qed.

End rows.

(** ** Centring *)

Lemma center_wf a : ndarray_wf a → ndarray_wf (center a).
Proof.
  unfold ndarray_wf, center, sub_row. simpl. intros Hwf.
  apply Forall_fmap, Forall_forall. intros r Hr.
  rewrite Forall_forall in Hwf. simpl.
  rewrite length_vsub; [by apply Hwf|].
  unfold np_mean0. rewrite length_vdiv, length_vsum; [by apply Hwf|].
  by apply Forall_forall.
Qed.

Lemma div_scalar_wf a c : ndarray_wf a → ndarray_wf (div_scalar a c).
Proof.
  unfold ndarray_wf, div_scalar. simpl. intros Hwf.
  apply Forall_fmap. eapply Forall_impl; [exact Hwf|].
  intros r Hr. simpl. by rewrite length_vdiv.
Qed.

Lemma standardize_wf a : ndarray_wf a → ndarray_wf (standardize a).
Proof. intros. by apply div_scalar_wf, center_wf. Qed.

Lemma standardize_shape a : shape (standardize a) = shape a.
Proof.
  unfold shape, nrows, standardize, div_scalar, center, sub_row. simpl.
  by rewrite !length_fmap.
Qed.

Lemma length_mean0 a : ndarray_wf a → length (np_mean0 a) = ncols a.
Proof.
  intros Hwf. unfold np_mean0. by rewrite length_vdiv, length_vsum.
Qed.



Lemma dotprod_zero_l u w : (∀ j, nth j u 0 = 0) → dotprod u w = 0.
Proof.
  intros Hu. rewrite (vec_eq u (replicate (length u) 0)).
  - apply dotprod_zeros_l.
  - by rewrite length_replicate.
  - intros j. by rewrite Hu, nth_zeros.
Qed.

Lemma nth_fmap_dotprod j r (qs : list (list R)) :
  nth j (dotprod r <$> qs) 0 = dotprod r (nth j qs []).
Proof.
  revert j. induction qs as [|q qs IH]; intros [|j]; cbn; try done;
    by rewrite ?dotprod_nil_r.
Qed.


(** ** The routine, case by case *)

Lemma scipy_procrustes_Ok solver a b fit :
  scipy_procrustes solver a b = Ok fit →
  shape a = shape b ∧ (nrows a * ncols a)%nat ≠ 0%nat ∧
  np_norm (center a) ≠ 0 ∧ np_norm (center b) ≠ 0 ∧
  ∃ Rm s,
    solver (standardize a) (standardize b) = (Rm, s) ∧
    shape (fitted (standardize b) Rm s) = shape a ∧
    fit = (standardize a, fitted (standardize b) Rm s,
           residual (standardize a) (fitted (standardize b) Rm s)).
Proof.
  unfold scipy_procrustes.
  destruct (decide (shape a ≠ shape b)) as [|Hshape%dec_stable]; [done|].
  destruct (decide ((nrows a * ncols a)%nat = 0%nat)) as [|Hsize]; [done|].
  destruct (decide (np_norm (center a) = 0 ∨ np_norm (center b) = 0))
    as [|Hnorm]; [done|].
  fold (standardize a) (standardize b).
  destruct (solver (standardize a) (standardize b)) as [Rm s] eqn:Hsolve.
  unfold np_dot_T. destruct (decide (ncols (standardize b) = ncols Rm)); [|done].
  simpl. unfold np_sub.
  destruct (decide (shape (standardize a) = shape _)) as [Hfit|]; [|done].
  intros [= <-]. split_and!; try done; try tauto.
  exists Rm, s. split_and!; try done.
  rewrite standardize_shape in Hfit. by rewrite Hfit.
Qed.



(** ** Rotations *)

Lemma nth_lincomb D j x qs :
  Forall (λ q, length q = D) qs →
  nth j (lincomb D x qs) 0 = dotprod x (col qs j).
Proof.
  intros Hqs. revert x. induction Hqs as [|q qs Hq Hqs IH]; intros x.
  { replace (lincomb D x []) with (replicate D 0) by by destruct x.
    by rewrite nth_zeros, dotprod_nil_r. }
  destruct x as [|c x]; [apply nth_zeros|].
  rewrite lincomb_cons, nth_vadd, nth_vscale, IH.
  - unfold col. rewrite fmap_cons, dotprod_cons. lra.
  - by rewrite length_vscale, length_lincomb.
Qed.

Lemma dotprod_zero_r x w : (∀ k, nth k w 0 = 0) → dotprod x w = 0.
Proof. intros. rewrite dotprod_comm. by apply dotprod_zero_l. Qed.

Lemma dotprod_indicator x w l :
  (∀ k, nth k w 0 = if decide (k = l) then 1 else 0) →
  dotprod x w = nth l x 0.
Proof.
  revert w l. induction x as [|a x IH]; intros w l Hw.
  { by destruct l. }
  destruct w as [|b w].
  { specialize (Hw l). rewrite decide_True in Hw by done.
    destruct l; cbn in Hw; lra. }
  rewrite dotprod_cons. destruct l as [|l].
  - pose proof (Hw 0%nat) as H0. cbn [nth] in H0.
    rewrite decide_True in H0 by done. subst b.
    rewrite dotprod_zero_r; [cbn [nth]; lra|].
    intros k. specialize (Hw (S k)). cbn [nth] in Hw.
    by rewrite decide_False in Hw by done.
  - pose proof (Hw 0%nat) as H0. cbn [nth] in H0.
    rewrite decide_False in H0 by done. subst b.
    rewrite (IH w l); [cbn [nth]; lra|].
    intros k. specialize (Hw (S k)). cbn [nth] in Hw. rewrite Hw.
    repeat case_decide; try done; lia.
Qed.

Lemma nth_fmap_nil (f : list R → R) k (qs : list (list R)) :
  f [] = 0 → nth k (f <$> qs) 0 = f (nth k qs []).
Proof.
  intros Hf. revert k. induction qs as [|q qs IH]; intros [|k]; cbn; try done.
Qed.

Lemma fmap_vscale_1 (u : list R) : vscale 1 u = u.
Proof.
  unfold vscale. induction u as [|x u IH]; [done|].
  rewrite fmap_cons, IH. f_equal. lra.
Qed.

Section rotation.
Variables (D : nat) (Q : ndarray).
Hypothesis HQ : orthogonal D Q.

Lemma rotation_rows : Forall (λ q, length q = D) (rows Q) ∧ length (rows Q) = D.
Proof.
  destruct HQ as (Hshape & Hwf & _). unfold shape, nrows in Hshape.
  injection Hshape as Hn Hc. unfold ndarray_wf in Hwf. by rewrite Hc in Hwf.
Qed.

Lemma length_rotate x : length (lincomb D x (rows Q)) = D.
Proof. apply length_lincomb, rotation_rows. Qed.

(** Rotating a row and rotating it back. *)
Lemma rotate_back x :
  length x = D → dotprod (lincomb D x (rows Q)) <$> rows Q = x.
Proof.
  intros Hx. destruct rotation_rows as [Hrows Hlen].
  apply vec_eq; [rewrite length_fmap; congruence|].
  intros l. rewrite nth_fmap_dotprod, (dotprod_lincomb D) by done.
  destruct (decide (l < D)%nat) as [Hl|Hl].
  - apply dotprod_indicator. intros k.
    rewrite (nth_fmap_nil (λ q, dotprod q (nth l (rows Q) []))) by done.
    destruct (decide (k < D)%nat) as [Hk|Hk].
    + by apply HQ.
    + rewrite (nth_overflow (rows Q)) by lia.
      rewrite decide_False by lia. done.
  - rewrite (nth_overflow (rows Q)), (nth_overflow x) by lia.
    apply dotprod_zero_r. intros k.
    rewrite (nth_fmap_nil (λ q, dotprod q [])) by done. apply dotprod_nil_r.
Qed.

(** Rotation keeps the length of a row. *)
Lemma rotate_norm x :
  length x = D →
  dotprod (lincomb D x (rows Q)) (lincomb D x (rows Q)) = dotprod x x.
Proof.
  intros Hx. destruct rotation_rows as [Hrows Hlen].
  rewrite (dotprod_lincomb D) by done. f_equal.
  transitivity (dotprod (lincomb D x (rows Q)) <$> rows Q);
    [|by apply rotate_back].
  apply list_fmap_ext. intros i q _. apply dotprod_comm.
Qed.

(** Rotation is linear. *)
Lemma rotate_vsub x y :
  length x = length y →
  lincomb D (vsub x y) (rows Q)
  = vsub (lincomb D x (rows Q)) (lincomb D y (rows Q)).
Proof.
  intros Hxy. destruct rotation_rows as [Hrows Hlen].
  apply vec_eq; [by rewrite length_vsub, !length_rotate by by rewrite !length_rotate|].
  intros j. rewrite nth_vsub by by rewrite !length_rotate.
  rewrite !(nth_lincomb D) by done. by apply dotprod_vsub_l.
Qed.

Lemma rotate_vdiv x c :
  lincomb D (vdiv x c) (rows Q) = vdiv (lincomb D x (rows Q)) c.
Proof.
  destruct rotation_rows as [Hrows Hlen].
  apply vec_eq; [by rewrite length_vdiv, !length_rotate|].
  intros j. rewrite nth_vdiv, !(nth_lincomb D) by done. apply dotprod_vdiv_l.
Qed.

Lemma rotate_vsum (rs : list (list R)) :
  Forall (λ r, length r = D) rs →
  lincomb D (vsum D rs) (rows Q)
  = vsum D ((λ r, lincomb D r (rows Q)) <$> rs).
Proof.
  intros Hrs. destruct rotation_rows as [Hrows Hlen].
  assert (Forall (λ r, length r = D) ((λ r, lincomb D r (rows Q)) <$> rs)) as Hrs'.
  { apply Forall_fmap, Forall_forall. intros r _. apply length_rotate. }
  apply vec_eq; [by rewrite length_rotate, length_vsum|].
  intros j. rewrite (nth_lincomb D), nth_vsum, dotprod_vsum_l by done.
  unfold col. rewrite <- list_fmap_compose. apply sum_fmap_ext.
  intros r _. simpl. by rewrite (nth_lincomb D).
Qed.

End rotation.

(** ** A rotated configuration *)

Lemma np_dot_Ok a q b :
  np_dot a q = Ok b →
  ncols a = nrows q ∧
  b = mk_ndarray (ncols q) ((λ r, lincomb (ncols q) r (rows q)) <$> rows a).
Proof. unfold np_dot. case_decide; [|done]. by intros [= <-]. Qed.

Lemma wf_rows a r : ndarray_wf a → r ∈ rows a → length r = ncols a.
Proof. unfold ndarray_wf. rewrite Forall_forall. auto. Qed.

Section rotated.
Variables (Q A : ndarray).
Hypothesis HQ : orthogonal (ncols A) Q.
Hypothesis HA : ndarray_wf A.

Local Abbreviation D := (ncols A).
Local Abbreviation B := (rotated Q A).

Lemma rotated_mean0 : np_mean0 B = lincomb D (np_mean0 A) (rows Q).
Proof.
  unfold np_mean0, rotated, nrows. cbn [rows ncols]. rewrite length_fmap.
  by rewrite (rotate_vdiv D Q), (rotate_vsum D Q).
Qed.

Lemma rotated_center :
  center B = mk_ndarray D ((λ r, lincomb D r (rows Q)) <$> rows (center A)).
Proof.
  unfold center at 1. rewrite rotated_mean0.
  unfold center, sub_row, rotated. cbn [rows ncols]. f_equal.
  rewrite <- !list_fmap_compose. apply list_fmap_ext. intros i r Hr. simpl.
  symmetry. apply (rotate_vsub D Q); [done|].
  rewrite length_mean0 by done. apply wf_rows; [done|].
  by eapply list_elem_of_lookup_2.
Qed.

Lemma rotated_norm : np_norm (center B) = np_norm (center A).
Proof.
  unfold np_norm. f_equal. rewrite rotated_center. unfold sum_square.
  cbn [rows]. rewrite <- list_fmap_compose. apply sum_fmap_ext.
  intros r Hr. simpl. apply (rotate_norm D Q); [done|].
  by apply (wf_rows (center A)); [apply center_wf|].
Qed.

Lemma rotated_standardize :
  standardize B
  = mk_ndarray D ((λ r, lincomb D r (rows Q)) <$> rows (standardize A)).
Proof.
  unfold standardize. rewrite rotated_norm, rotated_center.
  unfold div_scalar. cbn [rows ncols]. f_equal.
  rewrite <- !list_fmap_compose. apply list_fmap_ext. intros i r _. simpl.
  symmetry. by apply (rotate_vdiv D Q).
Qed.

Lemma fitted_back s :
  s = 1 → fitted (standardize B) Q s = standardize A.
Proof.
  intros ->. rewrite rotated_standardize. unfold fitted. cbn [rows].
  destruct (standardize A) as [c rs] eqn:HM.
  assert (c = D ∧ Forall (λ r, length r = D) rs) as [-> Hrs].
  { pose proof (standardize_wf A HA) as Hwf.
    pose proof (standardize_shape A) as Hshape.
    rewrite HM in Hwf, Hshape. unfold ndarray_wf, shape in *. simpl in *.
    injection Hshape as _ ->. done. }
  cbn [rows]. f_equal.
  - destruct HQ as (Hshape & _). by injection Hshape.
  - rewrite <- !list_fmap_compose. rewrite <- (list_fmap_id rs) at 2.
    apply list_fmap_ext. intros i r Hr. simpl.
    rewrite fmap_vscale_1. apply (rotate_back D Q); [done|].
    rewrite Forall_forall in Hrs. apply Hrs. by eapply list_elem_of_lookup_2.
Qed.

End rotated.

(** ** Residuals *)

Lemma residual_self m : residual m m = 0.
Proof.
  unfold residual, sum_square. cbn [rows].
  induction (rows m) as [|r rs IH]; [done|].
  cbn [zip_with]. rewrite fmap_cons, sum_cons, IH.
  rewrite dotprod_vsub_l by done. lra.
Qed.

Lemma residual_zero D (rs fs : list (list R)) :
  length rs = length fs →
  Forall (λ r, length r = D) rs → Forall (λ r, length r = D) fs →
  sum ((λ r, dotprod r r) <$> zip_with vsub rs fs) <= 0 → fs = rs.
Proof.
  intros Hlen Hrs. revert fs Hlen.
  induction Hrs as [|r rs Hr Hrs IH]; intros [|f fs] Hlen Hfs; try done.
  apply Forall_cons in Hfs as [Hf Hfs]. cbn [zip_with].
  rewrite fmap_cons, sum_cons. intros Hle.
  pose proof (dotprod_nonneg (vsub r f)).
  assert (0 <= sum ((λ r, dotprod r r) <$> zip_with vsub rs fs)).
  { apply sum_nonneg, Forall_fmap, Forall_forall. intros ? _. apply dotprod_nonneg. }
  f_equal.
  - apply vec_eq; [congruence|]. intros j.
    assert (Forall (λ x, x = 0) (vsub r f)) as Hz by (apply dotprod_self_zero; lra).
    assert (nth j (vsub r f) 0 = 0) as Hj.
    { destruct (decide (j < length (vsub r f))%nat).
      - rewrite Forall_forall in Hz. apply Hz. apply list_elem_of_In, nth_In. lia.
      - apply nth_overflow. lia. }
    rewrite nth_vsub in Hj by congruence. lra.
  - apply IH; [by injection Hlen|done|lra].
Qed.

Lemma sum_square_empty a :
  ndarray_wf a → (nrows a * ncols a)%nat = 0%nat → sum_square (center a) = 0.
Proof.
  intros Hwf Hsize. unfold sum_square, center, sub_row. cbn [rows].
  rewrite <- list_fmap_compose.
  rewrite (sum_fmap_ext _ (λ _, 0)); [rewrite sum_fmap_const; lra|].
  intros r Hr. simpl.
  assert (length r = 0%nat) as Hr0%nil_length_inv.
  { rewrite (wf_rows a r Hwf Hr). unfold nrows in Hsize.
    destruct (rows a); [by apply elem_of_nil in Hr|]. simpl in Hsize. lia. }
  by subst r.
Qed.

Lemma fitted_rows_length m2 Rm s :
  Forall (λ r, length r = nrows Rm) (rows (fitted m2 Rm s)).
Proof.
  unfold fitted. cbn [rows]. rewrite <- list_fmap_compose.
  apply Forall_fmap, Forall_forall. intros r _. simpl.
  by rewrite length_vscale, length_fmap.
Qed.

Lemma procrustes_recovers_rotation solver A Q B :
  ndarray_wf A → orthogonal (ncols A) Q → np_dot A Q = Ok B →
  np_norm (center A) ≠ 0 →
  solver_optimal solver (standardize A) (standardize B) →
  scipy_procrustes solver A B = Ok (standardize A, standardize A, 0).
Proof.
  intros HA HQ [_ ->]%np_dot_Ok Hnorm [Hshape Hopt].
  assert (ncols Q = ncols A) as HD.
  { destruct HQ as (HsQ & _). by injection HsQ. }
  rewrite HD in *.
  change (mk_ndarray _ _) with (rotated Q A) in *.
  set (B := rotated Q A) in *.
  assert (shape B = shape A) as HsB.
  { unfold shape, nrows, B, rotated. cbn [rows ncols]. by rewrite length_fmap. }
  unfold scipy_procrustes.
  rewrite decide_False by (intros H; by apply H).
  destruct (decide ((nrows A * ncols A)%nat = 0%nat)) as [Hsize|Hsize].
  { exfalso. apply Hnorm. unfold np_norm.
    rewrite sum_square_empty by done. apply sqrt_0. }
  pose proof (rotated_norm Q A HQ HA) as HnB. fold B in HnB.
  rewrite decide_False by (rewrite HnB; tauto).
  fold (standardize A) (standardize B).
  change (ncols (standardize A)) with (ncols A) in Hshape.
  specialize (Hopt Q 1 HQ).
  destruct (solver (standardize A) (standardize B)) as [Rm s].
  cbn [fst snd] in *.
  pose proof (fitted_back Q A HQ HA 1 eq_refl) as Hback. fold B in Hback.
  rewrite Hback, residual_self in Hopt.
  assert (fitted (standardize B) Rm s = standardize A) as Hfit.
  { pose proof (fitted_rows_length (standardize B) Rm s) as Hlen.
    pose proof (standardize_wf A HA) as HwfM.
    pose proof (standardize_shape A) as HsM.
    pose proof (standardize_shape B) as HsM2.
    unfold residual, sum_square in Hopt. cbn [rows] in Hopt.
    injection Hshape as HRr HRc. rewrite HRr in Hlen.
    assert (rows (fitted (standardize B) Rm s) = rows (standardize A)) as Hrows.
    { apply (residual_zero (ncols A)); [| |exact Hlen|exact Hopt].
      - unfold fitted. cbn [rows]. rewrite !length_fmap.
        unfold shape, nrows in *. congruence.
      - exact HwfM. }
    destruct (standardize A) as [c rs]. unfold fitted in *. cbn [rows] in *.
    rewrite Hrows. f_equal. unfold shape in HsM. simpl in HsM. congruence. }
  unfold np_dot_T.
  rewrite decide_True.
  2:{ pose proof (standardize_shape B) as HsM2. unfold shape in *. congruence. }
  cbn [mbind result_mbind result_bind].
  change (mul_scalar _ s) with (fitted (standardize B) Rm s).
  rewrite Hfit. unfold np_sub. rewrite decide_True by done.
  cbn [mbind result_mbind result_bind].
  change (sum_square _) with (residual (standardize A) (standardize A)).
  by rewrite residual_self.
Qed.


Lemma residual_nonneg m1 m2 : 0 <= residual m1 m2.
Proof.
  unfold residual, sum_square. apply sum_nonneg, Forall_fmap, Forall_forall.
  intros r _. apply dotprod_nonneg.
Qed.

Lemma known_rotation_optimal solver A Q B :
  ndarray_wf A → orthogonal (ncols A) Q → np_dot A Q = Ok B →
  solver (standardize A) (standardize B) = (Q, 1) →
  solver_optimal solver (standardize A) (standardize B).
Proof.
  intros HA HQ [_ ->]%np_dot_Ok Hsolve.
  assert (ncols Q = ncols A) as HD.
  { destruct HQ as (HsQ & _). by injection HsQ. }
  rewrite HD in *. change (mk_ndarray _ _) with (rotated Q A) in *.
  unfold solver_optimal. rewrite Hsolve. cbn [fst snd]. split.
  - apply HQ.
  - intros Q' s' _. rewrite (fitted_back Q A HQ HA 1 eq_refl), residual_self.
    apply residual_nonneg.
Qed.


Lemma quarter_turn_orthogonal : orthogonal 2 quarter_turn.
Proof.
  split_and!; [done|by repeat constructor|].
  intros [|[|k]] [|[|l]] Hk Hl; try lia; case_decide; try lia; cbn; lra.
Qed.

Lemma turned_stack_dot : np_dot square_stack quarter_turn = Ok turned_stack.
Proof.
  unfold np_dot. rewrite decide_True by done. unfold turned_stack.
  cbn. repeat f_equal; lra.
Qed.

Lemma square_stack_norm : np_norm (center square_stack) ≠ 0.
Proof.
  unfold np_norm. intros H%sqrt_eq_0.
  - revert H. unfold sum_square, center, sub_row, np_mean0. cbn. lra.
  - apply sum_nonneg, Forall_fmap, Forall_forall. intros r _. apply dotprod_nonneg.
Qed.

Lemma square_stack_wf : ndarray_wf square_stack.
Proof. by repeat constructor. Qed.



Lemma align_two_chains procrustes (ref_chain_id c : Z)
    person_ref item_ref person_cur item_cur reference_matrix current_matrix out :
  c ≠ ref_chain_id →
  np_vstack person_ref item_ref = Ok reference_matrix →
  np_vstack person_cur item_cur = Ok current_matrix →
  align_latent_spaces procrustes
    [(ref_chain_id, person_ref); (c, person_cur)]
    [(ref_chain_id, item_ref); (c, item_cur)] ref_chain_id out
  = match procrustes reference_matrix current_matrix with
    | Ok fit =>
        (Ok ([(ref_chain_id, person_ref);
              (c, rows_upto (nrows person_ref) fit.1.2)],
             [(ref_chain_id, item_ref);
              (c, rows_from (nrows person_ref) fit.1.2)]),
         out ++ [Aligning c ref_chain_id fit.2])
    | Raise e => (Raise e, out)
    end.
Proof.
  intros Hne Href Hcur.
  unfold align_latent_spaces, dict_keys.
  cbn [fmap list_fmap fst for_each_st].
  unfold align_chain, prog_bind, prog_ret, lift, dict_get, print.
  cbn [dict_lookup dict_set fst snd].
  destruct (decide (ref_chain_id = ref_chain_id)) as [_|?]; [|done].
  destruct (decide (c = ref_chain_id)) as [?|_]; [done|].
  destruct (decide (ref_chain_id = c)) as [?|_]; [done|].
  destruct (decide (c = c)) as [_|?]; [|done].
  rewrite Href, Hcur.
  destruct (procrustes reference_matrix current_matrix) as [fit|e]; [|done].
  cbn [fst snd dict_set].
  destruct (decide (ref_chain_id = c)) as [?|_]; done.
Qed.


Lemma sample_draws_wf : df_wf sample_draws.
Proof.
  split; [by repeat constructor|].
  unfold df_columns, sample_draws. cbn.
  repeat (apply NoDup_cons; split;
          [intros H; repeat (apply elem_of_cons in H as [H|H]; [discriminate|]);
           by apply elem_of_nil in H|]).
  apply NoDup_nil. done.
Qed.

Lemma sample_rewrite_run :
  create_aligned_draws_dataframe 0 sample_person sample_item 1 [sample_draws]
  = (Ok 1%nat, [sample_draws; sample_rewritten]).
Proof. reflexivity. Qed.

Lemma align_turned_run :
  align_latent_spaces (scipy_procrustes turn_solver) turned_persons turned_items 1 []
  = (Ok ([(1%Z, square_person);
          (2%Z, rows_upto 2 (standardize square_stack))],
         [(1%Z, square_item);
          (2%Z, rows_from 2 (standardize square_stack))]),
     [Aligning 2 1 0]).
Proof.
  unfold turned_persons, turned_items.
  rewrite (align_two_chains _ 1 2 _ _ _ _ square_stack turned_stack) by done.
  rewrite (procrustes_recovers_rotation turn_solver square_stack quarter_turn).
  - done.
  - exact square_stack_wf.
  - exact quarter_turn_orthogonal.
  - exact turned_stack_dot.
  - exact square_stack_norm.
  - apply (known_rotation_optimal turn_solver square_stack quarter_turn).
    + exact square_stack_wf.
    + exact quarter_turn_orthogonal.
    + exact turned_stack_dot.
    + reflexivity.
Qed.



(** C8, witness: the reference chain 3 is in neither map. *)
Lemma align_reference_chain_not_found_witness :
  align_latent_spaces (scipy_procrustes turn_solver) turned_persons turned_items 3 []
  = (Raise (KeyError (KInt 3)), []).
Proof.
  apply align_reference_chain_not_found. left.
  intros H. repeat (apply elem_of_cons in H as [H|H]; [discriminate|]).
  by apply elem_of_nil in H.
Defined.

(** C3, witness. *)
Lemma align_reference_identity_witness :
  dict_lookup [(1%Z, square_person);
               (2%Z, rows_upto 2 (standardize square_stack))] 1
  = Some square_person ∧
  dict_lookup [(1%Z, square_item);
               (2%Z, rows_from 2 (standardize square_stack))] 1
  = Some square_item.
Proof.
  apply (align_reference_identity (scipy_procrustes turn_solver)
           turned_persons turned_items 1 [] _ _ [Aligning 2 1 0]).
  - reflexivity.
  - reflexivity.
  - exact align_turned_run.
Defined.




(** C7, witness: no column [eta[1,1]] in the sample table. *)
Lemma extract_missing_parameter_witness :
  ∃ i d, (i < 1)%nat ∧ (d < 1)%nat ∧
    (param_name "eta" i d ∉ df_columns sample_draws) ∧
    extract_latent_coordinates sample_draws 1 1 "eta"
    = Raise (KeyError (KStr (param_name "eta" i d))).
Proof.
  apply extract_missing_parameter.
  - discriminate.
  - exists 0%nat, 0%nat. split_and!; [lia|lia|].
    intros H. repeat (apply elem_of_cons in H as [H|H]; [discriminate|]).
    by apply elem_of_nil in H.
Defined.

(** C5, witness. *)
Lemma rewrite_copy_on_write_witness :
  ∃ df,
    [sample_draws; sample_rewritten] = [sample_draws] ++ [df] ∧
    [sample_draws; sample_rewritten] !! 0%nat = Some sample_draws ∧
    (∀ r, Ok 1%nat = Ok r →
          r = length [sample_draws] ∧ r ≠ 0%nat ∧
          [sample_draws; sample_rewritten] !! r = Some df) ∧
    df_len df = df_len sample_draws ∧
    df_columns df = df_columns sample_draws ∧
    chain__ df = chain__ sample_draws ∧
    ∀ name,
      (∀ i d, name ≠ param_name "xi" i d) →
      (∀ i d, name ≠ param_name "zt_centered" i d) →
      series_lookup (params df) name = series_lookup (params sample_draws) name.
Proof.
  apply (rewrite_copy_on_write [sample_draws] 0 sample_draws
           sample_person sample_item 1).
  - reflexivity.
  - exact sample_rewrite_run.
Defined.

(** C10, witness: row 0 of the sample table belongs to chain 1, which is
    not aligned. *)
Lemma rewrite_other_chains_untouched_witness :
  ∃ df, [sample_draws; sample_rewritten] !! 1%nat = Some df ∧
        chain__ df !! 0%nat = Some 1%Z ∧
        ∀ name, cell df name 0 = cell sample_draws name 0.
Proof.
  apply (rewrite_other_chains_untouched [sample_draws] 0 sample_draws
           sample_person sample_item 1 1 _ 0 1).
  - reflexivity.
  - exact sample_rewrite_run.
  - reflexivity.
  - intros H. apply elem_of_cons in H as [H|H]; [discriminate|].
    by apply elem_of_nil in H.
  - intros H. apply elem_of_cons in H as [H|H]; [discriminate|].
    by apply elem_of_nil in H.
Defined.

Lemma sample_in_range (d : list (Z * ndarray)) v :
  d = [(2%Z, mk_ndarray 1 [[v]])] →
  ∀ c coords i j,
    dict_lookup d c = Some coords → (i < nrows coords)%nat → (j < 1)%nat →
    ∃ x, ndarray_get coords i j = Ok x.
Proof.
  intros -> c coords i j. cbn [dict_lookup]. case_decide; [|done].
  intros [= <-] Hi Hj. cbn in Hi.
  assert (i = 0%nat) as -> by lia. assert (j = 0%nat) as -> by lia.
  by exists v.
Qed.

(** C4, witness. *)
Lemma rewrite_overwrites_witness :
  ∃ df,
    create_aligned_draws_dataframe 0 sample_person sample_item 1 [sample_draws]
      = (Ok (length [sample_draws]), [sample_draws] ++ [df]) ∧
    df_columns df = df_columns sample_draws ∧
    (∀ c coords i d row x0,
       dict_lookup sample_person c = Some coords →
       (i < nrows coords)%nat → (d < 1)%nat →
       chain__ sample_draws !! row = Some c →
       cell sample_draws (param_name "xi" i d) row = Some x0 →
       ∃ v, ndarray_get coords i d = Ok v ∧
            cell df (param_name "xi" i d) row = Some v) ∧
    (∀ c coords i d row x0,
       dict_lookup sample_item c = Some coords →
       (i < nrows coords)%nat → (d < 1)%nat →
       chain__ sample_draws !! row = Some c →
       cell sample_draws (param_name "zt_centered" i d) row = Some x0 →
       ∃ v, ndarray_get coords i d = Ok v ∧
            cell df (param_name "zt_centered" i d) row = Some v).
Proof.
  apply (rewrite_overwrites [sample_draws] 0 sample_draws sample_person sample_item 1).
  - reflexivity.
  - apply NoDup_singleton.
  - apply NoDup_singleton.
  - intros c coords i d Hc Hi Hd _.
    by apply (sample_in_range sample_person 10 eq_refl c).
  - intros c coords i d Hc Hi Hd _.
    by apply (sample_in_range sample_item 20 eq_refl c).
Defined.

(** * Additional properties *)

(** ** Runs of the aligner *)

Lemma dict_set_fresh {V} (m : dict V) k v :
  k ∉ dict_keys m → dict_set m k v = m ++ [(k, v)].
Proof.
  unfold dict_keys. induction m as [|[k' v'] m IH]; simpl; [done|].
  intros Hk. rewrite decide_False.
  - rewrite IH; [done|]. intros ?. apply Hk. by right.
  - intros ->. apply Hk. left.
Qed.

Section align_run.
Variable procrustes : ndarray → ndarray → result (ndarray * ndarray * R).
Variables (person_coords item_coords : dict ndarray) (ref_chain_id : Z).
Variables (reference_matrix : ndarray) (n_persons : nat).

Lemma align_chain_fit chain_id aligned out :
  chain_id ≠ ref_chain_id →
  align_chain procrustes person_coords item_coords ref_chain_id
    reference_matrix n_persons chain_id aligned out
  = match chain_fit procrustes person_coords item_coords reference_matrix chain_id with
    | Ok fit =>
        (Ok (dict_set aligned.1 chain_id (rows_upto n_persons fit.1.2),
             dict_set aligned.2 chain_id (rows_from n_persons fit.1.2)),
         out ++ [Aligning chain_id ref_chain_id fit.2])
    | Raise e => (Raise e, out)
    end.
Proof.
  intros Hne. unfold align_chain, chain_fit, prog_bind, lift.
  rewrite decide_False by done.
  destruct (dict_get person_coords chain_id) as [pc|]; [|done]. simpl.
  destruct (dict_get item_coords chain_id) as [ic|]; [|done]. simpl.
  destruct (np_vstack pc ic) as [cur|]; [|done]. simpl.
  by destruct (procrustes reference_matrix cur).
Qed.

Lemma align_loop_run (ks : list Z) ap0 ai0 out ap ai out' :
  NoDup (dict_keys ap0 ++ filter (λ c, c ≠ ref_chain_id) ks) →
  dict_keys ai0 = dict_keys ap0 →
  for_each_st ks
    (align_chain procrustes person_coords item_coords ref_chain_id
       reference_matrix n_persons) (ap0, ai0) out
  = (Ok (ap, ai), out') →
  ∃ fits,
    Forall2 (λ c fit, chain_fit procrustes person_coords item_coords
                        reference_matrix c = Ok fit)
            (filter (λ c, c ≠ ref_chain_id) ks) fits ∧
    ap = ap0 ++ zip_with (λ c fit, (c, rows_upto n_persons fit.1.2))
                  (filter (λ c, c ≠ ref_chain_id) ks) fits ∧
    ai = ai0 ++ zip_with (λ c fit, (c, rows_from n_persons fit.1.2))
                  (filter (λ c, c ≠ ref_chain_id) ks) fits ∧
    out' = out ++ zip_with (λ c fit, Aligning c ref_chain_id fit.2)
                    (filter (λ c, c ≠ ref_chain_id) ks) fits.
Proof.
  revert ap0 ai0 out.
  induction ks as [|k ks IH]; intros ap0 ai0 out Hnd Hkeys; simpl.
  - unfold prog_ret. intros [= <- <- <-]. exists [].
    rewrite !app_nil_r. split_and!; done.
  - unfold prog_bind at 1.
    destruct (decide (k = ref_chain_id)) as [->|Hne].
    + unfold align_chain at 1. rewrite decide_True by done. unfold prog_ret.
      rewrite filter_cons_False in * by (intros ?; done).
      by apply IH.
    + rewrite align_chain_fit by done.
      rewrite filter_cons_True in * by done.
      destruct (chain_fit _ _ _ _ k) as [fit|e] eqn:Hfit; [|done].
      simpl. intros Hrun.
      assert (k ∉ dict_keys ap0) as Hfresh.
      { intros Hin. apply NoDup_app in Hnd as (_ & Hd & _).
        apply (Hd k Hin). left. }
      assert (k ∉ dict_keys ai0) as Hfresh' by by rewrite Hkeys.
      apply IH in Hrun as (fits & Hfits & -> & -> & ->).
      * exists (fit :: fits). split_and!.
        -- by constructor.
        -- rewrite dict_set_fresh by done. simpl. by rewrite <- app_assoc.
        -- rewrite dict_set_fresh by done. simpl. by rewrite <- app_assoc.
        -- simpl. by rewrite <- app_assoc.
      * rewrite dict_keys_set_fresh by done.
        rewrite <- app_assoc. simpl. done.
      * by rewrite !dict_keys_set_fresh, Hkeys by done.
Qed.
End align_run.

Section align_run_top.
Variable procrustes : ndarray → ndarray → result (ndarray * ndarray * R).

Lemma NoDup_other_chains (person_coords : dict ndarray) ref_chain_id :
  NoDup (dict_keys person_coords) →
  NoDup (ref_chain_id :: other_chains person_coords ref_chain_id).
Proof.
  intros Hnd. apply NoDup_cons. split.
  - unfold other_chains. rewrite list_elem_of_filter. by intros [? _].
  - by apply NoDup_filter.
Qed.

Lemma align_run person_coords item_coords ref_chain_id out ap ai out' :
  NoDup (dict_keys person_coords) →
  align_latent_spaces procrustes person_coords item_coords ref_chain_id out
  = (Ok (ap, ai), out') →
  ∃ person_ref item_ref reference_matrix fits,
    dict_lookup person_coords ref_chain_id = Some person_ref ∧
    dict_lookup item_coords ref_chain_id = Some item_ref ∧
    np_vstack person_ref item_ref = Ok reference_matrix ∧
    Forall2 (λ c fit, chain_fit procrustes person_coords item_coords
                        reference_matrix c = Ok fit)
            (other_chains person_coords ref_chain_id) fits ∧
    ap = (ref_chain_id, person_ref)
         :: zip_with (λ c fit, (c, rows_upto (nrows person_ref) fit.1.2))
              (other_chains person_coords ref_chain_id) fits ∧
    ai = (ref_chain_id, item_ref)
         :: zip_with (λ c fit, (c, rows_from (nrows person_ref) fit.1.2))
              (other_chains person_coords ref_chain_id) fits ∧
    out' = out ++ zip_with (λ c fit, Aligning c ref_chain_id fit.2)
                    (other_chains person_coords ref_chain_id) fits.
Proof.
  intros Hnd. unfold align_latent_spaces, prog_bind, lift, dict_get.
  destruct (dict_lookup person_coords ref_chain_id) as [pr|] eqn:Hpr; [|done].
  destruct (dict_lookup item_coords ref_chain_id) as [ir|] eqn:Hir; [|done].
  destruct (np_vstack pr ir) as [reference_matrix|e] eqn:Href; [|done].
  intros Hloop. apply align_loop_run in Hloop as (fits & Hfits & -> & -> & ->).
  - exists pr, ir, reference_matrix, fits. split_and!; done.
  - by apply NoDup_other_chains.
  - done.
Qed.

End align_run_top.


Lemma fmap_zip_with_l {A B C E} (f : C → E) (g : A → B → C) (h : A → E)
    (xs : list A) (ys : list B) :
  length xs = length ys → (∀ x y, f (g x y) = h x) →
  f <$> zip_with g xs ys = h <$> xs.
Proof.
  intros Hlen Hf. revert ys Hlen.
  induction xs as [|x xs IH]; intros [|y ys] Hlen; simpl in *; try done.
  rewrite Hf, IH by lia. done.
Qed.

(** X5. When [align_latent_spaces] returns, both output maps have the
    same keys: the reference chain first, then the other chains of the
    person map in its order. One line is printed for each of these other
    chains, in that order, each naming the reference chain. *)
Theorem align_output_order procrustes person_coords item_coords ref_chain_id
    out aligned_person aligned_item out' :
  NoDup (dict_keys person_coords) →
  align_latent_spaces procrustes person_coords item_coords ref_chain_id out
  = (Ok (aligned_person, aligned_item), out') →
  dict_keys aligned_person = ref_chain_id :: other_chains person_coords ref_chain_id ∧
  dict_keys aligned_item = ref_chain_id :: other_chains person_coords ref_chain_id ∧
  ∃ log,
    out' = out ++ log ∧
    ev_chain <$> log = other_chains person_coords ref_chain_id ∧
    Forall (λ e, ev_ref e = ref_chain_id) log.
Proof.
  intros Hnd Hrun.
  apply align_run in Hrun
    as (pr & ir & rm & fits & _ & _ & _ & Hfits & -> & -> & ->); [|done].
  apply Forall2_length in Hfits.
  unfold dict_keys. rewrite !fmap_cons. split_and!.
  - f_equal. rewrite <- (list_fmap_id (other_chains _ _)) at 2.
    by apply fmap_zip_with_l.
  - f_equal. rewrite <- (list_fmap_id (other_chains _ _)) at 2.
    by apply fmap_zip_with_l.
  - eexists. split; [done|]. split.
    + rewrite <- (list_fmap_id (other_chains _ _)) at 2.
      by apply fmap_zip_with_l.
    + apply Forall_forall. intros e He.
      apply elem_of_lookup_zip_with in He as (i & c & fit & -> & _ & _). done.
Qed.

(** ** Shapes of the aligned matrices *)

Lemma chain_fit_Ok procrustes person_coords item_coords reference_matrix c fit :
  chain_fit procrustes person_coords item_coords reference_matrix c = Ok fit →
  ∃ person_cur item_cur current_matrix,
    dict_lookup person_coords c = Some person_cur ∧
    dict_lookup item_coords c = Some item_cur ∧
    np_vstack person_cur item_cur = Ok current_matrix ∧
    procrustes reference_matrix current_matrix = Ok fit.
Proof.
  unfold chain_fit, dict_get.
  destruct (dict_lookup person_coords c) as [pc|]; [|done].
  destruct (dict_lookup item_coords c) as [ic|]; [|done]. simpl.
  destruct (np_vstack pc ic) as [cur|] eqn:Hcur; [|done]. simpl.
  intros Hfit. by exists pc, ic, cur.
Qed.

Lemma align_loop_inv procrustes person_coords item_coords ref_chain_id
    (P : dict ndarray * dict ndarray → Prop) out ap ai out'
    person_ref item_ref reference_matrix :
  dict_lookup person_coords ref_chain_id = Some person_ref →
  dict_lookup item_coords ref_chain_id = Some item_ref →
  np_vstack person_ref item_ref = Ok reference_matrix →
  P ([(ref_chain_id, person_ref)], [(ref_chain_id, item_ref)]) →
  (∀ c fit a, c ∈ dict_keys person_coords → c ≠ ref_chain_id → P a →
     chain_fit procrustes person_coords item_coords reference_matrix c = Ok fit →
     P (dict_set a.1 c (rows_upto (nrows person_ref) fit.1.2),
        dict_set a.2 c (rows_from (nrows person_ref) fit.1.2))) →
  align_latent_spaces procrustes person_coords item_coords ref_chain_id out
  = (Ok (ap, ai), out') →
  P (ap, ai).
Proof.
  intros Hpr Hir Href H0 Hstep.
  unfold align_latent_spaces, prog_bind, lift, dict_get.
  rewrite Hpr, Hir, Href. intros Hloop.
  eapply (for_each_st_inv P) in Hloop; [done|done|].
  intros c a st1 a' st1' Hc Ha.
  destruct (decide (c = ref_chain_id)) as [->|Hne].
  - unfold align_chain. rewrite decide_True by done. unfold prog_ret.
    by intros [= <- <-].
  - rewrite align_chain_fit by done.
    destruct (chain_fit _ _ _ _ c) as [fit|] eqn:Hfit; [|done].
    intros [= <- <-]. by apply Hstep.
Qed.

Lemma shape_vstack a b m :
  np_vstack a b = Ok m → shape m = (nrows a + nrows b, ncols a)%nat.
Proof.
  intros (_ & Hc & Hr)%np_vstack_Ok. unfold shape, nrows.
  by rewrite Hr, length_app, Hc.
Qed.

(** X6. With SciPy's Procrustes routine, whenever
    [align_latent_spaces] returns, every output person matrix has the shape
    of the reference chain's person matrix and every output item matrix the
    shape of the reference chain's item matrix, whatever the shapes of the
    input matrices of that chain were: the split is made at the person
    count of the reference chain. *)
Theorem align_output_shapes solver person_coords item_coords ref_chain_id
    out aligned_person aligned_item out' person_ref item_ref :
  dict_lookup person_coords ref_chain_id = Some person_ref →
  dict_lookup item_coords ref_chain_id = Some item_ref →
  align_latent_spaces (scipy_procrustes solver)
    person_coords item_coords ref_chain_id out
  = (Ok (aligned_person, aligned_item), out') →
  (∀ c p, dict_lookup aligned_person c = Some p → shape p = shape person_ref) ∧
  (∀ c i, dict_lookup aligned_item c = Some i → shape i = shape item_ref).
Proof.
  intros Hpr Hir Hrun.
  assert (∃ rm, np_vstack person_ref item_ref = Ok rm) as [rm Hrm].
  { revert Hrun. unfold align_latent_spaces, prog_bind, lift, dict_get.
    rewrite Hpr, Hir. destruct (np_vstack person_ref item_ref); [eauto|done]. }
  eapply (align_loop_inv _ _ _ _
    (λ a, (∀ c p, dict_lookup a.1 c = Some p → shape p = shape person_ref) ∧
          (∀ c i, dict_lookup a.2 c = Some i → shape i = shape item_ref)))
    in Hrun; [exact Hrun|done|done|exact Hrm| |].
  - simpl. split; intros c m; case_decide; try done; by intros [= <-].
  - intros c fit [ap ai] _ _ [HP HI] Hfit. simpl in *.
    apply chain_fit_Ok in Hfit as (pc & ic & cur & _ & _ & _ & Hfit).
    apply scipy_procrustes_Ok in Hfit as (Hshape & _ & _ & _ & Rm & s & _ & Hfs & ->).
    simpl. rewrite (shape_vstack _ _ _ Hrm) in Hfs.
    injection Hfs as Hfr Hfc.
    pose proof (np_vstack_Ok _ _ _ Hrm) as (Hcols & _ & _).
    split; intros k m.
    + destruct (decide (c = k)) as [<-|Hk].
      * rewrite dict_lookup_set_eq. intros [= <-].
        rewrite shape_rows_upto. unfold shape. f_equal; [|done]. unfold nrows in *. lia.
      * rewrite dict_lookup_set_ne by done. apply HP.
    + destruct (decide (c = k)) as [<-|Hk].
      * rewrite dict_lookup_set_eq. intros [= <-].
        rewrite shape_rows_from. unfold shape. f_equal; [|simpl in *; congruence]. unfold nrows in *. lia.
      * rewrite dict_lookup_set_ne by done. apply HI.
Qed.

(** ** Centroids of the aligned chains *)



(** ** Scaled and translated chains *)

Lemma length_vadd_eq D u v :
  length u = D → length v = D → length (vadd u v) = D.
Proof. intros. rewrite length_vadd; congruence. Qed.

Lemma length_vsub_eq D u v :
  length u = D → length v = D → length (vsub u v) = D.
Proof. intros. rewrite length_vsub; congruence. Qed.

Lemma length_vscale_eq D c u : length u = D → length (vscale c u) = D.
Proof. intros. by rewrite length_vscale. Qed.

Create HintDb veclen.
#[local] Hint Resolve length_vadd_eq length_vsub_eq length_vscale_eq : veclen.





Lemma sum_square_nonneg a : 0 <= sum_square a.
Proof.
  unfold sum_square. apply sum_nonneg, Forall_fmap, Forall_forall.
  intros r _. apply dotprod_nonneg.
Qed.










(** ** Bounds of the disparity *)

Lemma nth_np_eye_row D k l :
  nth l ((λ j, if decide (k = j) then 1 else 0) <$> seq 0 D) 0
  = if decide (l = k ∧ (l < D)%nat) then 1 else 0.
Proof.
  destruct (decide (l < D)%nat) as [Hl|Hl].
  - rewrite (nth_indep _ 0 ((λ j, if decide (k = j) then 1 else 0) 0%nat))
      by (rewrite length_fmap, length_seq; lia).
    rewrite (map_nth (λ j, if decide (k = j) then 1 else 0) (seq 0 D) 0%nat l).
    rewrite seq_nth by done. simpl.
    repeat case_decide; try done; lia.
  - rewrite nth_overflow by (rewrite length_fmap, length_seq; lia).
    case_decide; [lia|done].
Qed.

Lemma np_eye_orthogonal D : orthogonal D (np_eye D).
Proof.
  unfold orthogonal, np_eye, shape, nrows, ndarray_wf. cbn [rows ncols].
  split_and!.
  - by rewrite length_fmap, length_seq.
  - apply Forall_fmap, Forall_forall. intros i _. simpl.
    by rewrite length_fmap, length_seq.
  - intros k l Hk Hl.
    set (row := λ i, (λ j, if decide (i = j) then 1 else 0) <$> seq 0 D).
    assert (∀ i, (i < D)%nat → nth i (row <$> seq 0 D) [] = row i) as Hrow.
    { intros i Hi. rewrite (nth_indep _ [] (row 0%nat))
        by (rewrite length_fmap, length_seq; lia).
      change (row <$> seq 0 D) with (map row (seq 0 D)).
      rewrite (map_nth row (seq 0 D) 0%nat i). by rewrite seq_nth. }
    rewrite !Hrow by done.
    rewrite (dotprod_indicator _ (row l) l).
    + unfold row. rewrite nth_np_eye_row. repeat case_decide; try done; lia.
    + intros j. unfold row. rewrite nth_np_eye_row.
      repeat case_decide; try done; lia.
Qed.

Lemma sum_square_div_scalar a c :
  sum_square (div_scalar a c) = sum_square a * (/ c * / c).
Proof.
  unfold sum_square, div_scalar. cbn [rows].
  rewrite <- list_fmap_compose.
  rewrite (sum_fmap_ext _ (λ r, dotprod r r * (/ c * / c))).
  - apply sum_fmap_mult.
  - intros r _. simpl.
    rewrite dotprod_vdiv_l, dotprod_comm, dotprod_vdiv_l. unfold Rdiv. lra.
Qed.

Lemma sum_square_standardize a :
  np_norm (center a) ≠ 0 → sum_square (standardize a) = 1.
Proof.
  intros Hn. unfold standardize. rewrite sum_square_div_scalar.
  assert (sum_square (center a) = np_norm (center a) * np_norm (center a)) as ->.
  { unfold np_norm. rewrite sqrt_sqrt; [done|apply sum_square_nonneg]. }
  by field.
Qed.

Lemma vsub_zeros (r z : list R) :
  length z = length r → Forall (λ x, x = 0) z → vsub r z = r.
Proof.
  revert z. induction r as [|x r IH]; intros [|y z] Hlen Hz; simpl in *; try done.
  apply Forall_cons in Hz as [-> Hz]. unfold vsub in IH.
  rewrite IH by (done || lia). f_equal. lra.
Qed.

Lemma residual_unfitted m1 m2 Q :
  ndarray_wf m1 → nrows m2 = nrows m1 → nrows Q = ncols m1 →
  residual m1 (fitted m2 Q 0) = sum_square m1.
Proof.
  intros Hwf Hrows HQ. unfold residual, sum_square, fitted. cbn [rows ncols].
  f_equal. f_equal.
  unfold nrows in *. unfold ndarray_wf in Hwf.
  rewrite <- list_fmap_compose.
  revert Hrows Hwf. generalize (rows m2) as rs2. generalize (rows m1) as rs1.
  induction rs1 as [|r rs1 IH]; intros [|r2 rs2] Hlen Hwf; simpl in *; try done.
  apply Forall_cons in Hwf as [Hr Hwf].
  rewrite IH by (done || lia). f_equal.
  apply vsub_zeros.
  - unfold vscale. rewrite !length_fmap. congruence.
  - unfold vscale. apply Forall_fmap, Forall_forall. intros x _. simpl. lra.
Qed.

Lemma optimal_disparity_bound solver a b :
  ndarray_wf a → shape a = shape b → np_norm (center a) ≠ 0 →
  solver_optimal solver (standardize a) (standardize b) →
  residual (standardize a)
    (fitted (standardize b) (solver (standardize a) (standardize b)).1
                            (solver (standardize a) (standardize b)).2) <= 1.
Proof.
  intros Hwf Hshape Hn [_ Hopt].
  specialize (Hopt (np_eye (ncols (standardize a))) 0 (np_eye_orthogonal _)).
  rewrite residual_unfitted in Hopt.
  - by rewrite sum_square_standardize in Hopt.
  - by apply standardize_wf.
  - pose proof (standardize_shape a) as Ha. pose proof (standardize_shape b) as Hb.
    unfold shape in *. congruence.
  - unfold np_eye, nrows. cbn [rows]. by rewrite length_fmap, length_seq.
Qed.

(** X9. With SciPy's Procrustes routine and a solver that is
    optimal on the configurations of the call, every disparity that
    [align_latent_spaces] prints lies between 0 and 1, whether the call
    returns or raises later. *)
Theorem align_disparity_bounds solver person_coords item_coords ref_chain_id
    person_ref item_ref reference_matrix out res out' :
  dict_lookup person_coords ref_chain_id = Some person_ref →
  dict_lookup item_coords ref_chain_id = Some item_ref →
  np_vstack person_ref item_ref = Ok reference_matrix →
  ndarray_wf reference_matrix →
  (∀ c person_cur item_cur current_matrix,
     c ∈ dict_keys person_coords → c ≠ ref_chain_id →
     dict_lookup person_coords c = Some person_cur →
     dict_lookup item_coords c = Some item_cur →
     np_vstack person_cur item_cur = Ok current_matrix →
     solver_optimal solver (standardize reference_matrix)
                    (standardize current_matrix)) →
  align_latent_spaces (scipy_procrustes solver)
    person_coords item_coords ref_chain_id out = (res, out') →
  ∃ log, out' = out ++ log ∧ Forall (λ e, 0 <= ev_disparity e <= 1) log.
Proof.
  intros Hpr Hir Hrm Hwf Hopt.
  unfold align_latent_spaces, prog_bind, lift, dict_get.
  rewrite Hpr, Hir, Hrm. intros Hrun.
  set (I := λ o : list event,
         ∃ log, o = out ++ log ∧ Forall (λ e, 0 <= ev_disparity e <= 1) log).
  assert (I out') as HI; [|exact HI].
  change out' with (res, out').2. rewrite <- Hrun.
  apply preserves_for_each.
  2:{ exists []. by rewrite app_nil_r. }
  intros c a Hc. destruct (decide (c = ref_chain_id)) as [->|Hne].
  { unfold align_chain. rewrite decide_True by done. apply preserves_ret. }
  intros st (log & -> & Hlog). rewrite align_chain_fit by done.
  destruct (chain_fit _ _ _ _ c) as [fit|e] eqn:Hfit.
  2:{ by exists log. }
  cbn [snd]. exists (log ++ [Aligning c ref_chain_id fit.2]).
  split; [by rewrite app_assoc|]. apply Forall_app. split; [done|].
  apply Forall_singleton. cbn [ev_disparity].
  apply chain_fit_Ok in Hfit as (pc & ic & cur & Hpc & Hic & Hcur & Hfit).
  specialize (Hopt c pc ic cur Hc Hne Hpc Hic Hcur).
  apply scipy_procrustes_Ok in Hfit
    as (Hshape & _ & Hn1 & _ & Rm & s & Hsolve & _ & ->).
  cbn [snd]. split; [apply residual_nonneg|].
  pose proof (optimal_disparity_bound solver reference_matrix cur
                Hwf Hshape Hn1 Hopt) as Hb.
  by rewrite Hsolve in Hb.
Qed.

(** ** A reference whose points coincide *)



Lemma np_vstack_Raise a b e :
  np_vstack a b = Raise e → ∃ msg, e = ValueError msg.
Proof. unfold np_vstack. case_decide; [done|]. intros [= <-]. eauto. Qed.


(** ** Extraction after rewriting *)

Lemma ndarray_get_wf coords i d :
  ndarray_wf coords → (i < nrows coords)%nat → (d < ncols coords)%nat →
  ∃ v, ndarray_get coords i d = Ok v.
Proof.
  intros Hwf Hi Hd. unfold ndarray_get. rewrite decide_True by done.
  destruct (rows coords !! i) as [r|] eqn:Hr.
  - assert (length r = ncols coords) as Hlen.
    { apply wf_rows; [done|]. by eapply list_elem_of_lookup_2. }
    destruct (r !! d) as [v|] eqn:Hv; [eauto|].
    apply lookup_ge_None in Hv. lia.
  - apply lookup_ge_None in Hr. unfold nrows in Hi. lia.
Qed.

Lemma rewrite_run h original_draws df0 aligned_person aligned_item D :
  h !! original_draws = Some df0 →
  covers D aligned_person → covers D aligned_item →
  ∃ df,
    create_aligned_draws_dataframe original_draws aligned_person aligned_item D h
      = (Ok (length h), h ++ [df]) ∧
    rewritten (rewrite_target aligned_person aligned_item D) df0 df ∧
    ∀ c name, rewrite_site aligned_person aligned_item D c name →
      assigned (rewrite_target aligned_person aligned_item D) df0 df c name.
Proof.
  intros Hh Hcp Hci.
  set (T := rewrite_target aligned_person aligned_item D).
  assert (∀ c name v, target "xi" aligned_person D c name v → T c name v)
    as HT1 by (intros c name v ?; by left).
  assert (∀ c name v, target "zt_centered" aligned_item D c name v → T c name v)
    as HT2 by (intros c name v ?; by right).
  assert (∀ c coords i d,
     (c, coords) ∈ aligned_person → (i < nrows coords)%nat → (d < D)%nat →
     param_name "xi" i d ∈ df_columns df0 →
     ∃ v, ndarray_get coords i d = Ok v) as Hidx1.
  { intros c coords i d Hin ? ? _. destruct (Hcp c coords Hin).
    apply ndarray_get_wf; [done|done|lia]. }
  assert (∀ c coords i d,
     (c, coords) ∈ aligned_item → (i < nrows coords)%nat → (d < D)%nat →
     param_name "zt_centered" i d ∈ df_columns df0 →
     ∃ v, ndarray_get coords i d = Ok v) as Hidx2.
  { intros c coords i d Hin ? ? _. destruct (Hci c coords Hin).
    apply ndarray_get_wf; [done|done|lia]. }
  destruct (replace_coordinates_assigns T h df0 "xi" aligned_person D HT1 Hidx1
              (λ _ _, False) (h ++ [df0])) as ([] & h1 & Hrun1 & H1).
  { exists df0. split; [done|]. split; [apply same_schema_refl|done]. }
  destruct (replace_coordinates_assigns T h df0 "zt_centered" aligned_item D
              HT2 Hidx2 _ h1 H1) as ([] & h2 & Hrun2 & H2).
  destruct H2 as (df & -> & Hs & Hall). exists df.
  assert (create_aligned_draws_dataframe original_draws aligned_person
            aligned_item D h = (Ok (length h), h ++ [df])) as Hrun.
  { unfold create_aligned_draws_dataframe, prog_bind, df_copy, deref.
    rewrite Hh. simpl. rewrite Hrun1, Hrun2. done. }
  split; [done|]. split.
  - by destruct (rewrite_rewritten _ _ _ _ _ _ _ _ Hh Hrun)
      as (df' & [_ <-]%app_inj_tail & Hrw & _).
  - intros c name [Hsite|Hsite]; apply Hall; [by left; right|by right].
Qed.

Lemma rewrite_target_value aligned_person aligned_item D c name v v' :
  NoDup (dict_keys aligned_person) → NoDup (dict_keys aligned_item) →
  rewrite_target aligned_person aligned_item D c name v →
  rewrite_target aligned_person aligned_item D c name v' → v = v'.
Proof.
  intros Hndp Hndi [Ht|Ht] [Ht'|Ht'];
    destruct Ht as (coords & i & d & Hin & _ & _ & -> & Hv);
    destruct Ht' as (coords' & i' & d' & Hin' & _ & _ & Hname & Hv').
  - apply param_name_inj in Hname as [-> ->].
    apply (dict_elem_of_lookup _ _ _ Hndp) in Hin, Hin'. congruence.
  - by apply param_name_families in Hname.
  - symmetry in Hname. by apply param_name_families in Hname.
  - apply param_name_inj in Hname as [-> ->].
    apply (dict_elem_of_lookup _ _ _ Hndi) in Hin, Hin'. congruence.
Qed.

Lemma same_schema_wf df0 df : same_schema df0 df → df_wf df0 → df_wf df.
Proof.
  intros Hs [Hlen Hnd]. destruct (same_schema_columns _ _ Hs) as [Hcols Hl].
  split; [|by rewrite Hcols].
  destruct Hs as [_ Hs]. rewrite Hl.
  induction Hs as [|c0 c cs0 cs [_ Hc] _ IH]; [done|].
  apply Forall_cons in Hlen as [H0 Hlen]. constructor; [congruence|by apply IH].
Qed.

Lemma series_lookup_elem_of {V} (cols : list (string * V)) name v :
  series_lookup cols name = Some v → (name, v) ∈ cols.
Proof.
  induction cols as [|[n0 v0] cols IH]; simpl; [done|].
  destruct (decide (n0 = name)) as [->|Hne].
  - intros [= ->]. left.
  - intros H. right. by apply IH.
Qed.

Lemma cell_is_Some df name row :
  df_wf df → name ∈ (params df).*1 → (row < df_len df)%nat →
  is_Some (cell df name row).
Proof.
  intros [Hlen _] [xs Hxs]%series_lookup_is_Some Hrow. unfold cell. rewrite Hxs.
  apply lookup_lt_is_Some. rewrite Forall_forall in Hlen.
  pose proof (Hlen (name, xs) (series_lookup_elem_of _ _ _ Hxs)) as Hl.
  simpl in Hl. lia.
Qed.


Section round_trip.
Variables (df0 df : DataFrame) (aligned_person aligned_item : dict ndarray).
Variable D : nat.
Hypothesis Hwf : df_wf df0.
Hypothesis Hndp : NoDup (dict_keys aligned_person).
Hypothesis Hndi : NoDup (dict_keys aligned_item).
Hypothesis Hrw : rewritten (rewrite_target aligned_person aligned_item D) df0 df.
Hypothesis Hsite : ∀ c name, rewrite_site aligned_person aligned_item D c name →
      assigned (rewrite_target aligned_person aligned_item D) df0 df c name.

Lemma rewritten_site_cell c name v row :
  rewrite_site aligned_person aligned_item D c name →
  rewrite_target aligned_person aligned_item D c name v →
  name ∈ df_columns df0 →
  chain__ df0 !! row = Some c →
  cell df name row = Some v.
Proof.
  intros Hs Ht Hname Hrow.
  assert (name ∈ (params df0).*1) as Hcol.
  { apply elem_of_cons in Hname as [->|?]; [|done].
    exfalso. destruct Hs as [Hs|Hs]; destruct Hs as (? & i & d & _ & _ & _ & Hn);
      symmetry in Hn; exact (param_name_not_chain _ _ _ Hn). }
  destruct (cell_is_Some df0 name row Hwf Hcol) as [x0 Hx0].
  { by apply lookup_lt_Some in Hrow. }
  destruct (Hsite c name Hs row x0 Hrow Hx0) as (w & Hw & ->).
  f_equal. exact (rewrite_target_value _ _ _ _ _ _ _ Hndp Hndi Hw Ht).
Qed.


End round_trip.


(** ** Rewriting twice, and what is never written *)

Lemma series_lookup_None {V} (cols : list (string * V)) name :
  series_lookup cols name = None ↔ name ∉ cols.*1.
Proof. rewrite <- series_lookup_is_Some, eq_None_not_Some. done. Qed.

Lemma columns_eq (cols cols2 : list (string * list R)) :
  NoDup cols.*1 →
  Forall2 (λ c0 c, c.1 = c0.1 ∧ length c.2 = length c0.2) cols cols2 →
  (∀ name, series_lookup cols2 name = series_lookup cols name) →
  cols2 = cols.
Proof.
  intros Hnd Hs. induction Hs as [|[n col] [n2 col2] cs cs2 [Hn _] Hs IH]; [done|].
  simpl in Hn. subst n2. intros Heq.
  rewrite fmap_cons in Hnd. apply NoDup_cons in Hnd as [Hfresh Hnd].
  assert (cs2.*1 = cs.*1) as Hlabels.
  { clear -Hs. induction Hs as [|? ? ? ? [? _] _ IH]; [done|].
    rewrite !fmap_cons. by f_equal. }
  f_equal.
  - specialize (Heq n). simpl in Heq. rewrite !decide_True in Heq by done.
    by injection Heq as ->.
  - apply IH; [done|]. intros name. specialize (Heq name). simpl in Heq.
    destruct (decide (n = name)) as [<-|Hne]; [|done].
    transitivity (@None (list R)); [|symmetry]; apply series_lookup_None;
      by rewrite ?Hlabels.
Qed.

Lemma same_schema_cells_eq df df2 :
  df_wf df → same_schema df df2 →
  (∀ name row, cell df2 name row = cell df name row) → df2 = df.
Proof.
  intros [_ Hnd] Hs Hcells.
  assert (∀ name, series_lookup (params df2) name = series_lookup (params df) name)
    as Hcols by (intros name; by apply same_schema_column_eq).
  destruct Hs as [Hchain Hs]. destruct df as [ch cols], df2 as [ch2 cols2].
  simpl in *. subst ch2. f_equal.
  apply columns_eq; [|done|done].
  unfold df_columns in Hnd. simpl in Hnd. by apply NoDup_cons in Hnd as [_ ?].
Qed.

Lemma target_site aligned_person aligned_item D c name v :
  rewrite_target aligned_person aligned_item D c name v →
  rewrite_site aligned_person aligned_item D c name.
Proof.
  intros [Ht|Ht]; destruct Ht as (coords & i & d & ? & ? & ? & ? & _);
    [left|right]; by exists coords, i, d.
Qed.

(** X14. Rewriting is idempotent: applying
    [create_aligned_draws_dataframe] with the same maps to the table it
    returned gives a third table equal to the second. *)
Theorem rewrite_idempotent h original_draws df0 aligned_person aligned_item D :
  h !! original_draws = Some df0 → df_wf df0 →
  NoDup (dict_keys aligned_person) → NoDup (dict_keys aligned_item) →
  covers D aligned_person → covers D aligned_item →
  ∃ df,
    create_aligned_draws_dataframe original_draws aligned_person aligned_item D h
      = (Ok (length h), h ++ [df]) ∧
    create_aligned_draws_dataframe (length h) aligned_person aligned_item D
      (h ++ [df])
      = (Ok (S (length h)), h ++ [df; df]).
Proof.
  intros Hh Hwf Hndp Hndi Hcp Hci.
  destruct (rewrite_run h original_draws df0 aligned_person aligned_item D
              Hh Hcp Hci) as (df & Hrun & Hrw & Hsite).
  exists df. split; [done|].
  destruct (rewrite_run (h ++ [df]) (length h) df aligned_person aligned_item D)
    as (df2 & Hrun2 & Hrw2 & _); [by apply list_lookup_middle|done|done|].
  rewrite Hrun2, length_app, Nat.add_1_r, <- app_assoc. simpl.
  assert (df2 = df) as ->; [|done].
  destruct Hrw as [Hs Hcells]. destruct Hrw2 as [Hs2 Hcells2].
  apply same_schema_cells_eq; [by apply (same_schema_wf df0)|done|].
  intros name row. destruct (cell df2 name row) as [x|] eqn:Hx.
  - apply Hcells2 in Hx as Hold. destruct Hold as [Hold|(c & Hc & Ht)]; [done|].
    symmetry.
    apply (rewritten_site_cell df0 df aligned_person aligned_item D Hwf Hndp Hndi
             Hsite c name x row); [by eapply target_site|done| |].
    + destruct (same_schema_columns _ _ Hs) as [<- _].
      destruct (same_schema_columns _ _ Hs2) as [<- _].
      right. apply series_lookup_is_Some. unfold cell in Hx.
      destruct (series_lookup (params df2) name); [eauto|done].
    + destruct Hs as [<- _]. done.
  - symmetry. apply eq_None_not_Some.
    rewrite <- (same_schema_cell df df2) by done. rewrite Hx. by intros [? ?].
Qed.

(** X17. Whatever [create_aligned_draws_dataframe] does, a
    coordinate column [prefix[i+1,d+1]] of the new table is the column of the
    input when [d >= D] or when no matrix of the family has a row [i]:
    dimensions beyond [D] and entities beyond the matrices are left as they
    were. *)
Theorem rewrite_outside_matrix_untouched h original_draws df0
    aligned_person aligned_item D res h' :
  h !! original_draws = Some df0 →
  create_aligned_draws_dataframe original_draws aligned_person aligned_item D h
    = (res, h') →
  ∃ df,
    h' = h ++ [df] ∧
    (∀ i d,
       (D ≤ d)%nat ∨ (∀ c coords, (c, coords) ∈ aligned_person → (nrows coords ≤ i)%nat) →
       series_lookup (params df) (param_name "xi" i d)
       = series_lookup (params df0) (param_name "xi" i d)) ∧
    (∀ i d,
       (D ≤ d)%nat ∨ (∀ c coords, (c, coords) ∈ aligned_item → (nrows coords ≤ i)%nat) →
       series_lookup (params df) (param_name "zt_centered" i d)
       = series_lookup (params df0) (param_name "zt_centered" i d)).
Proof.
  intros Hh Hrun.
  destruct (rewrite_rewritten _ _ _ _ _ _ _ _ Hh Hrun) as (df & -> & [Hs Hcells] & _).
  exists df. split; [done|].
  assert (∀ name, (∀ row x, cell df name row = Some x → cell df0 name row = Some x) →
            series_lookup (params df) name = series_lookup (params df0) name) as Hcol.
  { intros name Hold. apply same_schema_column_eq; [done|].
    intros row. destruct (cell df name row) as [x|] eqn:Hx; [by rewrite (Hold row x)|].
    symmetry. apply eq_None_not_Some. rewrite <- (same_schema_cell df0 df) by done.
    rewrite Hx. by intros [? ?]. }
  split; intros i d Hout; apply Hcol; intros row x Hx;
    apply Hcells in Hx as [Hx|(c & _ & [Ht|Ht])]; try done;
    destruct Ht as (coords & i' & d' & Hin & Hi' & Hd' & Hname & _); exfalso.
  - apply param_name_inj in Hname as [-> ->].
    destruct Hout as [?|Hout]; [lia|]. specialize (Hout c coords Hin). lia.
  - by apply param_name_families in Hname.
  - symmetry in Hname. by apply param_name_families in Hname.
  - apply param_name_inj in Hname as [-> ->].
    destruct Hout as [?|Hout]; [lia|]. specialize (Hout c coords Hin). lia.
Qed.

(** ** Matrices narrower than [D] *)

Lemma for_each_st_Ok_elem {St A S} (I : St → Prop) (xs : list A)
    (body : A → S → prog St S) s st s' st' :
  (∀ x t, x ∈ xs → preserves I (body x t)) → I st →
  for_each_st xs body s st = (Ok s', st') →
  ∀ x, x ∈ xs → ∃ t st1 t' st1', I st1 ∧ body x t st1 = (Ok t', st1').
Proof.
  revert s st. induction xs as [|y xs IH]; intros s st Hbody Hst Hrun x Hx.
  { by apply elem_of_nil in Hx. }
  simpl in Hrun. unfold prog_bind in Hrun.
  destruct (body y s st) as [[t|e] st1] eqn:Hy; [|done].
  apply elem_of_cons in Hx as [->|Hx].
  - by exists s, st, t, st1.
  - apply (IH t st1); [|  |done|done].
    + intros z u Hz. apply Hbody. by right.
    + specialize (Hbody y s ltac:(left) st Hst). by rewrite Hy in Hbody.
Qed.

Lemma for_each_st_raise_only {St A S} (E : exception → Prop) (xs : list A)
    (body : A → S → prog St S) s st e st' :
  (∀ x t st1 e st1', x ∈ xs → body x t st1 = (Raise e, st1') → E e) →
  for_each_st xs body s st = (Raise e, st') → E e.
Proof.
  revert s st. induction xs as [|y xs IH]; intros s st Hbody; simpl.
  { done. }
  unfold prog_bind. destruct (body y s st) as [[t|e'] st1] eqn:Hy.
  - apply IH. intros z u st2 e2 st2' Hz. apply Hbody. by right.
  - intros [= <- <-]. eapply Hbody; [left|done].
Qed.

Lemma ndarray_get_Raise coords i d e :
  ndarray_get coords i d = Raise e → e = IndexError.
Proof.
  unfold ndarray_get. case_decide; [|by intros [= <-]].
  destruct (rows coords !! i) as [r|]; [|by intros [= <-]].
  destruct (r !! d); [done|by intros [= <-]].
Qed.

Lemma replace_coordinates_raise_only r prefix aligned_coords D st e st' :
  replace_coordinates r prefix aligned_coords D st = (Raise e, st') →
  e = IndexError.
Proof.
  unfold replace_coordinates.
  apply (for_each_st_raise_only (λ e, e = IndexError)).
  intros [c coords] [] st1 e1 st1' _. simpl. unfold prog_bind at 1, df_chain_eq.
  unfold for_range_st. apply (for_each_st_raise_only (λ e, e = IndexError)).
  intros i [] st2 e2 st2' _. apply (for_each_st_raise_only (λ e, e = IndexError)).
  intros d [] st3 e3 st3' _. unfold prog_bind, df_has_column, lift, df_loc_set, prog_ret.
  case_bool_decide; [|done].
  destruct (ndarray_get coords i d) as [v|e4] eqn:Hget; [done|].
  intros [= <- <-]. by eapply ndarray_get_Raise.
Qed.

Section must_raise.
Variables (h0 : heap) (df0 : DataFrame) (prefix : string).
Variables (aligned_coords : dict ndarray) (D : nat).

Lemma inner_preserves_schema mask coords i d u :
  preserves (at_top h0 (same_schema df0))
    (prog_bind (df_has_column (length h0) (param_name prefix i d)) (λ present,
       if present then
         prog_bind (lift (ndarray_get coords i d))
           (λ v, df_loc_set (length h0) mask (param_name prefix i d) v)
       else prog_ret u)).
Proof.
  intros st (df & -> & Hdf). unfold prog_bind, df_has_column, lift, df_loc_set, prog_ret.
  case_bool_decide; [|by exists df].
  destruct (ndarray_get coords i d) as [v|e]; [|by exists df].
  simpl. rewrite deref_top, insert_top. eexists. split; [done|].
  by apply same_schema_loc_assign.
Qed.

Lemma replace_coordinates_must_raise c coords i d st u st' :
  (c, coords) ∈ aligned_coords → (i < nrows coords)%nat → (d < D)%nat →
  (ncols coords ≤ d)%nat → param_name prefix i d ∈ df_columns df0 →
  at_top h0 (same_schema df0) st →
  replace_coordinates (length h0) prefix aligned_coords D st ≠ (Ok u, st').
Proof.
  intros Hin Hi Hd Hcols Hname Hst Hrun. unfold replace_coordinates in Hrun.
  set (I := at_top h0 (same_schema df0)) in *.
  assert (∀ mask coords' i',
    ∀ d' (t : ()), d' ∈ seq 0 D → preserves I
      ((λ d (_ : ()),
         prog_bind (df_has_column (length h0) (param_name prefix i' d)) (λ present,
           if present then
             prog_bind (lift (ndarray_get coords' i' d))
               (λ v, df_loc_set (length h0) mask (param_name prefix i' d) v)
           else prog_ret ())) d' t)) as Hpres3.
  { intros mask coords' i' d' [] _. apply inner_preserves_schema. }
  assert (∀ mask coords',
    ∀ i' (t : ()), i' ∈ seq 0 (nrows coords') → preserves I
      ((λ i (_ : ()), for_range_st D (λ d (_ : ()),
         prog_bind (df_has_column (length h0) (param_name prefix i d)) (λ present,
           if present then
             prog_bind (lift (ndarray_get coords' i d))
               (λ v, df_loc_set (length h0) mask (param_name prefix i d) v)
           else prog_ret ())) ()) i' t)) as Hpres2.
  { intros mask coords' i' [] _. apply preserves_for_each. apply Hpres3. }
  eapply (for_each_st_Ok_elem I) in Hrun
    as ([] & st1 & [] & st1' & Hst1 & Hrun1); [| |exact Hst|exact Hin].
  2:{ intros [c' coords'] [] _. simpl.
      apply preserves_bind; [by intros ?|]. intros mask.
      apply preserves_for_each. apply Hpres2. }
  simpl in Hrun1. unfold prog_bind at 1, df_chain_eq in Hrun1.
  unfold for_range_st at 1 in Hrun1.
  eapply (for_each_st_Ok_elem I) in Hrun1
    as ([] & st2 & [] & st2' & Hst2 & Hrun2);
    [|apply Hpres2|exact Hst1|apply elem_of_seq; split; [lia|exact Hi]].
  unfold for_range_st in Hrun2.
  eapply (for_each_st_Ok_elem I) in Hrun2
    as ([] & st3 & [] & st3' & Hst3 & Hrun3);
    [|apply Hpres3|exact Hst2|apply elem_of_seq; split; [lia|exact Hd]].
  destruct Hst3 as (df & -> & Hdf).
  revert Hrun3. unfold prog_bind, df_has_column, lift.
  rewrite deref_top, (proj1 (same_schema_columns df0 df Hdf)).
  rewrite bool_decide_eq_true_2 by done.
  unfold ndarray_get. by rewrite decide_False by lia.
Qed.
End must_raise.

(** X18. When the table has the column [prefix[i+1,d+1]] for a row
    [i] of an aligned matrix and a [d < D] that the matrix has no column for,
    [create_aligned_draws_dataframe] raises [IndexError]. *)
Theorem rewrite_index_error h original_draws df0 aligned_person aligned_item D
    c coords i d :
  h !! original_draws = Some df0 →
  ((c, coords) ∈ aligned_person ∧ param_name "xi" i d ∈ df_columns df0) ∨
  ((c, coords) ∈ aligned_item ∧ param_name "zt_centered" i d ∈ df_columns df0) →
  (i < nrows coords)%nat → (d < D)%nat → (ncols coords ≤ d)%nat →
  ∃ h',
    create_aligned_draws_dataframe original_draws aligned_person aligned_item D h
    = (Raise IndexError, h').
Proof.
  intros Hh Hbad Hi Hd Hcols.
  unfold create_aligned_draws_dataframe, prog_bind, df_copy, deref.
  rewrite Hh. simpl.
  assert (at_top h (same_schema df0) (h ++ [df0])) as H0.
  { exists df0. split; [done|apply same_schema_refl]. }
  destruct (replace_coordinates (length h) "xi" aligned_person D (h ++ [df0]))
    as [[[]|e] h1] eqn:Hrun1.
  - destruct Hbad as [[Hin Hname]|[Hin Hname]].
    { exfalso. by eapply (replace_coordinates_must_raise h df0 "xi" aligned_person D
                         c coords i d). }
    assert (at_top h (same_schema df0) h1) as H1.
    { pose proof (replace_coordinates_rewritten
                    (rewrite_target aligned_person aligned_item D)
                    h df0 "xi" aligned_person D) as Hp.
      assert (at_top h (rewritten (rewrite_target aligned_person aligned_item D) df0)
                (h ++ [df0])) as H0'.
      { exists df0. split; [done|]. split; [apply same_schema_refl|eauto]. }
      specialize (Hp ltac:(by left) (h ++ [df0]) H0'). rewrite Hrun1 in Hp.
      simpl in Hp. destruct Hp as (df & -> & Hs & _). by exists df. }
    destruct (replace_coordinates (length h) "zt_centered" aligned_item D h1)
      as [[[]|e] h2] eqn:Hrun2.
    + exfalso. by eapply (replace_coordinates_must_raise h df0 "zt_centered"
                            aligned_item D c coords i d).
    + apply replace_coordinates_raise_only in Hrun2 as ->. eauto.
  - apply replace_coordinates_raise_only in Hrun1 as ->. eauto.
Qed.

(** ** What extraction reads *)

Lemma for_each_ext {A S} (xs : list A) (body1 body2 : A → S → result S) s :
  (∀ x t, x ∈ xs → body1 x t = body2 x t) →
  for_each xs body1 s = for_each xs body2 s.
Proof.
  revert s. induction xs as [|x xs IH]; intros s Hext; [done|].
  simpl. rewrite Hext by left.
  destruct (body2 x s) as [t|e]; [|done].
  apply IH. intros y u Hy. apply Hext. by right.
Qed.

Lemma extract_agree df df' n D prefix :
  chain__ df' = chain__ df →
  (∀ i d, (i < n)%nat → (d < D)%nat →
     series_lookup (params df') (param_name prefix i d)
     = series_lookup (params df) (param_name prefix i d)) →
  extract_latent_coordinates df' n D prefix
  = extract_latent_coordinates df n D prefix.
Proof.
  intros Hchain Hcols. unfold extract_latent_coordinates. rewrite Hchain.
  apply for_each_ext. intros c means _.
  assert (chain_mask df' c = chain_mask df c) as ->
    by (unfold chain_mask; by rewrite Hchain).
  f_equal. unfold for_range. apply for_each_ext. intros i m Hi%elem_of_seq.
  apply for_each_ext. intros d m' Hd%elem_of_seq.
  unfold series_get. rewrite !series_lookup_chain_mean, Hcols by lia. done.
Qed.


(** ** Column selection in the caller *)

Lemma foldl_snoc {A B} (g : A → B) (xs : list A) (acc : list B) :
  foldl (λ acc x, acc ++ [g x]) acc xs = acc ++ (g <$> xs).
Proof.
  revert acc. induction xs as [|x xs IH]; intros acc; simpl.
  - by rewrite app_nil_r.
  - by rewrite IH, <- app_assoc.
Qed.

Lemma df_chain_and_Ok df labels :
  labels ⊆ (params df).*1 →
  df_chain_and df labels
  = Ok (mk_DataFrame (chain__ df)
          ((λ l, (l, default [] (series_lookup (params df) l))) <$> labels)).
Proof.
  intros Hsub. unfold df_chain_and.
  rewrite (for_each_foldl _ _
             (λ cols l, cols ++ [(l, default [] (series_lookup (params df) l))])).
  - by rewrite (foldl_snoc (λ l, (l, default [] (series_lookup (params df) l)))).
  - intros l cols Hl. unfold series_get.
    destruct (series_lookup (params df) l) as [col|] eqn:Hcol; [done|].
    apply series_lookup_None in Hcol. destruct Hcol. by apply Hsub.
Qed.

Lemma series_lookup_labels {V} (g : string → V) (labels : list string) name :
  series_lookup ((λ l, (l, g l)) <$> labels) name
  = if decide (name ∈ labels) then Some (g name) else None.
Proof.
  induction labels as [|l labels IH].
  - destruct (decide (name ∈ [])) as [Hin|_]; [by apply elem_of_nil in Hin|done].
  - rewrite fmap_cons. cbn [series_lookup]. rewrite IH.
    destruct (decide (l = name)) as [->|Hne].
    + destruct (decide (name ∈ name :: labels)) as [_|Hn]; [done|].
      destruct Hn. left.
    + destruct (decide (name ∈ labels)) as [Hin|Hin],
        (decide (name ∈ l :: labels)) as [Hin'|Hin']; try done.
      * destruct Hin'. by right.
      * apply elem_of_cons in Hin' as [?|?]; congruence.
Qed.

Lemma vars_with_params sub df :
  str_in sub "chain__" = false →
  vars_with sub (df_columns df) ⊆ (params df).*1.
Proof.
  intros Hsub l [Hl Hin]%list_elem_of_filter.
  apply elem_of_cons in Hin as [->|?]; [congruence|done].
Qed.

Lemma prefix_empty s : String.prefix "" s = true.
Proof. by destruct s. Qed.

Lemma str_in_xi i d : str_in "xi[" (param_name "xi" i d) = true.
Proof. unfold param_name. simpl. by rewrite prefix_empty. Qed.

Lemma str_in_zt i d : str_in "zt_centered[" (param_name "zt_centered" i d) = true.
Proof. unfold param_name. simpl. by rewrite prefix_empty. Qed.

(** The selected table has the chain column and, for a label with [sub],
    the column of the full table. *)
Lemma df_chain_and_vars sub df :
  str_in sub "chain__" = false →
  ∃ draws,
    df_chain_and df (vars_with sub (df_columns df)) = Ok draws ∧
    chain__ draws = chain__ df ∧
    ∀ name, str_in sub name = true →
      series_lookup (params draws) name = series_lookup (params df) name.
Proof.
  intros Hsub. eexists. split; [by apply df_chain_and_Ok, vars_with_params|].
  split; [done|]. intros name Hname. cbn [params].
  rewrite series_lookup_labels.
  destruct (series_lookup (params df) name) as [col|] eqn:Hcol.
  - rewrite decide_True; [done|].
    apply list_elem_of_filter. split; [done|]. right.
    apply series_lookup_is_Some. eauto.
  - rewrite decide_False; [done|].
    intros [_ Hin]%list_elem_of_filter.
    apply elem_of_cons in Hin as [->|Hin]; [congruence|].
    apply series_lookup_None in Hcol. done.
Qed.

(** ** The caller without its inputs *)

Lemma extract_Raise df n D prefix e :
  extract_latent_coordinates df n D prefix = Raise e →
  ∃ name, e = KeyError (KStr name).
Proof.
  unfold extract_latent_coordinates.
  intros (c & means & _ & Hc)%for_each_Raise_inv.
  destruct (for_range n _ (np_zeros n D)) as [m|e'] eqn:Hm; [done|].
  injection Hc as ->. unfold for_range in Hm.
  apply for_each_Raise_inv in Hm as (i & m & _ & Hi).
  apply for_each_Raise_inv in Hi as (d & m' & _ & Hd).
  unfold series_get in Hd.
  destruct (series_lookup _ (param_name prefix i d)); [done|].
  injection Hd as <-. eauto.
Qed.

Lemma for_each_dict_set_keys {V} (F : Z → result V) (xs : list Z)
    (acc means : dict V) :
  NoDup (dict_keys acc ++ xs) →
  for_each xs (λ c acc, m ← F c; Ok (dict_set acc c m)) acc = Ok means →
  dict_keys means = dict_keys acc ++ xs.
Proof.
  revert acc. induction xs as [|x xs IH]; intros acc Hnd; simpl.
  - intros [= <-]. by rewrite app_nil_r.
  - destruct (F x) as [m|e]; [|done]. simpl. intros Hrun.
    assert (x ∉ dict_keys acc) as Hfresh.
    { intros Hin. apply NoDup_app in Hnd as (_ & Hd & _). apply (Hd x Hin). left. }
    apply IH in Hrun.
    + rewrite Hrun, dict_keys_set_fresh by done. by rewrite <- app_assoc.
    + rewrite dict_keys_set_fresh by done. by rewrite <- app_assoc.
Qed.

Lemma extract_keys df n D prefix means :
  extract_latent_coordinates df n D prefix = Ok means →
  dict_keys means = unique (chain__ df).
Proof.
  unfold extract_latent_coordinates. intros Hrun.
  apply (for_each_dict_set_keys
           (λ c, for_range n (λ i matrix,
              for_range D (λ d matrix,
                v ← series_get (df_mean (df_select df (chain_mask df c)))
                      (param_name prefix i d);
                Ok (ndarray_set matrix i d v)) matrix) (np_zeros n D))) in Hrun.
  - done.
  - apply NoDup_unique.
Qed.

Section caller_facts.
Variable procrustes : ndarray → ndarray → result (ndarray * ndarray * R).

(** The stage after the two column selections, which cannot fail. *)
Lemma alignment_stage_selected df_fit stan_data out h :
  ∃ person_draws item_draws,
    let df := deref h df_fit in
    chain__ person_draws = chain__ df ∧
    chain__ item_draws = chain__ df ∧
    (∀ i d, series_lookup (params person_draws) (param_name "xi" i d)
            = series_lookup (params df) (param_name "xi" i d)) ∧
    (∀ i d, series_lookup (params item_draws) (param_name "zt_centered" i d)
            = series_lookup (params df) (param_name "zt_centered" i d)) ∧
    run_stan_model_alignment procrustes df_fit stan_data (out, h)
    = (n_persons <- lift (series_get stan_data "n_persons");;
       D <- lift (series_get stan_data "D");;
       person_chain_coords <-
         lift (extract_latent_coordinates person_draws n_persons D "xi");;
       n_items <- lift (series_get stan_data "n_items");;
       D <- lift (series_get stan_data "D");;
       item_chain_coords <-
         lift (extract_latent_coordinates item_draws n_items D "zt_centered");;
       aligned <- on_stdout (align_latent_spaces procrustes
                               person_chain_coords item_chain_coords 1);;
       on_heap (create_aligned_draws_dataframe df_fit aligned.1 aligned.2 2))%prog
      (out, h).
Proof.
  destruct (df_chain_and_vars "xi[" (deref h df_fit) eq_refl)
    as (pd & Hpd & Hpc & Hpl).
  destruct (df_chain_and_vars "zt_centered[" (deref h df_fit) eq_refl)
    as (idr & Hid & Hic & Hil).
  exists pd, idr. cbn zeta. split_and!; [done|done| | |].
  - intros i d. apply Hpl, str_in_xi.
  - intros i d. apply Hil, str_in_zt.
  - unfold run_stan_model_alignment.
    unfold prog_bind at 1. unfold on_heap at 1. cbn [fst snd].
    unfold prog_bind at 1. unfold lift at 1. rewrite Hpd.
    unfold prog_bind at 1. unfold lift at 1. rewrite Hid. done.
Qed.


(** X20. When no draw belongs to chain 1, the alignment stage
    of [run_stan_model] raises a [KeyError], prints nothing and creates no
    table; when the coordinate columns are present it is the [KeyError] of
    the reference chain 1. *)
Theorem alignment_requires_chain_one df_fit stan_data out h n_persons n_items D :
  series_lookup stan_data "n_persons" = Some n_persons →
  series_lookup stan_data "n_items" = Some n_items →
  series_lookup stan_data "D" = Some D →
  1%Z ∉ chain__ (deref h df_fit) →
  ∃ k,
    run_stan_model_alignment procrustes df_fit stan_data (out, h)
    = (Raise (KeyError k), (out, h)) ∧
    ((∀ i d, (i < n_persons)%nat → (d < D)%nat →
        param_name "xi" i d ∈ df_columns (deref h df_fit)) →
     (∀ i d, (i < n_items)%nat → (d < D)%nat →
        param_name "zt_centered" i d ∈ df_columns (deref h df_fit)) →
     k = KInt 1).
Proof.
  intros Hnp Hni HD Hone.
  destruct (alignment_stage_selected df_fit stan_data out h)
    as (pd & idr & Hpc & Hic & Hpl & Hil & ->).
  cbn zeta in *. unfold prog_bind, lift, series_get. rewrite Hnp, HD, Hni.
  rewrite (extract_agree (deref h df_fit) pd) by done.
  rewrite (extract_agree (deref h df_fit) idr) by done.
  destruct (extract_latent_coordinates (deref h df_fit) n_persons D "xi")
    as [pc|e] eqn:Hpe.
  2:{ apply extract_Raise in Hpe as Hk. destruct Hk as [name ->].
      eexists. split; [done|]. intros Hxi _.
      rewrite extract_Ok in Hpe by done. done. }
  destruct (extract_latent_coordinates (deref h df_fit) n_items D "zt_centered")
    as [ic|e] eqn:Hie.
  2:{ apply extract_Raise in Hie as Hk. destruct Hk as [name ->].
      eexists. split; [done|]. intros _ Hzt.
      rewrite extract_Ok in Hie by done. done. }
  exists (KInt 1). split; [|done].
  unfold on_stdout, align_latent_spaces, prog_bind, lift, dict_get.
  assert (dict_lookup pc 1 = None) as ->; [|done].
  apply dict_lookup_None. by rewrite (extract_keys _ _ _ _ _ Hpe), elem_of_unique.
Qed.

End caller_facts.

(** ** The caller and the reference chain *)

Lemma elem_of_dict_set {V} (d : dict V) k v k' v' :
  (k', v') ∈ dict_set d k v → (k', v') = (k, v) ∨ (k', v') ∈ d.
Proof.
  induction d as [|[k0 v0] d IH]; simpl.
  - intros ->%list_elem_of_singleton. by left.
  - destruct (decide (k0 = k)) as [->|Hne].
    + intros [->|?]%elem_of_cons; [by left|right; by right].
    + intros [->|Hin]%elem_of_cons; [right; left|].
      destruct (IH Hin) as [?|?]; [by left|right; by right].
Qed.

Lemma rows_upto_wf n a : ndarray_wf a → ndarray_wf (rows_upto n a).
Proof. unfold ndarray_wf, rows_upto. simpl. apply Forall_take. Qed.

Lemma rows_from_wf n a : ndarray_wf a → ndarray_wf (rows_from n a).
Proof. unfold ndarray_wf, rows_from. simpl. apply Forall_drop. Qed.

Lemma scipy_fit_wf solver a b fit :
  scipy_procrustes solver a b = Ok fit →
  ndarray_wf fit.1.2 ∧ ncols fit.1.2 = ncols a.
Proof.
  intros (_ & _ & _ & _ & Rm & s & _ & Hshape & ->)%scipy_procrustes_Ok.
  simpl. split.
  - apply fitted_rows_length.
  - unfold shape in Hshape. by injection Hshape.
Qed.

(** The matrices that the aligner returns are rectangular and as wide as
    the reference. *)
Lemma align_outputs_wf solver person_coords item_coords ref_chain_id
    out ap ai out' person_ref item_ref :
  dict_lookup person_coords ref_chain_id = Some person_ref →
  dict_lookup item_coords ref_chain_id = Some item_ref →
  ndarray_wf person_ref → ndarray_wf item_ref →
  align_latent_spaces (scipy_procrustes solver)
    person_coords item_coords ref_chain_id out = (Ok (ap, ai), out') →
  ∀ c m, (c, m) ∈ ap ∨ (c, m) ∈ ai →
    ndarray_wf m ∧ ncols m = ncols person_ref.
Proof.
  intros Hpr Hir Hwfp Hwfi Hrun.
  assert (∃ rm, np_vstack person_ref item_ref = Ok rm) as [rm Hrm].
  { revert Hrun. unfold align_latent_spaces, prog_bind, lift, dict_get.
    rewrite Hpr, Hir. destruct (np_vstack person_ref item_ref); [eauto|done]. }
  pose proof (np_vstack_Ok _ _ _ Hrm) as (Hcols & Hrc & _).
  set (P := λ a : dict ndarray * dict ndarray,
         ∀ c m, (c, m) ∈ a.1 ∨ (c, m) ∈ a.2 →
           ndarray_wf m ∧ ncols m = ncols person_ref).
  assert (P (ap, ai)) as HP; [|exact HP].
  eapply (align_loop_inv _ _ _ _ P); [exact Hpr|exact Hir|exact Hrm| | |exact Hrun].
  - unfold P. simpl.
    intros c m [[= -> ->]%list_elem_of_singleton|[= -> ->]%list_elem_of_singleton];
      split; done.
  - unfold P. intros k fit [ap0 ai0] _ _ IH Hfit. simpl in *.
    apply chain_fit_Ok in Hfit as (pc & ic & cur & _ & _ & _ & Hfit).
    apply scipy_fit_wf in Hfit as [Hwf Hnc].
    intros c m [[Heq|Hin]%elem_of_dict_set|[Heq|Hin]%elem_of_dict_set].
    + injection Heq as -> ->.
      split; [by apply rows_upto_wf|]. simpl. congruence.
    + apply (IH c m). by left.
    + injection Heq as -> ->.
      split; [by apply rows_from_wf|]. simpl. congruence.
    + apply (IH c m). by right.
Qed.

Lemma align_keys_NoDup procrustes person_coords item_coords ref_chain_id
    out ap ai out' :
  NoDup (dict_keys person_coords) →
  align_latent_spaces procrustes person_coords item_coords ref_chain_id out
  = (Ok (ap, ai), out') →
  NoDup (dict_keys ap) ∧ NoDup (dict_keys ai) ∧
  dict_lookup ap ref_chain_id = dict_lookup person_coords ref_chain_id ∧
  dict_lookup ai ref_chain_id = dict_lookup item_coords ref_chain_id.
Proof.
  intros Hnd Hrun.
  apply align_run in Hrun
    as (pr & ir & rm & fits & Hpr & Hir & _ & Hfits & -> & -> & ->); [|done].
  apply Forall2_length in Hfits.
  assert (∀ g : Z → ndarray * ndarray * R → Z * ndarray,
            (∀ c fit, (g c fit).1 = c) →
            (zip_with g (other_chains person_coords ref_chain_id) fits).*1
            = other_chains person_coords ref_chain_id) as Hk.
  { intros g Hg. rewrite <- (list_fmap_id (other_chains _ _)) at 2.
    by apply fmap_zip_with_l. }
  split_and!.
  - unfold dict_keys. rewrite fmap_cons, Hk by done. by apply NoDup_other_chains.
  - unfold dict_keys. rewrite fmap_cons, Hk by done. by apply NoDup_other_chains.
  - simpl. by rewrite decide_True.
  - simpl. by rewrite decide_True.
Qed.

Lemma on_heap_run {A} (m : prog heap A) out h :
  on_heap m (out, h) = ((m h).1, (out, (m h).2)).
Proof. done. Qed.

Lemma on_stdout_run {A} (m : prog (list event) A) out h :
  on_stdout m (out, h) = ((m out).1, ((m out).2, h)).
Proof. done. Qed.

(** X21. When the alignment stage of [run_stan_model]
    returns (SciPy's Procrustes routine, [D >= 2], a well-formed table with
    the coordinate columns), every row of chain 1 of the new table holds, in
    the columns [xi[i,d]] and [zt_centered[i,d]] of the first two dimensions,
    the mean of that column over the draws of chain 1 in the input. *)
Theorem alignment_reference_rows_become_means solver df_fit stan_data out h df
    n_persons n_items D r out' h' :
  h !! df_fit = Some df → df_wf df →
  series_lookup stan_data "n_persons" = Some n_persons →
  series_lookup stan_data "n_items" = Some n_items →
  series_lookup stan_data "D" = Some D →
  (2 ≤ D)%nat →
  (∀ i d, (i < n_persons)%nat → (d < D)%nat →
     param_name "xi" i d ∈ df_columns df) →
  (∀ i d, (i < n_items)%nat → (d < D)%nat →
     param_name "zt_centered" i d ∈ df_columns df) →
  run_stan_model_alignment (scipy_procrustes solver) df_fit stan_data (out, h)
  = (Ok r, (out', h')) →
  ∃ df',
    r = length h ∧ h' = h ++ [df'] ∧
    ∀ row, chain__ df !! row = Some 1%Z →
      (∀ i d, (i < n_persons)%nat → (d < 2)%nat →
         cell df' (param_name "xi" i d) row
         = Some (chain_mean df "xi" 1 i d)) ∧
      (∀ i d, (i < n_items)%nat → (d < 2)%nat →
         cell df' (param_name "zt_centered" i d) row
         = Some (chain_mean df "zt_centered" 1 i d)).
Proof.
  intros Hh Hwf Hnp Hni HD H2 Hxi Hzt.
  destruct (alignment_stage_selected (scipy_procrustes solver) df_fit stan_data out h)
    as (pd & idr & Hpc & Hic & Hpl & Hil & ->).
  assert (deref h df_fit = df) as Hdf by (unfold deref; by rewrite Hh).
  rewrite Hdf in *. cbn zeta in *.
  unfold prog_bind at 1, lift at 1, series_get at 1. rewrite Hnp.
  unfold prog_bind at 1, lift at 1, series_get at 1. rewrite HD.
  rewrite (extract_agree df pd) by done.
  rewrite extract_Ok by done.
  unfold prog_bind at 1, lift at 1.
  unfold prog_bind at 1, lift at 1, series_get at 1. rewrite Hni.
  unfold prog_bind at 1, lift at 1, series_get at 1. rewrite HD.
  rewrite (extract_agree df idr) by done.
  rewrite extract_Ok by done.
  unfold prog_bind at 1, lift at 1.
  set (pc := foldl _ [] _). set (ic := foldl _ [] _).
  unfold prog_bind. rewrite on_stdout_run.
  destruct (align_latent_spaces (scipy_procrustes solver) pc ic 1 out)
    as [[[ap ai]|e] out1] eqn:Halign; [|done].
  cbn [fst snd]. rewrite on_heap_run. intros Hrun.
  assert (dict_keys pc = unique (chain__ df)) as Hkeys.
  { unfold pc. rewrite foldl_dict_set_keys; [done|apply NoDup_unique]. }
  assert (NoDup (dict_keys pc)) as Hndpc.
  { rewrite Hkeys. apply NoDup_unique. }
  assert (∀ prefix n c, c ∈ chain__ df →
            dict_lookup (foldl (λ means c, dict_set means c
                           (filled n D (chain_mean df prefix c))) []
                           (unique (chain__ df))) c
            = Some (filled n D (chain_mean df prefix c))) as Hlook.
  { intros prefix n c Hc. rewrite foldl_dict_set_lookup.
    rewrite decide_True; [done|by apply elem_of_unique]. }
  destruct (align_keys_NoDup _ _ _ _ _ _ _ _ Hndpc Halign)
    as (Hndp & Hndi & Hap1 & Hai1).
  assert (1%Z ∈ chain__ df) as Hone.
  { apply elem_of_unique. rewrite <- Hkeys.
    apply dict_lookup_is_Some.
    revert Halign. unfold align_latent_spaces, prog_bind, lift, dict_get.
    destruct (dict_lookup pc 1); [eauto|done]. }
  unfold pc in Hap1. unfold ic in Hai1.
  rewrite (Hlook "xi"%string n_persons 1%Z Hone) in Hap1.
  rewrite (Hlook "zt_centered"%string n_items 1%Z Hone) in Hai1.
  pose proof (align_outputs_wf solver pc ic 1 out ap ai out1 _ _
                (Hlook "xi"%string n_persons 1%Z Hone)
                (Hlook "zt_centered"%string n_items 1%Z Hone)
                (filled_wf _ _ _) (filled_wf _ _ _) Halign) as Hwfout.
  assert (ncols (filled n_persons D (chain_mean df "xi" 1)) = D) as HcolsD.
  { pose proof (filled_shape n_persons D (chain_mean df "xi" 1)) as Hs.
    unfold shape in Hs. by injection Hs. }
  rewrite HcolsD in Hwfout.
  assert (covers 2 ap) as Hcp.
  { intros c m Hin. destruct (Hwfout c m) as [? ?]; [by left|]. split; [done|lia]. }
  assert (covers 2 ai) as Hci.
  { intros c m Hin. destruct (Hwfout c m) as [? ?]; [by right|]. split; [done|lia]. }
  destruct (rewrite_run h df_fit df ap ai 2 Hh Hcp Hci) as (df' & Hrw & Hrew & Hsite).
  rewrite Hrw in Hrun. cbn [fst snd] in Hrun. injection Hrun as <- <- <-.
  exists df'. split_and!; [done|done|].
  intros row Hrow. split; intros i d Hi Hd.
  - apply (rewritten_site_cell df df' ap ai 2 Hwf Hndp Hndi Hsite 1%Z);
      [| |apply Hxi; lia|done].
    + left. exists (filled n_persons D (chain_mean df "xi" 1)), i, d.
      split_and!; try done.
      * by apply dict_lookup_elem_of.
      * pose proof (filled_shape n_persons D (chain_mean df "xi" 1)) as Hs.
        unfold shape in Hs. injection Hs as -> _. done.
    + left. exists (filled n_persons D (chain_mean df "xi" 1)), i, d.
      split_and!; try done.
      * by apply dict_lookup_elem_of.
      * pose proof (filled_shape n_persons D (chain_mean df "xi" 1)) as Hs.
        unfold shape in Hs. injection Hs as -> _. done.
      * apply filled_get; lia.
  - apply (rewritten_site_cell df df' ap ai 2 Hwf Hndp Hndi Hsite 1%Z);
      [| |apply Hzt; lia|done].
    + right. exists (filled n_items D (chain_mean df "zt_centered" 1)), i, d.
      split_and!; try done.
      * by apply dict_lookup_elem_of.
      * pose proof (filled_shape n_items D (chain_mean df "zt_centered" 1)) as Hs.
        unfold shape in Hs. injection Hs as -> _. done.
    + right. exists (filled n_items D (chain_mean df "zt_centered" 1)), i, d.
      split_and!; try done.
      * by apply dict_lookup_elem_of.
      * pose proof (filled_shape n_items D (chain_mean df "zt_centered" 1)) as Hs.
        unfold shape in Hs. injection Hs as -> _. done.
      * apply filled_get; lia.
Qed.

(** ** Mismatched chains, order of the maps, frame of the caller *)

Lemma np_dot_T_Raise a b e :
  np_dot_T a b = Raise e → ∃ msg, e = ValueError msg.
Proof. unfold np_dot_T. case_decide; [done|]. intros [= <-]. eauto. Qed.

Lemma np_sub_Raise a b e :
  np_sub a b = Raise e → ∃ msg, e = ValueError msg.
Proof. unfold np_sub. case_decide; [done|]. intros [= <-]. eauto. Qed.

Lemma scipy_procrustes_Raise solver a b e :
  scipy_procrustes solver a b = Raise e → ∃ msg, e = ValueError msg.
Proof.
  unfold scipy_procrustes.
  case_decide; [intros [= <-]; eauto|].
  case_decide; [intros [= <-]; eauto|].
  case_decide; [intros [= <-]; eauto|].
  destruct (solver _ _) as [Rm s].
  destruct (np_dot_T _ Rm) as [rot|e1] eqn:Hrot; simpl.
  - destruct (np_sub _ _) as [diff|e2] eqn:Hdiff; simpl; [done|].
    intros [= <-]. by eapply np_sub_Raise.
  - intros [= <-]. by eapply np_dot_T_Raise.
Qed.

Lemma scipy_procrustes_shape_mismatch solver a b :
  shape a ≠ shape b →
  scipy_procrustes solver a b
  = Raise (ValueError "Input matrices must be of same shape").
Proof. intros Hs. unfold scipy_procrustes. by rewrite decide_True. Qed.

(** X12. When a chain other than the reference has a stacked
    matrix whose shape differs from that of the reference (another number of
    columns, or another total number of rows), [align_latent_spaces] with
    SciPy's Procrustes routine raises a [ValueError] (every chain of the
    person map being in the item map). *)
Theorem align_shape_mismatch solver person_coords item_coords ref_chain_id
    person_ref item_ref c person_cur item_cur out :
  dict_lookup person_coords ref_chain_id = Some person_ref →
  dict_lookup item_coords ref_chain_id = Some item_ref →
  (∀ c', c' ∈ dict_keys person_coords → c' ∈ dict_keys item_coords) →
  c ≠ ref_chain_id →
  dict_lookup person_coords c = Some person_cur →
  dict_lookup item_coords c = Some item_cur →
  ncols person_cur ≠ ncols person_ref ∨ ncols item_cur ≠ ncols person_ref ∨
  (nrows person_cur + nrows item_cur)%nat
    ≠ (nrows person_ref + nrows item_ref)%nat →
  ∃ msg out',
    align_latent_spaces (scipy_procrustes solver)
      person_coords item_coords ref_chain_id out
    = (Raise (ValueError msg), out').
Proof.
  intros Hpr Hir Hkeys Hne Hpc Hic Hbad.
  assert (c ∈ dict_keys person_coords) as Hc
    by (apply dict_lookup_is_Some; eauto).
  unfold align_latent_spaces, prog_bind, lift, dict_get.
  rewrite Hpr, Hir.
  destruct (np_vstack person_ref item_ref) as [rm|e] eqn:Hrm.
  2:{ apply np_vstack_Raise in Hrm as [msg ->]. eauto. }
  match goal with
  | |- ∃ msg out', ?run = _ =>
      destruct run as [[a|e] out'] eqn:Hrun
  end.
  - exfalso.
    destruct (for_each_st_raises (dict_keys person_coords)
                (align_chain (scipy_procrustes solver) person_coords item_coords
                   ref_chain_id rm (nrows person_ref)) c
                ([(ref_chain_id, person_ref)], [(ref_chain_id, item_ref)]) out Hc)
      as (e & out'' & Hraise); [|congruence].
    intros t st1. rewrite align_chain_fit by done.
    unfold chain_fit, dict_get. rewrite Hpc, Hic. simpl.
    destruct (np_vstack person_cur item_cur) as [cur|e] eqn:Hcur; [|simpl; eauto].
    simpl. rewrite scipy_procrustes_shape_mismatch; [eauto|].
    rewrite (shape_vstack _ _ _ Hrm), (shape_vstack _ _ _ Hcur).
    intros [= Hr Hcn].
    apply np_vstack_Ok in Hcur as (Hcc & _ & _). lia.
  - assert (∃ msg, e = ValueError msg) as [msg ->]; [|eauto].
    revert Hrun.
    apply (for_each_st_raise_only (λ e, ∃ msg, e = ValueError msg)).
    intros k t st1 e1 st1' Hk.
    destruct (decide (k = ref_chain_id)) as [->|Hkne].
    { unfold align_chain. by rewrite decide_True. }
    rewrite align_chain_fit by done.
    destruct (chain_fit _ _ _ _ k) as [fit|e2] eqn:Hfit; [done|].
    intros [= <- <-]. revert Hfit. unfold chain_fit, dict_get.
    pose proof (Hkeys k Hk) as Hki.
    apply dict_lookup_is_Some in Hk as [pk ->].
    apply dict_lookup_is_Some in Hki as [ik ->]. simpl.
    destruct (np_vstack pk ik) as [cur|e3] eqn:Hcur; simpl.
    + apply scipy_procrustes_Raise.
    + intros [= <-]. by eapply np_vstack_Raise.
Qed.

Lemma same_schema_trans df0 df1 df2 :
  same_schema df0 df1 → same_schema df1 df2 → same_schema df0 df2.
Proof.
  intros [Hc1 Hs1] [Hc2 Hs2]. split; [congruence|].
  revert Hs2. generalize (params df2).
  induction Hs1 as [|c0 c1 cs0 cs1 [? ?] _ IH]; intros cs2 Hs2.
  - by apply Forall2_nil_inv_l in Hs2 as ->.
  - apply Forall2_cons_inv_l in Hs2 as (c2 & cs2' & [? ?] & Hs2 & ->).
    constructor; [split; congruence|by apply IH].
Qed.

Lemma same_schema_sym df0 df1 : same_schema df0 df1 → same_schema df1 df0.
Proof.
  intros [Hc Hs]. split; [done|].
  induction Hs as [|c0 c1 cs0 cs1 [? ?] _ IH]; constructor; [by split|done].
Qed.

Lemma covers_perm D aligned aligned' :
  aligned ≡ₚ aligned' → covers D aligned → covers D aligned'.
Proof. intros Hp Hc c coords Hin. apply (Hc c coords). by rewrite Hp. Qed.

Lemma rewrite_target_perm ap ai ap' ai' D c name v :
  ap ≡ₚ ap' → ai ≡ₚ ai' →
  rewrite_target ap ai D c name v → rewrite_target ap' ai' D c name v.
Proof.
  intros Hp Hi [Ht|Ht]; destruct Ht as (coords & i & d & Hin & ?);
    [left|right]; exists coords, i, d; split; try done;
    [by rewrite <- Hp|by rewrite <- Hi].
Qed.

(** X15. The table that [create_aligned_draws_dataframe] returns
    does not depend on the order of the entries of the aligned maps. *)
Theorem rewrite_order_irrelevant h original_draws df0
    aligned_person aligned_item aligned_person' aligned_item' D :
  h !! original_draws = Some df0 → df_wf df0 →
  NoDup (dict_keys aligned_person) → NoDup (dict_keys aligned_item) →
  covers D aligned_person → covers D aligned_item →
  aligned_person ≡ₚ aligned_person' → aligned_item ≡ₚ aligned_item' →
  create_aligned_draws_dataframe original_draws aligned_person' aligned_item' D h
  = create_aligned_draws_dataframe original_draws aligned_person aligned_item D h.
Proof.
  intros Hh Hwf Hndp Hndi Hcp Hci Hpp Hpi.
  destruct (rewrite_run h original_draws df0 aligned_person aligned_item D
              Hh Hcp Hci) as (df & -> & Hrw & Hsite).
  destruct (rewrite_run h original_draws df0 aligned_person' aligned_item' D Hh)
    as (df' & -> & Hrw' & Hsite');
    [by apply (covers_perm D aligned_person)|by apply (covers_perm D aligned_item)|].
  assert (df' = df) as ->; [|done].
  assert (NoDup (dict_keys aligned_person')) as Hndp'
    by (unfold dict_keys in *; by rewrite <- Hpp).
  assert (NoDup (dict_keys aligned_item')) as Hndi'
    by (unfold dict_keys in *; by rewrite <- Hpi).
  destruct Hrw as [Hs Hcells]. destruct Hrw' as [Hs' Hcells'].
  apply same_schema_cells_eq.
  { by apply (same_schema_wf df0). }
  { eapply same_schema_trans; [by apply same_schema_sym|done]. }
  assert (∀ c name v, rewrite_target aligned_person' aligned_item' D c name v →
            rewrite_target aligned_person aligned_item D c name v) as Hback.
  { intros c name v. by apply rewrite_target_perm. }
  intros name row. destruct (cell df' name row) as [x|] eqn:Hx.
  - assert (name ∈ df_columns df0) as Hname.
    { destruct (same_schema_columns _ _ Hs') as [<- _].
      right. apply series_lookup_is_Some. unfold cell in Hx.
      destruct (series_lookup (params df') name); [eauto|done]. }
    apply Hcells' in Hx as Hold. destruct Hold as [Hold|(c & Hc & Ht%Hback)].
    + destruct (proj2 (same_schema_cell df0 df name row Hs)) as [y Hy]; [eauto|].
      rewrite Hy. apply Hcells in Hy as Hy'.
      destruct Hy' as [?|(c & Hc & Ht)]; [congruence|].
      f_equal. symmetry.
      assert (cell df' name row = Some y) as Hy2; [|congruence].
      assert (rewrite_target aligned_person' aligned_item' D c name y) as Ht'
        by by apply (rewrite_target_perm aligned_person aligned_item).
      apply (rewritten_site_cell df0 df' aligned_person' aligned_item' D Hwf
               Hndp' Hndi' Hsite' c name y row); [|done|done|done].
      by apply (target_site _ _ _ _ _ y).
    + symmetry.
      apply (rewritten_site_cell df0 df aligned_person aligned_item D Hwf Hndp Hndi
               Hsite c name x row); [|done|done|done].
      by apply (target_site _ _ _ _ _ x).
  - symmetry. apply eq_None_not_Some.
    rewrite (same_schema_cell df0 df) by done.
    rewrite <- (same_schema_cell df0 df') by done. rewrite Hx. by intros [? ?].
Qed.

Lemma rewritten_column_eq T df0 df name :
  rewritten T df0 df → (∀ c v, ¬ T c name v) →
  series_lookup (params df) name = series_lookup (params df0) name.
Proof.
  intros [Hs Hcells] Hno. apply same_schema_column_eq; [done|].
  intros row. destruct (cell df name row) as [x|] eqn:Hx.
  - apply Hcells in Hx as [Hx|(c & _ & Ht)]; [done|]. by destruct (Hno c x).
  - symmetry. apply eq_None_not_Some. rewrite <- (same_schema_cell df0 df) by done.
    rewrite Hx. by intros [? ?].
Qed.

(** X22. When the alignment stage of [run_stan_model] returns, the
    store has one more table, the reference returned; the input table is
    unchanged; the new table has the columns and the chain column of the
    input, and every column other than [xi[i,d]] and [zt_centered[i,d]] with
    [d <= 2] is the column of the input. Coordinates of a third dimension are
    therefore not aligned. *)
Theorem alignment_frame procrustes df_fit stan_data out h df r out' h' :
  h !! df_fit = Some df →
  run_stan_model_alignment procrustes df_fit stan_data (out, h)
  = (Ok r, (out', h')) →
  ∃ df',
    r = length h ∧ h' = h ++ [df'] ∧ h' !! df_fit = Some df ∧
    df_columns df' = df_columns df ∧ chain__ df' = chain__ df ∧
    ∀ name,
      (∀ i d, (d < 2)%nat → name ≠ param_name "xi" i d) →
      (∀ i d, (d < 2)%nat → name ≠ param_name "zt_centered" i d) →
      series_lookup (params df') name = series_lookup (params df) name.
Proof.
  intros Hh.
  destruct (alignment_stage_selected procrustes df_fit stan_data out h)
    as (pd & idr & _ & _ & _ & _ & ->).
  unfold prog_bind, lift.
  destruct (series_get stan_data "n_persons") as [np|]; [|done].
  destruct (series_get stan_data "D") as [D|]; [|done].
  destruct (extract_latent_coordinates pd np D "xi") as [pc|]; [|done].
  destruct (series_get stan_data "n_items") as [ni|]; [|done].
  destruct (extract_latent_coordinates idr ni D "zt_centered") as [ic|]; [|done].
  rewrite on_stdout_run.
  destruct (align_latent_spaces procrustes pc ic 1 out) as [[[ap ai]|e] out1];
    [|done].
  cbn [fst snd]. rewrite on_heap_run.
  destruct (create_aligned_draws_dataframe df_fit ap ai 2 h) as [res h1] eqn:Hrun.
  cbn [fst snd]. intros [= -> <- <-].
  destruct (rewrite_rewritten _ _ _ _ _ _ _ _ Hh Hrun) as (df' & -> & Hrw & Hr).
  exists df'. pose proof (lookup_lt_Some _ _ _ Hh) as Hlt.
  destruct (same_schema_columns _ _ (proj1 Hrw)) as [Hcols _].
  split_and!; [by apply Hr|done|by rewrite lookup_app_l|done|apply Hrw|].
  intros name Hxi Hzt. apply (rewritten_column_eq _ _ _ _ Hrw).
  intros c v [Ht|Ht]; destruct Ht as (coords & i & d & _ & _ & Hd & -> & _).
  - by apply (Hxi i d).
  - by apply (Hzt i d).
Qed.

(** ** Sample runs *)

Lemma chain_one_run :
  run_stan_model_alignment (scipy_procrustes turn_solver) 0 lnrt_stan_data
    ([], [draws_of_chain 1])
  = (Ok 1%nat, ([], [draws_of_chain 1; chain_one_aligned])).
Proof. reflexivity. Qed.

Lemma turned_keys_NoDup (d : list (Z * ndarray)) a b :
  d = [(1%Z, a); (2%Z, b)] → NoDup (dict_keys d).
Proof.
  intros ->. unfold dict_keys. cbn.
  apply NoDup_cons. split.
  - intros H. apply elem_of_cons in H as [H|H]; [discriminate|].
    by apply elem_of_nil in H.
  - apply NoDup_singleton.
Qed.


Lemma turned_lookup_other (d : list (Z * ndarray)) a b c m :
  d = [(1%Z, a); (2%Z, b)] → c ≠ 1%Z → dict_lookup d c = Some m → m = b.
Proof.
  intros -> Hc. cbn [dict_lookup].
  destruct (decide (1%Z = c)) as [|_]; [congruence|].
  destruct (decide (2%Z = c)); [|done]. by intros [= <-].
Qed.





(** X5, witness. *)
Lemma align_output_order_witness :
  dict_keys [(1%Z, square_person); (2%Z, rows_upto 2 (standardize square_stack))]
  = 1%Z :: other_chains turned_persons 1 ∧
  dict_keys [(1%Z, square_item); (2%Z, rows_from 2 (standardize square_stack))]
  = 1%Z :: other_chains turned_persons 1 ∧
  ∃ log,
    [Aligning 2 1 0] = [] ++ log ∧
    ev_chain <$> log = other_chains turned_persons 1 ∧
    Forall (λ e, ev_ref e = 1%Z) log.
Proof.
  apply (align_output_order (scipy_procrustes turn_solver)
           turned_persons turned_items 1 [] _ _ [Aligning 2 1 0]).
  - by apply (turned_keys_NoDup _ square_person turned_person).
  - exact align_turned_run.
Defined.

(** X6, witness. *)
Lemma align_output_shapes_witness :
  (∀ c p, dict_lookup [(1%Z, square_person);
                       (2%Z, rows_upto 2 (standardize square_stack))] c = Some p →
          shape p = shape square_person) ∧
  (∀ c i, dict_lookup [(1%Z, square_item);
                       (2%Z, rows_from 2 (standardize square_stack))] c = Some i →
          shape i = shape square_item).
Proof.
  apply (align_output_shapes turn_solver turned_persons turned_items 1 []
           _ _ [Aligning 2 1 0] square_person square_item).
  - reflexivity.
  - reflexivity.
  - exact align_turned_run.
Defined.



(** X9, witness. *)
Lemma align_disparity_bounds_witness :
  ∃ log, [Aligning 2 1 0] = [] ++ log ∧
         Forall (λ e, 0 <= ev_disparity e <= 1) log.
Proof.
  apply (align_disparity_bounds turn_solver turned_persons turned_items 1
           square_person square_item square_stack []
           (Ok ([(1%Z, square_person);
                 (2%Z, rows_upto 2 (standardize square_stack))],
                [(1%Z, square_item);
                 (2%Z, rows_from 2 (standardize square_stack))]))
           [Aligning 2 1 0]).
  - reflexivity.
  - reflexivity.
  - reflexivity.
  - exact square_stack_wf.
  - intros c pc ic cur _ Hc H1 H2 H3.
    apply (turned_lookup_other _ square_person turned_person c pc eq_refl Hc) in H1.
    apply (turned_lookup_other _ square_item turned_item c ic eq_refl Hc) in H2.
    subst pc ic.
    assert (np_vstack turned_person turned_item = Ok turned_stack) as Hv
      by reflexivity.
    rewrite Hv in H3. injection H3 as <-.
    apply (known_rotation_optimal turn_solver square_stack quarter_turn).
    + exact square_stack_wf.
    + exact quarter_turn_orthogonal.
    + exact turned_stack_dot.
    + reflexivity.
  - exact align_turned_run.
Defined.


(** X12, witness. *)
Lemma align_shape_mismatch_witness :
  ∃ msg out',
    align_latent_spaces (scipy_procrustes turn_solver) short_persons turned_items 1 []
    = (Raise (ValueError msg), out').
Proof.
  apply (align_shape_mismatch turn_solver short_persons turned_items 1
           square_person square_item 2 (mk_ndarray 2 [[0; 0]]) turned_item []).
  - reflexivity.
  - reflexivity.
  - intros c Hc. exact Hc.
  - discriminate.
  - reflexivity.
  - reflexivity.
  - right. right. cbn. lia.
Defined.

Lemma sample_covers (d : list (Z * ndarray)) v :
  d = [(2%Z, mk_ndarray 1 [[v]])] → covers 1 d.
Proof.
  intros -> c coords [= -> ->]%list_elem_of_singleton.
  split; [by repeat constructor|done].
Qed.



(** X14, witness. *)
Lemma rewrite_idempotent_witness :
  ∃ df,
    create_aligned_draws_dataframe 0 sample_person sample_item 1 [sample_draws]
      = (Ok (length [sample_draws]), [sample_draws] ++ [df]) ∧
    create_aligned_draws_dataframe (length [sample_draws]) sample_person
      sample_item 1 ([sample_draws] ++ [df])
      = (Ok (S (length [sample_draws])), [sample_draws] ++ [df; df]).
Proof.
  apply (rewrite_idempotent [sample_draws] 0 sample_draws
           sample_person sample_item 1).
  - reflexivity.
  - exact sample_draws_wf.
  - apply NoDup_singleton.
  - apply NoDup_singleton.
  - exact (sample_covers sample_person 10 eq_refl).
  - exact (sample_covers sample_item 20 eq_refl).
Defined.

(** X17, witness. *)
Lemma rewrite_outside_matrix_untouched_witness :
  ∃ df,
    [sample_draws; sample_rewritten] = [sample_draws] ++ [df] ∧
    (∀ i d,
       (1 ≤ d)%nat ∨
       (∀ c coords, (c, coords) ∈ sample_person → (nrows coords ≤ i)%nat) →
       series_lookup (params df) (param_name "xi" i d)
       = series_lookup (params sample_draws) (param_name "xi" i d)) ∧
    (∀ i d,
       (1 ≤ d)%nat ∨
       (∀ c coords, (c, coords) ∈ sample_item → (nrows coords ≤ i)%nat) →
       series_lookup (params df) (param_name "zt_centered" i d)
       = series_lookup (params sample_draws) (param_name "zt_centered" i d)).
Proof.
  apply (rewrite_outside_matrix_untouched [sample_draws] 0 sample_draws
           sample_person sample_item 1 (Ok 1%nat)).
  - reflexivity.
  - exact sample_rewrite_run.
Defined.

(** X18, witness. *)
Lemma rewrite_index_error_witness :
  ∃ h',
    create_aligned_draws_dataframe 0 narrow_person [] 1 [sample_draws]
    = (Raise IndexError, h').
Proof.
  apply (rewrite_index_error [sample_draws] 0 sample_draws narrow_person [] 1
           2 (mk_ndarray 0 [[]]) 0 0).
  - reflexivity.
  - left. split; [left|right; left].
  - cbn. lia.
  - lia.
  - cbn. lia.
Defined.

(** X15, witness. *)
Lemma rewrite_order_irrelevant_witness :
  create_aligned_draws_dataframe 0 two_person_swapped sample_item 1 [sample_draws]
  = create_aligned_draws_dataframe 0 two_person sample_item 1 [sample_draws].
Proof.
  apply (rewrite_order_irrelevant [sample_draws] 0 sample_draws
           two_person sample_item two_person_swapped sample_item 1).
  - reflexivity.
  - exact sample_draws_wf.
  - by apply (turned_keys_NoDup _ (mk_ndarray 1 [[30]]) (mk_ndarray 1 [[10]])).
  - apply NoDup_singleton.
  - intros c coords Hin. unfold two_person in Hin.
    apply elem_of_cons in Hin as [[= -> ->]|[= -> ->]%list_elem_of_singleton];
      (split; [by repeat constructor|done]).
  - exact (sample_covers sample_item 20 eq_refl).
  - apply perm_swap.
  - reflexivity.
Defined.



Lemma draws_of_chain_columns c prefix :
  (prefix = "xi"%string ∨ prefix = "zt_centered"%string) →
  ∀ i d, (i < 1)%nat → (d < 2)%nat →
    param_name prefix i d ∈ df_columns (draws_of_chain c).
Proof.
  intros Hp i d Hi Hd. assert (i = 0%nat) as -> by lia.
  destruct Hp as [->| ->]; destruct d as [|[|d]]; try lia.
  - right. left.
  - right. right. left.
  - do 3 right. left.
  - do 4 right. left.
Qed.

(** X20, witness. *)
Lemma alignment_requires_chain_one_witness :
  ∃ k,
    run_stan_model_alignment (scipy_procrustes turn_solver) 0 lnrt_stan_data
      ([], [draws_of_chain 2])
    = (Raise (KeyError k), ([], [draws_of_chain 2])) ∧
    ((∀ i d, (i < 1)%nat → (d < 2)%nat →
        param_name "xi" i d ∈ df_columns (deref [draws_of_chain 2] 0)) →
     (∀ i d, (i < 1)%nat → (d < 2)%nat →
        param_name "zt_centered" i d ∈ df_columns (deref [draws_of_chain 2] 0)) →
     k = KInt 1).
Proof.
  apply (alignment_requires_chain_one (scipy_procrustes turn_solver) 0
           lnrt_stan_data [] [draws_of_chain 2] 1 1 2).
  - reflexivity.
  - reflexivity.
  - reflexivity.
  - intros H. repeat (apply elem_of_cons in H as [H|H]; [discriminate|]).
    by apply elem_of_nil in H.
Defined.

Lemma draws_of_chain_wf c : df_wf (draws_of_chain c).
Proof.
  split; [by repeat constructor|].
  unfold df_columns, draws_of_chain. cbn.
  repeat (apply NoDup_cons; split;
          [intros H; repeat (apply elem_of_cons in H as [H|H]; [discriminate|]);
           by apply elem_of_nil in H|]).
  apply NoDup_nil. done.
Qed.

(** X21, witness. *)
Lemma alignment_reference_rows_become_means_witness :
  ∃ df',
    1%nat = length [draws_of_chain 1] ∧
    [draws_of_chain 1; chain_one_aligned] = [draws_of_chain 1] ++ [df'] ∧
    ∀ row, chain__ (draws_of_chain 1) !! row = Some 1%Z →
      (∀ i d, (i < 1)%nat → (d < 2)%nat →
         cell df' (param_name "xi" i d) row
         = Some (chain_mean (draws_of_chain 1) "xi" 1 i d)) ∧
      (∀ i d, (i < 1)%nat → (d < 2)%nat →
         cell df' (param_name "zt_centered" i d) row
         = Some (chain_mean (draws_of_chain 1) "zt_centered" 1 i d)).
Proof.
  apply (alignment_reference_rows_become_means turn_solver 0 lnrt_stan_data
           [] [draws_of_chain 1] (draws_of_chain 1) 1 1 2 1 []).
  - reflexivity.
  - apply draws_of_chain_wf.
  - reflexivity.
  - reflexivity.
  - reflexivity.
  - lia.
  - apply draws_of_chain_columns. by left.
  - apply draws_of_chain_columns. by right.
  - exact chain_one_run.
Defined.

(** X22, witness. *)
Lemma alignment_frame_witness :
  ∃ df',
    1%nat = length [draws_of_chain 1] ∧
    [draws_of_chain 1; chain_one_aligned] = [draws_of_chain 1] ++ [df'] ∧
    [draws_of_chain 1; chain_one_aligned] !! 0%nat = Some (draws_of_chain 1) ∧
    df_columns df' = df_columns (draws_of_chain 1) ∧
    chain__ df' = chain__ (draws_of_chain 1) ∧
    ∀ name,
      (∀ i d, (d < 2)%nat → name ≠ param_name "xi" i d) →
      (∀ i d, (d < 2)%nat → name ≠ param_name "zt_centered" i d) →
      series_lookup (params df') name
      = series_lookup (params (draws_of_chain 1)) name.
Proof.
  apply (alignment_frame (scipy_procrustes turn_solver) 0 lnrt_stan_data
           [] [draws_of_chain 1] (draws_of_chain 1) 1 []).
  - reflexivity.
  - exact chain_one_run.
Defined.

(** ** Totality and independence of the aligner *)

Lemma scipy_procrustes_returns solver a b :
  shape a = shape b → (nrows a * ncols a)%nat ≠ 0%nat →
  np_norm (center a) ≠ 0 → np_norm (center b) ≠ 0 →
  shape (solver (standardize a) (standardize b)).1 = (ncols a, ncols a) →
  ∃ fit, scipy_procrustes solver a b = Ok fit.
Proof.
  intros Hshape Hsize Hna Hnb Hsolver. unfold scipy_procrustes.
  rewrite decide_False by (intros H; by apply H).
  rewrite decide_False by done.
  rewrite decide_False by (intros [?|?]; done).
  fold (standardize a) (standardize b).
  destruct (solver (standardize a) (standardize b)) as [Rm s].
  simpl in Hsolver. injection Hsolver as HRr HRc.
  injection Hshape as Hr Hc.
  unfold np_dot_T. rewrite decide_True
    by (unfold standardize, div_scalar, center, sub_row; simpl; congruence).
  simpl. unfold np_sub. rewrite decide_True; [simpl; eauto|].
  unfold shape, nrows, mul_scalar, standardize, div_scalar, center, sub_row.
  simpl. rewrite !length_fmap. unfold nrows in *. congruence.
Qed.

Lemma for_each_st_returns {St A S} (I : S → St → Prop) (xs : list A)
    (body : A → S → prog St S) s st :
  I s st →
  (∀ x t st1, x ∈ xs → I t st1 →
     ∃ t' st1', body x t st1 = (Ok t', st1') ∧ I t' st1') →
  ∃ s' st', for_each_st xs body s st = (Ok s', st') ∧ I s' st'.
Proof.
  revert s st. induction xs as [|x xs IH]; intros s st Hs Hbody; simpl.
  - unfold prog_ret. eauto.
  - unfold prog_bind.
    destruct (Hbody x s st) as (t' & st1' & -> & Ht); [left|done|].
    apply IH; [done|]. intros y u st2 Hy. apply Hbody. by right.
Qed.

(** X4. With SciPy's Procrustes routine, [align_latent_spaces] returns
    when the reference chain is in both maps with a stacked configuration of
    more than one distinct point, and every other chain of the person map is
    in the item map with a stacked matrix of the shape of the reference's
    and more than one distinct point (the solver returning a square matrix
    of the common width). *)
Theorem align_returns solver person_coords item_coords ref_chain_id
    person_ref item_ref reference_matrix out :
  dict_lookup person_coords ref_chain_id = Some person_ref →
  dict_lookup item_coords ref_chain_id = Some item_ref →
  np_vstack person_ref item_ref = Ok reference_matrix →
  (nrows reference_matrix * ncols reference_matrix)%nat ≠ 0%nat →
  np_norm (center reference_matrix) ≠ 0 →
  (∀ c, c ∈ dict_keys person_coords → c ≠ ref_chain_id →
     ∃ person_cur item_cur current_matrix,
       dict_lookup person_coords c = Some person_cur ∧
       dict_lookup item_coords c = Some item_cur ∧
       np_vstack person_cur item_cur = Ok current_matrix ∧
       shape current_matrix = shape reference_matrix ∧
       np_norm (center current_matrix) ≠ 0 ∧
       shape (solver (standardize reference_matrix)
                     (standardize current_matrix)).1
       = (ncols reference_matrix, ncols reference_matrix)) →
  ∃ aligned_person aligned_item out',
    align_latent_spaces (scipy_procrustes solver)
      person_coords item_coords ref_chain_id out
    = (Ok (aligned_person, aligned_item), out').
Proof.
  intros Hpr Hir Hrm Hsize Hnorm Hchains.
  unfold align_latent_spaces, prog_bind, lift, dict_get.
  rewrite Hpr, Hir, Hrm.
  destruct (for_each_st_returns (λ _ _, True) (dict_keys person_coords)
              (align_chain (scipy_procrustes solver) person_coords item_coords
                 ref_chain_id reference_matrix (nrows person_ref))
              ([(ref_chain_id, person_ref)], [(ref_chain_id, item_ref)]) out I)
    as ([ap ai] & out' & -> & _); [|eauto].
  intros c a st1 Hc _.
  destruct (decide (c = ref_chain_id)) as [->|Hne].
  { unfold align_chain. rewrite decide_True by done. unfold prog_ret. eauto. }
  rewrite align_chain_fit by done.
  destruct (Hchains c Hc Hne) as (pc & ic & cur & Hpc & Hic & Hcur & Hs & Hn & Hsol).
  unfold chain_fit, dict_get. rewrite Hpc, Hic. simpl. rewrite Hcur. simpl.
  destruct (scipy_procrustes_returns solver reference_matrix cur) as [fit ->];
    try done. eauto.
Qed.

Lemma dict_lookup_zip {V W} (F : Z → result W) (g : W → V) (cs : list Z)
    (fits : list W) c :
  Forall2 (λ c fit, F c = Ok fit) cs fits →
  dict_lookup (zip_with (λ c fit, (c, g fit)) cs fits) c
  = if decide (c ∈ cs)
    then match F c with Ok fit => Some (g fit) | Raise _ => None end
    else None.
Proof.
  induction 1 as [|c0 fit cs fits Hfit _ IH].
  - destruct (decide (c ∈ [])) as [Hin|_]; [by apply elem_of_nil in Hin|done].
  - cbn [zip_with dict_lookup]. rewrite IH.
    destruct (decide (c0 = c)) as [->|Hne].
    + rewrite Hfit. destruct (decide (c ∈ c :: cs)) as [_|Hn]; [done|].
      destruct Hn. left.
    + destruct (decide (c ∈ cs)) as [Hin|Hin],
        (decide (c ∈ c0 :: cs)) as [Hin'|Hin']; try done.
      * destruct Hin'. by right.
      * apply elem_of_cons in Hin' as [?|?]; congruence.
Qed.

Lemma elem_of_other_chains (person_coords : dict ndarray) ref_chain_id c :
  c ∈ other_chains person_coords ref_chain_id
  ↔ c ≠ ref_chain_id ∧ is_Some (dict_lookup person_coords c).
Proof.
  unfold other_chains. rewrite list_elem_of_filter, dict_lookup_is_Some. done.
Qed.

(** The entry of a chain other than the reference in the output maps. *)
Lemma align_lookup procrustes person_coords item_coords ref_chain_id out
    ap ai out' c :
  NoDup (dict_keys person_coords) →
  align_latent_spaces procrustes person_coords item_coords ref_chain_id out
  = (Ok (ap, ai), out') →
  c ≠ ref_chain_id →
  ∃ person_ref item_ref reference_matrix,
    dict_lookup person_coords ref_chain_id = Some person_ref ∧
    dict_lookup item_coords ref_chain_id = Some item_ref ∧
    np_vstack person_ref item_ref = Ok reference_matrix ∧
    dict_lookup ap c
    = (if decide (c ∈ other_chains person_coords ref_chain_id)
       then match chain_fit procrustes person_coords item_coords
                    reference_matrix c with
            | Ok fit => Some (rows_upto (nrows person_ref) fit.1.2)
            | Raise _ => None
            end
       else None) ∧
    dict_lookup ai c
    = (if decide (c ∈ other_chains person_coords ref_chain_id)
       then match chain_fit procrustes person_coords item_coords
                    reference_matrix c with
            | Ok fit => Some (rows_from (nrows person_ref) fit.1.2)
            | Raise _ => None
            end
       else None).
Proof.
  intros Hnd Hrun Hc.
  apply align_run in Hrun
    as (pr & ir & rm & fits & Hpr & Hir & Hrm & Hfits & -> & -> & _); [|done].
  exists pr, ir, rm. split_and!; try done.
  - cbn [dict_lookup]. rewrite decide_False by done.
    apply (dict_lookup_zip
             (chain_fit procrustes person_coords item_coords rm)
             (λ fit, rows_upto (nrows pr) fit.1.2)). done.
  - cbn [dict_lookup]. rewrite decide_False by done.
    apply (dict_lookup_zip
             (chain_fit procrustes person_coords item_coords rm)
             (λ fit, rows_from (nrows pr) fit.1.2)). done.
Qed.

(** X10. Chains are aligned independently of one another: two
    calls of [align_latent_spaces] that return and are given the same
    matrices for the reference chain and for a chain [c] return the same
    matrices for [c], whatever other chains the two inputs hold. *)
Theorem align_chains_independent procrustes person_coords item_coords
    person_coords' item_coords' ref_chain_id c out out0
    aligned_person aligned_item out' aligned_person' aligned_item' out0' :
  NoDup (dict_keys person_coords) → NoDup (dict_keys person_coords') →
  dict_lookup person_coords' ref_chain_id = dict_lookup person_coords ref_chain_id →
  dict_lookup item_coords' ref_chain_id = dict_lookup item_coords ref_chain_id →
  dict_lookup person_coords' c = dict_lookup person_coords c →
  dict_lookup item_coords' c = dict_lookup item_coords c →
  align_latent_spaces procrustes person_coords item_coords ref_chain_id out
  = (Ok (aligned_person, aligned_item), out') →
  align_latent_spaces procrustes person_coords' item_coords' ref_chain_id out0
  = (Ok (aligned_person', aligned_item'), out0') →
  dict_lookup aligned_person' c = dict_lookup aligned_person c ∧
  dict_lookup aligned_item' c = dict_lookup aligned_item c.
Proof.
  intros Hnd Hnd' Hpref Hiref Hpc Hic Hrun Hrun'.
  destruct (decide (c = ref_chain_id)) as [->|Hc].
  { destruct (align_keys_NoDup _ _ _ _ _ _ _ _ Hnd Hrun) as (_ & _ & -> & ->).
    destruct (align_keys_NoDup _ _ _ _ _ _ _ _ Hnd' Hrun') as (_ & _ & -> & ->).
    done. }
  destruct (align_lookup _ _ _ _ _ _ _ _ c Hnd Hrun Hc)
    as (pr & ir & rm & Hpr & Hir & Hrm & -> & ->).
  destruct (align_lookup _ _ _ _ _ _ _ _ c Hnd' Hrun' Hc)
    as (pr' & ir' & rm' & Hpr' & Hir' & Hrm' & -> & ->).
  assert (pr' = pr) as -> by congruence.
  assert (ir' = ir) as -> by congruence.
  assert (rm' = rm) as -> by congruence.
  assert (chain_fit procrustes person_coords' item_coords' rm c
          = chain_fit procrustes person_coords item_coords rm c) as ->.
  { unfold chain_fit, dict_get. by rewrite Hpc, Hic. }
  destruct (decide (c ∈ other_chains person_coords ref_chain_id)) as [Hin|Hin],
    (decide (c ∈ other_chains person_coords' ref_chain_id)) as [Hin'|Hin'];
    try done; exfalso.
  - apply Hin'. apply elem_of_other_chains. rewrite Hpc.
    by apply elem_of_other_chains.
  - apply Hin. apply elem_of_other_chains. rewrite <- Hpc.
    by apply elem_of_other_chains.
Qed.

(** Two pairs of aligned maps that assign the same values to the chains of
    the table give the same table. *)
Lemma rewrite_agree h original_draws df0 ap ai ap' ai' D :
  h !! original_draws = Some df0 → df_wf df0 →
  NoDup (dict_keys ap) → NoDup (dict_keys ai) →
  NoDup (dict_keys ap') → NoDup (dict_keys ai') →
  covers D ap → covers D ai → covers D ap' → covers D ai' →
  (∀ c name v, c ∈ chain__ df0 →
     rewrite_target ap ai D c name v ↔ rewrite_target ap' ai' D c name v) →
  create_aligned_draws_dataframe original_draws ap' ai' D h
  = create_aligned_draws_dataframe original_draws ap ai D h.
Proof.
  intros Hh Hwf Hndp Hndi Hndp' Hndi' Hcp Hci Hcp' Hci' Hagree.
  destruct (rewrite_run h original_draws df0 ap ai D Hh Hcp Hci)
    as (df & -> & Hrw & Hsite).
  destruct (rewrite_run h original_draws df0 ap' ai' D Hh Hcp' Hci')
    as (df' & -> & Hrw' & Hsite').
  assert (df' = df) as ->; [|done].
  destruct Hrw as [Hs Hcells]. destruct Hrw' as [Hs' Hcells'].
  apply same_schema_cells_eq.
  { by apply (same_schema_wf df0). }
  { eapply same_schema_trans; [by apply same_schema_sym|done]. }
  intros name row. destruct (cell df' name row) as [x|] eqn:Hx.
  - assert (name ∈ df_columns df0) as Hname.
    { destruct (same_schema_columns _ _ Hs') as [<- _].
      right. apply series_lookup_is_Some. unfold cell in Hx.
      destruct (series_lookup (params df') name); [eauto|done]. }
    apply Hcells' in Hx as Hold. destruct Hold as [Hold|(c & Hc & Ht)].
    + destruct (proj2 (same_schema_cell df0 df name row Hs)) as [y Hy]; [eauto|].
      rewrite Hy. apply Hcells in Hy as Hy'.
      destruct Hy' as [?|(c & Hc & Ht)]; [congruence|].
      f_equal. symmetry.
      assert (cell df' name row = Some y) as Hy2; [|congruence].
      assert (rewrite_target ap' ai' D c name y) as Ht'.
      { apply Hagree; [by eapply list_elem_of_lookup_2|done]. }
      apply (rewritten_site_cell df0 df' ap' ai' D Hwf
               Hndp' Hndi' Hsite' c name y row); [|done|done|done].
      by apply (target_site _ _ _ _ _ y).
    + symmetry.
      assert (rewrite_target ap ai D c name x) as Ht'.
      { apply Hagree; [by eapply list_elem_of_lookup_2|done]. }
      apply (rewritten_site_cell df0 df ap ai D Hwf Hndp Hndi
               Hsite c name x row); [|done|done|done].
      by apply (target_site _ _ _ _ _ x).
  - symmetry. apply eq_None_not_Some.
    rewrite (same_schema_cell df0 df) by done.
    rewrite <- (same_schema_cell df0 df') by done. rewrite Hx. by intros [? ?].
Qed.

Lemma target_cons prefix c0 coords0 aligned D c name v :
  c ≠ c0 →
  target prefix ((c0, coords0) :: aligned) D c name v
  ↔ target prefix aligned D c name v.
Proof.
  intros Hc. unfold target. split.
  - intros (coords & i & d & Hin & H). exists coords, i, d. split; [|done].
    apply elem_of_cons in Hin as [[= ? ?]|?]; [congruence|done].
  - intros (coords & i & d & Hin & H). exists coords, i, d. split; [|done].
    by right.
Qed.

Lemma covers_cons D c coords aligned :
  covers D ((c, coords) :: aligned) → covers D aligned.
Proof. intros H c' coords' Hin. apply (H c' coords'). by right. Qed.

(** X16. A chain of the aligned maps that has no row in the
    table changes nothing: [create_aligned_draws_dataframe] gives the same
    result with and without its entries, and raises nothing for it. *)
Theorem rewrite_absent_chain_ignored h original_draws df0
    aligned_person aligned_item D c person_c item_c :
  h !! original_draws = Some df0 → df_wf df0 →
  NoDup (dict_keys ((c, person_c) :: aligned_person)) →
  NoDup (dict_keys ((c, item_c) :: aligned_item)) →
  covers D ((c, person_c) :: aligned_person) →
  covers D ((c, item_c) :: aligned_item) →
  c ∉ chain__ df0 →
  create_aligned_draws_dataframe original_draws
    ((c, person_c) :: aligned_person) ((c, item_c) :: aligned_item) D h
  = create_aligned_draws_dataframe original_draws aligned_person aligned_item D h.
Proof.
  intros Hh Hwf Hndp Hndi Hcp Hci Hc.
  apply (rewrite_agree h original_draws df0); try done.
  - unfold dict_keys in *. rewrite fmap_cons in Hndp. by apply NoDup_cons in Hndp as [_ ?].
  - unfold dict_keys in *. rewrite fmap_cons in Hndi. by apply NoDup_cons in Hndi as [_ ?].
  - by eapply covers_cons.
  - by eapply covers_cons.
  - intros c' name v Hc'. unfold rewrite_target.
    rewrite !target_cons by (intros ->; done). done.
Qed.

(** ** Order of the draws *)











(** ** More sample runs *)

Lemma turned_stack_norm : np_norm (center turned_stack) ≠ 0.
Proof.
  unfold np_norm. intros H%sqrt_eq_0.
  - revert H. unfold sum_square, center, sub_row, np_mean0. cbn. lra.
  - apply sum_square_nonneg.
Qed.

(** X4, witness. *)
Lemma align_returns_witness :
  ∃ aligned_person aligned_item out',
    align_latent_spaces (scipy_procrustes turn_solver)
      turned_persons turned_items 1 []
    = (Ok (aligned_person, aligned_item), out').
Proof.
  apply (align_returns turn_solver turned_persons turned_items 1
           square_person square_item square_stack []).
  - reflexivity.
  - reflexivity.
  - reflexivity.
  - cbn. lia.
  - exact square_stack_norm.
  - intros c Hin Hc. unfold dict_keys, turned_persons in Hin.
    rewrite !fmap_cons in Hin. cbn [fst] in Hin.
    apply elem_of_cons in Hin as [->|Hin]; [done|].
    apply elem_of_cons in Hin as [->|Hin]; [|by apply elem_of_nil in Hin].
    exists turned_person, turned_item, turned_stack.
    split_and!; try reflexivity. exact turned_stack_norm.
Defined.

Lemma more_items_run :
  align_latent_spaces (scipy_procrustes turn_solver) turned_persons more_items 1 []
  = (Ok ([(1%Z, square_person);
          (2%Z, rows_upto 2 (standardize square_stack))],
         [(1%Z, square_item);
          (2%Z, rows_from 2 (standardize square_stack))]),
     [Aligning 2 1 0]).
Proof.
  rewrite <- align_turned_run. apply align_item_chains_ignored.
  - intros c Hc. unfold more_items, turned_items. cbn [dict_lookup].
    unfold dict_keys, turned_persons in Hc.
    rewrite !fmap_cons in Hc. cbn [fst] in Hc.
    apply elem_of_cons in Hc as [->|Hc]; [done|].
    apply elem_of_cons in Hc as [->|Hc]; [done|by apply elem_of_nil in Hc].
  - reflexivity.
Qed.

(** X10, witness. *)
Lemma align_chains_independent_witness :
  dict_lookup [(1%Z, square_person);
               (2%Z, rows_upto 2 (standardize square_stack))] 2
  = dict_lookup [(1%Z, square_person);
                 (2%Z, rows_upto 2 (standardize square_stack))] 2 ∧
  dict_lookup [(1%Z, square_item);
               (2%Z, rows_from 2 (standardize square_stack))] 2
  = dict_lookup [(1%Z, square_item);
                 (2%Z, rows_from 2 (standardize square_stack))] 2.
Proof.
  apply (align_chains_independent (scipy_procrustes turn_solver)
           turned_persons turned_items turned_persons more_items 1 2 [] []
           _ _ [Aligning 2 1 0] _ _ [Aligning 2 1 0]).
  - by apply (turned_keys_NoDup _ square_person turned_person).
  - by apply (turned_keys_NoDup _ square_person turned_person).
  - reflexivity.
  - reflexivity.
  - reflexivity.
  - reflexivity.
  - exact align_turned_run.
  - exact more_items_run.
Defined.

(** X16, witness. *)
Lemma rewrite_absent_chain_ignored_witness :
  create_aligned_draws_dataframe 0 absent_person absent_item 1 [sample_draws]
  = create_aligned_draws_dataframe 0 sample_person sample_item 1 [sample_draws].
Proof.
  apply (rewrite_absent_chain_ignored [sample_draws] 0 sample_draws
           sample_person sample_item 1 3 (mk_ndarray 1 [[7]]) (mk_ndarray 1 [[8]])).
  - reflexivity.
  - exact sample_draws_wf.
  - unfold dict_keys, sample_person. rewrite !fmap_cons. cbn [fst].
    apply NoDup_cons. split; [|apply NoDup_singleton].
    intros H. apply elem_of_cons in H as [H|H]; [discriminate|].
    by apply elem_of_nil in H.
  - unfold dict_keys, sample_item. rewrite !fmap_cons. cbn [fst].
    apply NoDup_cons. split; [|apply NoDup_singleton].
    intros H. apply elem_of_cons in H as [H|H]; [discriminate|].
    by apply elem_of_nil in H.
  - intros c coords Hin. unfold sample_person in Hin.
    apply elem_of_cons in Hin as [[= -> ->]|[= -> ->]%list_elem_of_singleton];
      (split; [by repeat constructor|done]).
  - intros c coords Hin. unfold sample_item in Hin.
    apply elem_of_cons in Hin as [[= -> ->]|[= -> ->]%list_elem_of_singleton];
      (split; [by repeat constructor|done]).
  - intros H. repeat (apply elem_of_cons in H as [H|H]; [discriminate|]).
    by apply elem_of_nil in H.
Defined.


(** ** Independence of the chains in extraction *)

Lemma for_each_dict_set_lookup {V} (F : Z → result V) (xs : list Z)
    (acc means : dict V) c :
  for_each xs (λ c acc, m ← F c; Ok (dict_set acc c m)) acc = Ok means →
  dict_lookup means c
  = if decide (c ∈ xs)
    then match F c with Ok m => Some m | Raise _ => None end
    else dict_lookup acc c.
Proof.
  revert acc. induction xs as [|x xs IH]; intros acc; simpl.
  - intros [= <-].
    destruct (decide (c ∈ [])) as [Hin|_]; [by apply elem_of_nil in Hin|done].
  - destruct (F x) as [m|e] eqn:Hx; [|done]. simpl. intros Hrun.
    rewrite (IH _ Hrun).
    destruct (decide (c ∈ xs)) as [Hin|Hin],
      (decide (c ∈ x :: xs)) as [Hin'|Hin']; try done.
    + destruct Hin'. by right.
    + apply elem_of_cons in Hin' as [->|?]; [|done].
      by rewrite dict_lookup_set_eq, Hx.
    + rewrite dict_lookup_set_ne; [done|]. intros ->. apply Hin'. left.
Qed.

Lemma extract_lookup df n D prefix means c :
  extract_latent_coordinates df n D prefix = Ok means →
  dict_lookup means c
  = if decide (c ∈ chain__ df)
    then match chain_matrix (df_select df (chain_mask df c)) n D prefix with
         | Ok m => Some m
         | Raise _ => None
         end
    else None.
Proof.
  unfold extract_latent_coordinates. intros Hrun.
  rewrite (for_each_dict_set_lookup
             (λ c, chain_matrix (df_select df (chain_mask df c)) n D prefix)
             _ _ _ c Hrun).
  destruct (decide (c ∈ unique (chain__ df))) as [Hin|Hin],
    (decide (c ∈ chain__ df)) as [Hin'|Hin']; try done; exfalso.
  - by apply Hin', elem_of_unique.
  - by apply Hin, elem_of_unique.
Qed.

(** X3. Chains are extracted independently of one another:
    when two tables have the same rows for chain [c] and
    [extract_latent_coordinates] returns on both, the matrix of [c] is the
    same in both results. *)
Theorem extract_chains_independent df df' n D prefix chain_means chain_means' c :
  df_select df' (chain_mask df' c) = df_select df (chain_mask df c) →
  extract_latent_coordinates df n D prefix = Ok chain_means →
  extract_latent_coordinates df' n D prefix = Ok chain_means' →
  dict_lookup chain_means' c = dict_lookup chain_means c.
Proof.
  intros Hsel Hrun Hrun'.
  rewrite (extract_lookup _ _ _ _ _ c Hrun), (extract_lookup _ _ _ _ _ c Hrun').
  rewrite Hsel.
  assert (c ∈ chain__ df' ↔ c ∈ chain__ df) as Hiff.
  { assert (∀ t, c ∈ chain__ t ↔ chain__ (df_select t (chain_mask t c)) ≠ []) as H.
    { intros t. unfold df_select, chain_mask. cbn [chain__].
      induction (chain__ t) as [|x xs IH]; simpl.
      - split; [by intros ?%elem_of_nil|done].
      - case_bool_decide as Hx; simpl.
        + subst x. split; [done|intros _; left].
        + rewrite <- IH. split; [|by right].
          intros [?|?]%elem_of_cons; [congruence|done]. }
    by rewrite !H, Hsel. }
  destruct (decide (c ∈ chain__ df')) as [Hin|Hin],
    (decide (c ∈ chain__ df)) as [Hin'|Hin']; try done; exfalso.
  - by apply Hin', Hiff.
  - by apply Hin, Hiff.
Qed.

(** X3, witness. *)
Lemma extract_chains_independent_witness :
  dict_lookup [(1%Z, mk_ndarray 1 [[mean [1; 3]]]);
               (2%Z, mk_ndarray 1 [[mean [5]]])] 2
  = dict_lookup [(2%Z, mk_ndarray 1 [[mean [5]]])] 2.
Proof.
  apply (extract_chains_independent
           chain_two_draws sample_draws 1 1 "xi"
           [(2%Z, mk_ndarray 1 [[mean [5]]])]
           [(1%Z, mk_ndarray 1 [[mean [1; 3]]]);
            (2%Z, mk_ndarray 1 [[mean [5]]])] 2).
  - reflexivity.
  - reflexivity.
  - reflexivity.
Defined.
